(** * match-backend: the compatibility-matching engine

    A shallow embedding of the matching core of the dating backend:

    - [utils/vector]: [cosineSimilarity], [traitsToVector],
      [calculateUserSimilarity];
    - [services/matching]: [findCompatibleUsers], [checkMutualLike],
      [createMatchIfMutualLike];
    - [routes/match]: the GET /potential, POST /like and
      DELETE /like/:userId handlers;
    - [routes/message]: the GET /match/:matchId, POST /,
      PUT /:messageId/read and GET /unread handlers, over the message
      table of the schema.

    JavaScript numbers are IEEE 754 binary64 values; they are embedded as
    Rocq's primitive [float]s, whose operations ([+], [-], [*], [/],
    [sqrt], the comparisons) are the same binary64 operations, rounded to
    nearest with ties to even.  Database tables are lists of rows held in
    an explicit store that the handlers thread through a small
    state-and-exception monad. *)

From Stdlib Require Import Floats ZArith List String Ascii Bool Lia.
From Stdlib Require Import Sorted Permutation.
Import ListNotations.

Set Warnings "-inexact-float".

(* ================================================================== *)
(** * Part I: the embedding                                            *)
(* ================================================================== *)

(** ** JavaScript numbers *)

Module Js.

Definition number := float.

(** [ToBoolean] on a number: [0], [-0] and [NaN] are falsy. *)
Definition truthy (x : number) : bool :=
  negb (PrimFloat.is_zero x || PrimFloat.is_nan x).

(** [v || 0] where [v] is an own property of a vector, a number, or
    [undefined] ([None]). *)
Definition or_zero (v : option number) : number :=
  match v with
  | Some x => if truthy x then x else 0%float
  | None => 0%float
  end.

(** What a property read on a vector can return: a number, [undefined],
    or an object (a function of [Object.prototype], or the prototype
    itself). *)
Inductive value : Type :=
| Num (x : number)
| Undefined
| Obj.

(** [ToBoolean]: [undefined] is falsy, every object is truthy. *)
Definition ToBoolean (v : value) : bool :=
  match v with
  | Num x => truthy x
  | Undefined => false
  | Obj => true
  end.

(** [v || d] *)
Definition value_or (v : value) (d : number) : value :=
  if ToBoolean v then v else Num d.

(** [ToNumber]: [undefined] converts to [NaN], and so does an object
    whose string form is not a numeric literal, as that of a function
    or of [Object.prototype] is. *)
Definition ToNumber (v : value) : number :=
  match v with
  | Num x => x
  | Undefined => nan
  | Obj => nan
  end.

(** [a * b] *)
Definition mul (a b : value) : number := (ToNumber a * ToNumber b)%float.

(** [Array.prototype.slice(0, limit)] for an integer [limit]: a
    negative end counts from the end of the array. *)
Definition slice0 {A : Type} (limit : Z) (l : list A) : list A :=
  if (limit <? 0)%Z
  then firstn (Z.to_nat (Z.max 0 (Z.of_nat (List.length l) + limit))) l
  else firstn (Z.to_nat limit) l.

(** [Array.prototype.sort(cmp)].  ECMAScript requires a stable sort
    and reads a [NaN] comparator result as [+0].  The model is the
    straight insertion sort: the sorted prefix is kept last element
    first, and a new element [x] moves left past each predecessor [y]
    for which [cmp y x > 0].  For a consistent comparator every
    conforming engine returns this order; when the comparator is
    inconsistent (it returns [NaN] for some pairs) the order is
    implementation-defined, and the model is one such implementation. *)
Section Sort.
Context {A : Type} (cmp : A -> A -> number).

Fixpoint insert (x : A) (prefix : list A) : list A :=
  match prefix with
  | [] => [x]
  | y :: r =>
      if (0 <? cmp y x)%float then y :: insert x r else x :: y :: r
  end.

Definition sort (l : list A) : list A :=
  rev (fold_left (fun prefix x => insert x prefix) l []).
End Sort.

End Js.

(** ** utils/vector *)

(** A [VectorMap] is a plain object with number-valued properties.  It is
    represented by its own enumerable entries in [Object.keys] order
    (insertion order: no key of this program is an array index); a
    well-formed object lists every key once. *)
Definition VectorMap := list (string * Js.number).

(** The own property [key] of the vector, if it has one. *)
Fixpoint vec_get (v : VectorMap) (key : string) : option Js.number :=
  match v with
  | [] => None
  | (k, x) :: r => if String.eqb k key then Some x else vec_get r key
  end.

(** [vector[key] = x]: overwrite in place, or append a new property. *)
Fixpoint vec_set (v : VectorMap) (key : string) (x : Js.number) : VectorMap :=
  match v with
  | [] => [(key, x)]
  | (k, y) :: r =>
      if String.eqb k key then (k, x) :: r else (k, y) :: vec_set r key x
  end.

Definition object_keys (v : VectorMap) : list string := map fst v.

Definition mem (k : string) (s : list string) : bool :=
  existsb (String.eqb k) s.

(** The names of the members of [Object.prototype], which every plain
    object inherits: the functions of the standard library (with those
    of its Annex B) and the accessor [__proto__]. *)
Definition Object_prototype : list string :=
  [ "constructor"; "hasOwnProperty"; "isPrototypeOf"; "propertyIsEnumerable";
    "toLocaleString"; "toString"; "valueOf";
    "__defineGetter__"; "__defineSetter__"; "__lookupGetter__"; "__lookupSetter__";
    "__proto__" ]%string.

(** [vector[key]]: the own property; failing that the member of
    [Object.prototype] of that name, an object; failing that
    [undefined]. *)
Definition vec_read (v : VectorMap) (key : string) : Js.value :=
  match vec_get v key with
  | Some x => Js.Num x
  | None => if mem key Object_prototype then Js.Obj else Js.Undefined
  end.

(** [new Set(iterable)]: insertion order, first occurrence kept. *)
Definition Set_add (s : list string) (k : string) : list string :=
  if mem k s then s else s ++ [k].

Definition new_Set (l : list string) : list string :=
  fold_left Set_add l [].

(** The three accumulators of the loop in [cosineSimilarity]. *)
Record Sums := mkSums { dotProduct : Js.number; normA : Js.number; normB : Js.number }.

Definition sums0 : Sums := mkSums 0%float 0%float 0%float.

Definition loop_body (vectorA vectorB : VectorMap) (acc : Sums) (key : string) : Sums :=
  let valueA := Js.value_or (vec_read vectorA key) 0%float in
  let valueB := Js.value_or (vec_read vectorB key) 0%float in
  mkSums (dotProduct acc + Js.mul valueA valueB)%float
         (normA acc + Js.mul valueA valueA)%float
         (normB acc + Js.mul valueB valueB)%float.

Definition all_keys (vectorA vectorB : VectorMap) : list string :=
  new_Set (object_keys vectorA ++ object_keys vectorB).

Definition loop (vectorA vectorB : VectorMap) : Sums :=
  fold_left (loop_body vectorA vectorB) (all_keys vectorA vectorB) sums0.

Definition cosineSimilarity (vectorA vectorB : VectorMap) : Js.number :=
  let acc := loop vectorA vectorB in
  if (normA acc =? 0)%float || (normB acc =? 0)%float
  then 0%float
  else (dotProduct acc / (sqrt (normA acc) * sqrt (normB acc)))%float.

(** [UserTraits]: [personalityTraits] is an object, given by its entries
    in [Object.entries] order; [interests] and [values] are arrays. *)
Record UserTraits := mkTraits {
  personalityTraits : list (string * Js.number);
  interests : list string;
  values : list string
}.

Definition traitsToVector (traits : UserTraits) : VectorMap :=
  let vector : VectorMap := [] in
  let vector :=
    fold_left (fun vec (e : string * Js.number) =>
                 vec_set vec ("personality_" ++ fst e)%string (snd e))
              (personalityTraits traits) vector in
  let vector :=
    fold_left (fun vec interest => vec_set vec ("interest_" ++ interest)%string 1%float)
              (interests traits) vector in
  let vector :=
    fold_left (fun vec value => vec_set vec ("value_" ++ value)%string 1%float)
              (values traits) vector in
  vector.

Definition calculateUserSimilarity (userATraits userBTraits : UserTraits) : Js.number :=
  let vectorA := traitsToVector userATraits in
  let vectorB := traitsToVector userBTraits in
  cosineSimilarity vectorA vectorB.

(** ** The persistence layer (Prisma client)

    The rows of the three tables the matching core reads and writes.
    Timestamps ([createdAt]) are not part of the model; the message
    table is added with the message routes below. *)

(** The range of an [Int] column. *)
Definition int4 (z : Z) : bool :=
  (-2147483648 <=? z)%Z && (z <=? 2147483647)%Z.

Module User.
Record t := mk {
  id : Z;
  name : string;
  bio : option string;
  communityId : Z;
  traitVector : option UserTraits
}.
End User.

Module Like.
Record t := mk { fromUserId : Z; toUserId : Z }.
End Like.

Module Match.
Record t := mk { id : Z; userAId : Z; userBId : Z }.
End Match.

(** The tables, after the Prisma schema of the repository: a User
    belongs to one community and has a nullable Trait Profile; a Like
    is a directed pair, unique per ordered pair (the compound key
    [fromUserId_toUserId]); a Match is an ordered pair [(userA, userB)]
    with an auto-incremented [id].  A table is the list of its rows in
    insertion order.  Ids are [Int] columns: the queries below are
    given ids within the range of a 32-bit signed integer ([int4]);
    the client refuses any other. *)
Record Db := mkDb {
  users : list User.t;
  likes : list Like.t;
  matches : list Match.t;
  nextMatchId : Z
}.

(** An [async] computation reads and writes the store and either
    resolves or rejects (throws). *)
Inductive Outcome (A : Type) : Type :=
| Resolved (a : A)
| Rejected (message : string).
Arguments Resolved {A} a.
Arguments Rejected {A} message.

Definition Async (A : Type) : Type := Db -> Outcome A * Db.

Definition ret {A} (a : A) : Async A := fun db => (Resolved a, db).

Definition throw {A} (message : string) : Async A := fun db => (Rejected message, db).

Definition bind {A B} (c : Async A) (k : A -> Async B) : Async B :=
  fun db =>
    match c db with
    | (Resolved a, db') => k a db'
    | (Rejected e, db') => (Rejected e, db')
    end.

(** [try { c } catch (error) { h error }]: writes made before the throw
    stay (the handlers open no transaction). *)
Definition try_catch {A} (c : Async A) (h : string -> Async A) : Async A :=
  fun db =>
    match c db with
    | (Resolved a, db') => (Resolved a, db')
    | (Rejected e, db') => h e db'
    end.

Declare Scope async_scope.
Delimit Scope async_scope with async.
Notation "x <- c ;; k" := (bind c (fun x => k))
  (at level 61, c at next level, right associativity) : async_scope.
Notation "c ;;; k" := (bind c (fun _ => k))
  (at level 61, right associativity) : async_scope.
Local Open Scope async_scope.

Fixpoint mapM {A B} (f : A -> Async B) (l : list A) : Async (list B) :=
  match l with
  | [] => ret []
  | x :: r => y <- f x ;; ys <- mapM f r ;; ret (y :: ys)
  end.

Module prisma.

Definition is_like (fromUserId toUserId : Z) (l : Like.t) : bool :=
  (Like.fromUserId l =? fromUserId)%Z && (Like.toUserId l =? toUserId)%Z.

(** [where: { OR: [{ userAId: a, userBId: b }, { userAId: b, userBId: a }] }] *)
Definition is_match_of (a b : Z) (m : Match.t) : bool :=
  ((Match.userAId m =? a)%Z && (Match.userBId m =? b)%Z)
  || ((Match.userAId m =? b)%Z && (Match.userBId m =? a)%Z).

(** [user.findUnique({ where: { id } })], for an [id] within [int4]. *)
Definition user_findUnique (id : Z) : Async (option User.t) :=
  fun db => (Resolved (find (fun u => (User.id u =? id)%Z) (users db)), db).

(** [user.findMany] of [findCompatibleUsers]: the other users of the
    community, each with the likes it received from [userId]. *)
Definition user_findMany (communityId userId : Z) : Async (list (User.t * list Like.t)) :=
  fun db =>
    (Resolved
       (map (fun u => (u, filter (is_like userId (User.id u)) (likes db)))
            (filter (fun u => (User.communityId u =? communityId)%Z
                              && negb (User.id u =? userId)%Z)
                    (users db))),
     db).

Definition like_findUnique (fromUserId toUserId : Z) : Async (option Like.t) :=
  fun db => (Resolved (find (is_like fromUserId toUserId) (likes db)), db).

(** [like.create] with [connect]: rejects when a connected user is
    missing or the unique key is taken. *)
Definition like_create (fromUserId toUserId : Z) : Async Like.t :=
  fun db =>
    if existsb (fun u => (User.id u =? fromUserId)%Z) (users db)
       && existsb (fun u => (User.id u =? toUserId)%Z) (users db)
       && negb (existsb (is_like fromUserId toUserId) (likes db))
    then
      let l := Like.mk fromUserId toUserId in
      (Resolved l, mkDb (users db) (likes db ++ [l]) (matches db) (nextMatchId db))
    else (Rejected "PrismaClientKnownRequestError", db).

(** [like.delete] by unique key: rejects when the row does not exist. *)
Definition like_delete (fromUserId toUserId : Z) : Async unit :=
  fun db =>
    if existsb (is_like fromUserId toUserId) (likes db)
    then (Resolved tt,
          mkDb (users db)
               (filter (fun l => negb (is_like fromUserId toUserId l)) (likes db))
               (matches db) (nextMatchId db))
    else (Rejected "PrismaClientKnownRequestError", db).

Definition match_findFirst (a b : Z) : Async (option Match.t) :=
  fun db => (Resolved (find (is_match_of a b) (matches db)), db).

Definition match_create (userAId userBId : Z) : Async Match.t :=
  fun db =>
    let m := Match.mk (nextMatchId db) userAId userBId in
    (Resolved m,
     mkDb (users db) (likes db) (matches db ++ [m]) (nextMatchId db + 1)).

(** [match.delete] by [id]: rejects when the row does not exist. *)
Definition match_delete (id : Z) : Async unit :=
  fun db =>
    if existsb (fun m => (Match.id m =? id)%Z) (matches db)
    then (Resolved tt,
          mkDb (users db) (likes db)
               (filter (fun m => negb (Match.id m =? id)%Z) (matches db))
               (nextMatchId db))
    else (Rejected "PrismaClientKnownRequestError", db).

End prisma.

(** ** services/matching *)

(** An entry of the ranked list. *)
Module Scored.
Record t := mk {
  id : Z;
  name : string;
  bio : option string;
  similarityScore : Js.number
}.
End Scored.

(** [x as unknown as UserTraits], then used: reading a property of
    [null] throws a [TypeError]. *)
Definition as_UserTraits (v : option UserTraits) : Async UserTraits :=
  match v with
  | Some t => ret t
  | None => throw "TypeError"
  end.

Definition isSome {A} (o : option A) : bool :=
  match o with Some _ => true | None => false end.

(** The filter of [findCompatibleUsers]. *)
Definition potentialMatches (communityUsers : list (User.t * list Like.t))
  : list (User.t * list Like.t) :=
  filter (fun user => (List.length (snd user) =? 0)%nat && isSome (User.traitVector (fst user)))
         communityUsers.

(** The [map] of [findCompatibleUsers]. *)
Definition matchesWithScores (user : User.t) (potential : list (User.t * list Like.t))
  : Async (list Scored.t) :=
  mapM (fun potentialMatch : User.t * list Like.t =>
          userTraits <- as_UserTraits (User.traitVector user) ;;
          matchTraits <- as_UserTraits (User.traitVector (fst potentialMatch)) ;;
          let similarityScore := calculateUserSimilarity userTraits matchTraits in
          ret (Scored.mk (User.id (fst potentialMatch))
                        (User.name (fst potentialMatch))
                        (User.bio (fst potentialMatch))
                        similarityScore))
       potential.

(** The comparator [(a, b) => b.similarityScore - a.similarityScore]. *)
Definition by_score_desc (a b : Scored.t) : Js.number :=
  (Scored.similarityScore b - Scored.similarityScore a)%float.

Definition findCompatibleUsers (userId : Z) (limit : Z) : Async (list Scored.t) :=
  user <- prisma.user_findUnique userId ;;
  match user with
  | None => throw "User not found"
  | Some user =>
      if negb (isSome (User.traitVector user))
      then throw "User does not have trait vector data"
      else
        communityUsers <- prisma.user_findMany (User.communityId user) userId ;;
        scored <- matchesWithScores user (potentialMatches communityUsers) ;;
        ret (Js.slice0 limit (Js.sort by_score_desc scored))
  end.

Definition checkMutualLike (userAId userBId : Z) : Async bool :=
  aLikesB <- prisma.like_findUnique userAId userBId ;;
  bLikesA <- prisma.like_findUnique userBId userAId ;;
  ret (isSome aLikesB && isSome bLikesA).

Definition createMatchIfMutualLike (userAId userBId : Z) : Async (option Match.t) :=
  hasMutualLike <- checkMutualLike userAId userBId ;;
  if negb hasMutualLike then ret None
  else
    existingMatch <- prisma.match_findFirst userAId userBId ;;
    match existingMatch with
    | Some m => ret (Some m)
    | None => m <- prisma.match_create userAId userBId ;; ret (Some m)
    end.

(** ** routes/match *)

(** [request.user], set by the authentication hook. *)
Record AuthUser := mkAuth { auth_id : Z; auth_communityId : Z }.

Inductive Body : Type :=
| ErrorBody (error : string)
| MatchesBody (matches : list Scored.t)
| LikeCreatedBody (success isMatch : bool) (matchId : option Z)
| LikeDeletedBody (success matchDeleted : bool).

Record Reply := mkReply { code : Z; body : Body }.

(** GET /potential.  [limitQuery] is [request.query.limit] after
    [parseInt(_, 10)]: [None] when the parameter is absent or empty,
    [Some None] when it parses to [NaN]. *)
Definition getPotential (user : AuthUser) (limitQuery : option (option Z)) : Async Reply :=
  try_catch
    (let id := auth_id user in
     let limit := match limitQuery with Some l => l | None => Some 5%Z end in
     match limit with
     | None => ret (mkReply 400 (ErrorBody "Limit must be between 1 and 20"))
     | Some limit =>
         if (limit <? 1)%Z || (20 <? limit)%Z
         then ret (mkReply 400 (ErrorBody "Limit must be between 1 and 20"))
         else
           potential <- findCompatibleUsers id limit ;;
           ret (mkReply 200 (MatchesBody potential))
     end)
    (fun error => ret (mkReply 500 (ErrorBody error))).

(** POST /like. *)
Definition postLike (user : AuthUser) (toUserId : Z) : Async Reply :=
  try_catch
    (let fromUserId := auth_id user in
     if (fromUserId =? toUserId)%Z
     then ret (mkReply 400 (ErrorBody "Cannot like yourself"))
     else
       toUser <- prisma.user_findUnique toUserId ;;
       match toUser with
       | None => ret (mkReply 404 (ErrorBody "User not found"))
       | Some toUser =>
           if negb (User.communityId toUser =? auth_communityId user)%Z
           then ret (mkReply 403 (ErrorBody "Cannot like users from different communities"))
           else
             existingLike <- prisma.like_findUnique fromUserId toUserId ;;
             if isSome existingLike
             then ret (mkReply 400 (ErrorBody "User already liked"))
             else
               prisma.like_create fromUserId toUserId ;;;
               m <- createMatchIfMutualLike fromUserId toUserId ;;
               ret (mkReply 201 (LikeCreatedBody true (isSome m) (option_map Match.id m)))
       end)
    (fun _ => ret (mkReply 500 (ErrorBody "Server error creating like"))).

(** DELETE /like/:userId.  [userIdParam] is [parseInt(userId, 10)],
    [None] standing for [NaN]. *)
Definition deleteLike (user : AuthUser) (userIdParam : option Z) : Async Reply :=
  try_catch
    (let fromUserId := auth_id user in
     match userIdParam with
     | None => ret (mkReply 400 (ErrorBody "Invalid user ID"))
     | Some toUserId =>
         deleted <- try_catch
                      (prisma.like_delete fromUserId toUserId ;;; ret true)
                      (fun _ => ret false) ;;
         if negb deleted
         then ret (mkReply 404 (ErrorBody "Like not found"))
         else
           m <- prisma.match_findFirst fromUserId toUserId ;;
           match m with
           | Some m' => prisma.match_delete (Match.id m')
           | None => ret tt
           end ;;;
           ret (mkReply 200 (LikeDeletedBody true (isSome m)))
     end)
    (fun _ => ret (mkReply 500 (ErrorBody "Server error deleting like"))).

(** ** Notions used in the statements *)

(** ** The Similarity Engine

    The squared norm of a vector on its own: the sum of the squares of
    its weights, read the way the loop reads them, in key order. *)
Definition squaredNorm (v : VectorMap) : Js.number :=
  fold_left (fun acc key =>
               (acc + Js.or_zero (vec_get v key) * Js.or_zero (vec_get v key))%float)
            (object_keys v) 0%float.

(** No key of the vector names a member of [Object.prototype]. *)
Definition plain_keys (v : VectorMap) : bool :=
  forallb (fun k => negb (mem k Object_prototype)) (object_keys v).

(** ** The contract of the Vectorizer

    [vectorize_spec sep t v]: [v] maps ["personality" ++ sep ++ name] to
    the intensity of each personality trait, ["interest" ++ sep ++ kw]
    and ["value" ++ sep ++ kw] to [1.0] for each interest and value, has
    no other key, and lists every key once. *)
Definition vectorize_spec (sep : string) (t : UserTraits) (v : VectorMap) : Prop :=
  (forall n x, In (n, x) (personalityTraits t) ->
               vec_get v ("personality" ++ sep ++ n)%string = Some x)
  /\ (forall i, In i (interests t) ->
                vec_get v ("interest" ++ sep ++ i)%string = Some 1%float)
  /\ (forall w, In w (values t) ->
                vec_get v ("value" ++ sep ++ w)%string = Some 1%float)
  /\ (forall k, In k (object_keys v) ->
                (exists n x, In (n, x) (personalityTraits t)
                             /\ k = ("personality" ++ sep ++ n)%string)
                \/ (exists i, In i (interests t) /\ k = ("interest" ++ sep ++ i)%string)
                \/ (exists w, In w (values t) /\ k = ("value" ++ sep ++ w)%string))
  /\ NoDup (object_keys v).

(** ** The Candidate Set

    The row [user.findUnique] returns for the requester. *)
Definition requester (db : Db) (userId : Z) : option User.t :=
  find (fun u => (User.id u =? userId)%Z) (users db).

(** [userId] has liked [c]: a Like row [userId -> c] exists. *)
Definition liked_by (db : Db) (userId : Z) (c : User.t) : Prop :=
  exists l, In l (likes db) /\ Like.fromUserId l = userId /\ Like.toUserId l = User.id c.

(** The Candidate Set the code builds for requester [user]: the rows of
    [user.findMany] that pass the filter. *)
Definition candidateSet (db : Db) (user : User.t) (userId : Z) : list User.t :=
  map fst
      (potentialMatches
         (map (fun u => (u, filter (prisma.is_like userId (User.id u)) (likes db)))
              (filter (fun u => (User.communityId u =? User.communityId user)%Z
                                && negb (User.id u =? userId)%Z)
                      (users db)))).

(** The entry scored for a candidate with profile [t]. *)
Definition scoreEntry (userTraits : UserTraits) (c : User.t) : option Scored.t :=
  option_map
    (fun t => Scored.mk (User.id c) (User.name c) (User.bio c)
                        (calculateUserSimilarity userTraits t))
    (User.traitVector c).

(** The entries scored for a list of candidates, in order. *)
Definition scoredCandidates (userTraits : UserTraits) (cands : list User.t) : list Scored.t :=
  flat_map (fun c => match scoreEntry userTraits c with
                     | Some s => [s]
                     | None => []
                     end) cands.

(** [a] scores at least as high as [b]. *)
Definition score_ge (a b : Scored.t) : Prop :=
  (Scored.similarityScore b <=? Scored.similarityScore a)%float = true.

(** The score of [s] is not [NaN]. *)
Definition is_number (s : Scored.t) : Prop :=
  PrimFloat.is_nan (Scored.similarityScore s) = false.

(** The store with one more Like row. *)
Definition with_like (db : Db) (l : Like.t) : Db :=
  mkDb (users db) (likes db ++ [l]) (matches db) (nextMatchId db).

(** The computation threw. *)
Definition rejects {A} (r : Outcome A * Db) : Prop :=
  exists message, fst r = Rejected message.

(** ** The Reciprocity Resolver

    The Match rows of the unordered pair [{a, b}], in either stored
    orientation. *)
Definition pair_matches (db : Db) (a b : Z) : list Match.t :=
  filter (prisma.is_match_of a b) (matches db).

(** The directed Like [a -> b] exists. *)
Definition has_like (db : Db) (a b : Z) : bool :=
  existsb (prisma.is_like a b) (likes db).

(** The invariant of the [match] table: ids are unique and below the
    next auto-increment value, and an unordered pair has at most one
    row. *)
Definition matches_wf (db : Db) : Prop :=
  NoDup (map Match.id (matches db))
  /\ Forall (fun m => (Match.id m < nextMatchId db)%Z) (matches db)
  /\ forall a b, (List.length (pair_matches db a b) <= 1)%nat.

(** The stores the like and unlike handlers can produce from one
    without Likes and Matches, each request running to its end before
    the next begins. *)
Inductive reachable : Db -> Prop :=
| reach_init (us : list User.t) (n : Z) : reachable (mkDb us [] [] n)
| reach_postLike (db : Db) (user : AuthUser) (toUserId : Z) :
    reachable db -> reachable (snd (postLike user toUserId db))
| reach_deleteLike (db : Db) (user : AuthUser) (userIdParam : option Z) :
    reachable db -> reachable (snd (deleteLike user userIdParam db)).

(** ** Concrete inputs *)

(** [{personalityTraits: {x: 1}, interests: ["x", "x"], values: ["x"]}] *)
Definition profile_xxx : UserTraits :=
  mkTraits [("x"%string, 1%float)] ["x"%string; "x"%string] ["x"%string].

(** Weights whose squares underflow, and one whose square overflows. *)
Definition tiny_a : VectorMap := [("x"%string, 0x1p-537%float)].

Definition tiny_b : VectorMap := [("x"%string, 0x1.8p-537%float)].

Definition huge : VectorMap := [("x"%string, 1e200%float)].

(** Vectors over the keys x, y, z (and w) in several key orders. *)
Definition vec_xyz : VectorMap :=
  [("x"%string, 0.1%float); ("y"%string, 0.1%float); ("z"%string, 0.1%float)].

Definition vec_zxy : VectorMap :=
  [("z"%string, 0.3%float); ("x"%string, 0.1%float); ("y"%string, 0.1%float)].

Definition vec_xyz' : VectorMap :=
  [("x"%string, 0.3%float); ("y"%string, 0.2%float); ("z"%string, 0.9%float)].

Definition vec_x : VectorMap := [("x"%string, 0.1%float)].

(** A vector whose key names a member of [Object.prototype]. *)
Definition vec_constructor : VectorMap := [("constructor"%string, 1%float)].

Definition vec_x_w0 : VectorMap := [("x"%string, 0.1%float); ("w"%string, 0%float)].

Definition vec_xzw : VectorMap :=
  [("x"%string, 0.1%float); ("z"%string, 0.1%float); ("w"%string, 0.3%float)].

Definition traits_xy : UserTraits :=
  mkTraits [("x"%string, 0.1%float); ("y"%string, 0.1%float)] [] [].

Definition traits_z0xy : UserTraits :=
  mkTraits [("z"%string, 0%float); ("x"%string, 0.1%float); ("y"%string, 0.1%float)] [] [].

Definition traits_xyz : UserTraits :=
  mkTraits [("x"%string, 0.1%float); ("y"%string, 0.1%float); ("z"%string, 0.3%float)] [] [].

(** *** A community to rank in

    Users 0..3 and 5 are in community 1, user 4 in community 2; user 5
    has no profile; user 0 has liked user 2, and user 3 has liked
    user 0. *)
Definition traits_u0 : UserTraits :=
  mkTraits [("openness"%string, 0.9%float)] ["hiking"%string] [].

Definition traits_u1 : UserTraits :=
  mkTraits [("openness"%string, 0.85%float)] ["hiking"%string] [].

Definition traits_u3 : UserTraits :=
  mkTraits [("openness"%string, 0.2%float)] ["chess"%string] [].

Definition user0 : User.t := User.mk 0 "U0" (Some "bio"%string) 1 (Some traits_u0).

Definition db_rank : Db :=
  mkDb [ user0;
         User.mk 1 "U1" (Some "bio"%string) 1 (Some traits_u1);
         User.mk 2 "U2" (Some "bio"%string) 1 (Some traits_u1);
         User.mk 3 "U3" (Some "bio"%string) 1 (Some traits_u3);
         User.mk 4 "U4" (Some "bio"%string) 2 (Some traits_u1);
         User.mk 5 "U5" None 1 None ]
       [ Like.mk 0 2; Like.mk 3 0 ]
       []
       1.

(** *** Scores that are not numbers

    Requester 0 has the profile [{x: 2, y: 1}]; the candidates 1, 2, 3
    have [{y: 1}], [{x: 1e308}] and [{x: 1}].  The product [2 * 1e308]
    overflows, so candidate 2 scores [NaN]; the comparator returns
    [NaN] against it and the three entries stay in fetch order. *)
Definition traits_of (entries : list (string * Js.number)) : UserTraits :=
  mkTraits entries [] [].

Definition user_nan : User.t :=
  User.mk 0 "R" None 1 (Some (traits_of [("x"%string, 2%float); ("y"%string, 1%float)])).

Definition db_nan : Db :=
  mkDb [ user_nan;
         User.mk 1 "C1" None 1 (Some (traits_of [("y"%string, 1%float)]));
         User.mk 2 "C2" None 1 (Some (traits_of [("x"%string, 1e308%float)]));
         User.mk 3 "C3" None 1 (Some (traits_of [("x"%string, 1%float)])) ]
       [] [] 1.

(** *** Two users liking each other *)
Definition db_pair : Db :=
  mkDb [ User.mk 1 "A" None 1 None; User.mk 2 "B" None 1 None ] [] [] 1.

Definition after_mutual_like : Db :=
  snd (postLike (mkAuth 2 1) 1 (snd (postLike (mkAuth 1 1) 2 db_pair))).

(** ** Notions used in the further properties *)

(** The entries of a ranked list whose score equals [v] ([===] on
    numbers), in order. *)
Definition with_score (v : Js.number) (l : list Scored.t) : list Scored.t :=
  filter (fun s => (Scored.similarityScore s =? v)%float) l.

(** Both directed Likes between [a] and [b] exist. *)
Definition mutual_like (db : Db) (a b : Z) : bool :=
  has_like db a b && has_like db b a.

(** The unordered pair [{a, b}] has a Match row. *)
Definition matched (db : Db) (a b : Z) : bool :=
  existsb (prisma.is_match_of a b) (matches db).

(** The row of user [id] exists. *)
Definition user_exists (db : Db) (id : Z) : bool :=
  existsb (fun u => (User.id u =? id)%Z) (users db).

(** The Likes given by users other than [u], and the Matches [u] is
    not a party to, in table order. *)
Definition likes_of_others (u : Z) (db : Db) : list Like.t :=
  filter (fun l => negb (Like.fromUserId l =? u)%Z) (likes db).

Definition matches_of_others (u : Z) (db : Db) : list Match.t :=
  filter (fun m => negb (Match.userAId m =? u)%Z && negb (Match.userBId m =? u)%Z)
         (matches db).

(** Every stored weight is [>= 0] ([-0] and [+Infinity] included, [NaN]
    excluded). *)
Definition nonneg_weights (v : VectorMap) : Prop :=
  Forall (fun e => (0 <=? snd e)%float = true) v.

(** No stored weight is [Infinity] or [-Infinity]. *)
Definition finite_weights (v : VectorMap) : Prop :=
  Forall (fun e => PrimFloat.is_infinity (snd e) = false) v.

(** The two vectors hold no key in common. *)
Definition disjoint_keys (A B : VectorMap) : Prop :=
  forall k, In k (object_keys A) -> ~ In k (object_keys B).

(** No intensity of the profile is [Infinity] or [-Infinity]. *)
Definition finite_intensities (t : UserTraits) : Prop :=
  Forall (fun e => PrimFloat.is_infinity (snd e) = false) (personalityTraits t).

(** The two profiles share no personality trait, no interest and no
    value. *)
Definition nothing_in_common (P Q : UserTraits) : Prop :=
  (forall n, In n (map fst (personalityTraits P)) -> ~ In n (map fst (personalityTraits Q)))
  /\ (forall i, In i (interests P) -> ~ In i (interests Q))
  /\ (forall w, In w (values P) -> ~ In w (values Q)).

(** ** routes/message

    The message table of the schema: a Message has an auto-incremented
    [id], a [text], a [read] flag that defaults to [false], a
    [createdAt] timestamp that defaults to the time of insertion, and
    refers to its sender, its receiver and its Match; deleting a Match
    deletes its Messages ([onDelete: Cascade]).  As in the matching
    core, the queries are given ids within [int4]. *)
Module Message.
Record t := mk {
  id : Z;
  text : string;
  read : bool;
  createdAt : Z;
  senderId : Z;
  receiverId : Z;
  matchId : Z
}.
End Message.

(** The store of the matching core together with the message table. *)
Record Store := mkStore {
  base : Db;
  messages : list Message.t;
  nextMessageId : Z
}.

Module Chat.

(** An [async] computation over the larger store. *)
Definition M (A : Type) : Type := Store -> Outcome A * Store.

Definition ret {A} (a : A) : M A := fun s => (Resolved a, s).

Definition bind {A B} (c : M A) (k : A -> M B) : M B :=
  fun s =>
    match c s with
    | (Resolved a, s') => k a s'
    | (Rejected e, s') => (Rejected e, s')
    end.

Definition try_catch {A} (c : M A) (h : string -> M A) : M A :=
  fun s =>
    match c s with
    | (Resolved a, s') => (Resolved a, s')
    | (Rejected e, s') => h e s'
    end.

Declare Scope chat_scope.
Delimit Scope chat_scope with chat.
Notation "x <- c ;; k" := (bind c (fun x => k))
  (at level 61, c at next level, right associativity) : chat_scope.
Notation "c ;;; k" := (bind c (fun _ => k))
  (at level 61, right associativity) : chat_scope.
Local Open Scope chat_scope.

(** The Match row with this [id] exists. *)
Definition has_match_id (db : Db) (id : Z) : bool :=
  existsb (fun m => (Match.id m =? id)%Z) (matches db).

(** The referential action on [Message.match]: the messages of every
    Match row that [before] holds and [after] does not are deleted. *)
Definition cascade (before after : Db) (ms : list Message.t) : list Message.t :=
  filter (fun msg => negb (has_match_id before (Message.matchId msg))
                     || has_match_id after (Message.matchId msg))
         ms.

(** A computation of the matching core, run on the larger store. *)
Definition lift {A} (c : Async A) : M A :=
  fun s =>
    let (o, db') := c (base s) in
    (o, mkStore db' (cascade (base s) db' (messages s)) (nextMessageId s)).

(** The like and unlike handlers of routes/match, on the larger store. *)
Definition postLike (user : AuthUser) (toUserId : Z) : M Reply :=
  lift (postLike user toUserId).

Definition deleteLike (user : AuthUser) (userIdParam : option Z) : M Reply :=
  lift (deleteLike user userIdParam).

(** [orderBy: { createdAt: "asc" }].  Rows with equal timestamps come
    in an order the database chooses; the model keeps them in table
    order. *)
Fixpoint insert_asc (x : Message.t) (l : list Message.t) : list Message.t :=
  match l with
  | [] => [x]
  | y :: r =>
      if (Message.createdAt x <? Message.createdAt y)%Z
      then x :: y :: r
      else y :: insert_asc x r
  end.

Definition orderBy_createdAt_asc (l : list Message.t) : list Message.t :=
  fold_left (fun acc x => insert_asc x acc) l [].

Definition set_read (msg : Message.t) : Message.t :=
  Message.mk (Message.id msg) (Message.text msg) true (Message.createdAt msg)
             (Message.senderId msg) (Message.receiverId msg) (Message.matchId msg).

(** [where: { receiverId: userId, read: false }] *)
Definition is_unread_for (userId : Z) (msg : Message.t) : bool :=
  (Message.receiverId msg =? userId)%Z && negb (Message.read msg).

(** The three lookups by id take ids within [int4]. *)
Definition match_findUnique (id : Z) : M (option Match.t) :=
  fun s => (Resolved (find (fun m => (Match.id m =? id)%Z) (matches (base s))), s).

Definition match_findFirst (a b : Z) : M (option Match.t) :=
  fun s => (Resolved (find (prisma.is_match_of a b) (matches (base s))), s).

(** [message.findMany] of a Match, oldest first. *)
Definition message_findMany (matchId : Z) : M (list Message.t) :=
  fun s =>
    (Resolved (orderBy_createdAt_asc
                 (filter (fun msg => (Message.matchId msg =? matchId)%Z) (messages s))),
     s).

(** [message.updateMany({ where: { id: { in: ids } }, data: { read: true } })] *)
Definition message_updateMany (ids : list Z) : M unit :=
  fun s =>
    (Resolved tt,
     mkStore (base s)
             (map (fun msg => if existsb (Z.eqb (Message.id msg)) ids
                              then set_read msg else msg)
                  (messages s))
             (nextMessageId s)).

(** [message.create] with [connect]: rejects when the sender, the
    receiver or the Match is missing. *)
Definition message_create (now : Z) (text : string) (senderId receiverId matchId : Z)
  : M Message.t :=
  fun s =>
    if user_exists (base s) senderId && user_exists (base s) receiverId
       && has_match_id (base s) matchId
    then
      let msg := Message.mk (nextMessageId s) text false now senderId receiverId matchId in
      (Resolved msg, mkStore (base s) (messages s ++ [msg]) (nextMessageId s + 1))
    else (Rejected "PrismaClientKnownRequestError", s).

Definition message_findUnique (id : Z) : M (option Message.t) :=
  fun s => (Resolved (find (fun msg => (Message.id msg =? id)%Z) (messages s)), s).

(** [message.update({ where: { id }, data: { read: true } })]: rejects
    when the row does not exist. *)
Definition message_update (id : Z) : M Message.t :=
  fun s =>
    match find (fun msg => (Message.id msg =? id)%Z) (messages s) with
    | Some msg =>
        (Resolved (set_read msg),
         mkStore (base s)
                 (map (fun msg' => if (Message.id msg' =? id)%Z then set_read msg' else msg')
                      (messages s))
                 (nextMessageId s))
    | None => (Rejected "PrismaClientKnownRequestError", s)
    end.

Definition message_count (userId : Z) : M Z :=
  fun s => (Resolved (Z.of_nat (List.length (filter (is_unread_for userId) (messages s)))), s).

(** [match.findMany] of GET /unread: the Matches of [userId] that hold
    a message [userId] has not read, each with the count of these
    messages ([_count.messages]). *)
Definition match_findMany (userId : Z) : M (list (Match.t * Z)) :=
  fun s =>
    let unread (m : Match.t) :=
      filter (fun msg => (Message.matchId msg =? Match.id m)%Z && is_unread_for userId msg)
             (messages s) in
    (Resolved
       (map (fun m => (m, Z.of_nat (List.length (unread m))))
            (filter (fun m => ((Match.userAId m =? userId)%Z || (Match.userBId m =? userId)%Z)
                              && negb (List.length (unread m) =? 0)%nat)
                    (matches (base s)))),
     s).

(** The fields a [select] without [matchId] returns. *)
Module View.
Record t := mk {
  id : Z;
  text : string;
  read : bool;
  createdAt : Z;
  senderId : Z;
  receiverId : Z
}.
End View.

Definition view (msg : Message.t) : View.t :=
  View.mk (Message.id msg) (Message.text msg) (Message.read msg) (Message.createdAt msg)
          (Message.senderId msg) (Message.receiverId msg).

(** An entry of [matches] in the reply of GET /unread. *)
Module UnreadEntry.
Record t := mk { matchId : Z; userId : Z; unreadCount : Z }.
End UnreadEntry.

Inductive Body : Type :=
| Error (error : string)
| Messages (messages : list View.t)
| Sent (message : Message.t)
| Marked (message : View.t)
| Unread (totalUnread : Z) (matches : list UnreadEntry.t).

Record Reply := mkReply { code : Z; body : Body }.

(** GET /match/:matchId.  [matchIdParam] is [parseInt(matchId, 10)],
    [None] standing for [NaN]. *)
Definition getMatchMessages (user : AuthUser) (matchIdParam : option Z) : M Reply :=
  try_catch
    (let userId := auth_id user in
     match matchIdParam with
     | None => ret (mkReply 400 (Error "Invalid match ID"))
     | Some matchIdNum =>
         m <- match_findUnique matchIdNum ;;
         match m with
         | None => ret (mkReply 404 (Error "Match not found"))
         | Some m =>
             if negb (Match.userAId m =? userId)%Z && negb (Match.userBId m =? userId)%Z
             then ret (mkReply 403 (Error "Not authorized to view these messages"))
             else
               msgs <- message_findMany matchIdNum ;;
               let unreadMessageIds :=
                 map Message.id
                     (filter (fun msg => (Message.receiverId msg =? userId)%Z
                                         && negb (Message.read msg))
                             msgs) in
               (if (0 <? List.length unreadMessageIds)%nat
                then message_updateMany unreadMessageIds
                else ret tt) ;;;
               ret (mkReply 200 (Messages (map view msgs)))
         end
     end)
    (fun _ => ret (mkReply 500 (Error "Server error fetching messages"))).

(** POST /.  [now] is the time the database stamps on the new row. *)
Definition postMessage (now : Z) (user : AuthUser) (receiverId : Z) (text : string) : M Reply :=
  try_catch
    (let senderId := auth_id user in
     if (senderId =? receiverId)%Z
     then ret (mkReply 400 (Error "Cannot send a message to yourself"))
     else
       m <- match_findFirst senderId receiverId ;;
       match m with
       | None =>
           ret (mkReply 403 (Error "You must match with a user before sending messages"))
       | Some m =>
           message <- message_create now text senderId receiverId (Match.id m) ;;
           ret (mkReply 201 (Sent message))
       end)
    (fun _ => ret (mkReply 500 (Error "Server error sending message"))).

(** PUT /:messageId/read. *)
Definition putMessageRead (user : AuthUser) (messageIdParam : option Z) : M Reply :=
  try_catch
    (let userId := auth_id user in
     match messageIdParam with
     | None => ret (mkReply 400 (Error "Invalid message ID"))
     | Some messageIdNum =>
         message <- message_findUnique messageIdNum ;;
         match message with
         | None => ret (mkReply 404 (Error "Message not found"))
         | Some message =>
             if negb (Message.receiverId message =? userId)%Z
             then ret (mkReply 403 (Error "Not authorized to mark this message as read"))
             else
               updatedMessage <- message_update messageIdNum ;;
               ret (mkReply 200 (Marked (view updatedMessage)))
         end
     end)
    (fun _ => ret (mkReply 500 (Error "Server error marking message as read"))).

(** GET /unread. *)
Definition getUnread (user : AuthUser) : M Reply :=
  try_catch
    (let userId := auth_id user in
     unreadCount <- message_count userId ;;
     matchesWithUnread <- match_findMany userId ;;
     let matchCounts :=
       map (fun mc : Match.t * Z =>
              UnreadEntry.mk (Match.id (fst mc))
                             (if (Match.userAId (fst mc) =? userId)%Z
                              then Match.userBId (fst mc) else Match.userAId (fst mc))
                             (snd mc))
           matchesWithUnread in
     ret (mkReply 200 (Unread unreadCount matchCounts)))
    (fun _ => ret (mkReply 500 (Error "Server error fetching unread counts"))).

(** The stores the like, unlike and message handlers can produce from
    one without Likes, Matches and Messages, each request running to
    its end before the next begins. *)
Inductive reachable : Store -> Prop :=
| reach_init (us : list User.t) (n k : Z) :
    reachable (mkStore (mkDb us [] [] n) [] k)
| reach_postLike (s : Store) (user : AuthUser) (toUserId : Z) :
    reachable s -> reachable (snd (postLike user toUserId s))
| reach_deleteLike (s : Store) (user : AuthUser) (userIdParam : option Z) :
    reachable s -> reachable (snd (deleteLike user userIdParam s))
| reach_postMessage (s : Store) (now : Z) (user : AuthUser) (receiverId : Z) (text : string) :
    reachable s -> reachable (snd (postMessage now user receiverId text s))
| reach_getMatchMessages (s : Store) (user : AuthUser) (matchIdParam : option Z) :
    reachable s -> reachable (snd (getMatchMessages user matchIdParam s))
| reach_putMessageRead (s : Store) (user : AuthUser) (messageIdParam : option Z) :
    reachable s -> reachable (snd (putMessageRead user messageIdParam s)).

(** The unread messages addressed to [userId]. *)
Definition unread_for (userId : Z) (s : Store) : list Message.t :=
  filter (is_unread_for userId) (messages s).

(** [msg] was sent between [a] and [b], in either direction. *)
Definition between (a b : Z) (msg : Message.t) : bool :=
  ((Message.senderId msg =? a)%Z && (Message.receiverId msg =? b)%Z)
  || ((Message.senderId msg =? b)%Z && (Message.receiverId msg =? a)%Z).

(** The messages of the conversation between [a] and [b]. *)
Definition conversation (a b : Z) (s : Store) : list Message.t :=
  filter (between a b) (messages s).

(** Every message belongs to a Match row between its sender and its
    receiver, and message ids are unique and below the next
    auto-increment value. *)
Definition messages_wf (s : Store) : Prop :=
  NoDup (map Message.id (messages s))
  /\ Forall (fun msg => (Message.id msg < nextMessageId s)%Z) (messages s)
  /\ Forall (fun msg =>
               exists m, In m (matches (base s))
                         /\ Match.id m = Message.matchId msg
                         /\ prisma.is_match_of
                              (Message.senderId msg) (Message.receiverId msg) m = true)
            (messages s).

End Chat.

(** *** Two matched users exchanging messages *)
Definition chat_init : Store := mkStore db_pair [] 1.

Definition chat_matched : Store :=
  snd (Chat.postLike (mkAuth 2 1) 1 (snd (Chat.postLike (mkAuth 1 1) 2 chat_init))).

Definition chat_talking : Store :=
  snd (Chat.postMessage 20 (mkAuth 2 1) 1 "hello"
         (snd (Chat.postMessage 10 (mkAuth 1 1) 2 "hi" chat_matched))).

(* ================================================================== *)
(** * Part II: binary64 arithmetic                                     *)
(* ================================================================== *)

(** Facts about the primitive operations, derived from their
    specification in [SpecFloat] (the operations of [FloatAxioms]). *)

Module FloatFacts.

Local Open Scope Z_scope.

Lemma digits2_pos_bounds (m : positive) :
  2 ^ (Zpos (digits2_pos m) - 1) <= Zpos m < 2 ^ Zpos (digits2_pos m).
Proof.
  induction m as [m IH | m IH | ]; cbn [digits2_pos].
  - rewrite Pos2Z.inj_succ.
    replace (Z.succ (Zpos (digits2_pos m)) - 1) with (Z.succ (Zpos (digits2_pos m) - 1)) by lia.
    rewrite !Z.pow_succ_r by lia. lia.
  - rewrite Pos2Z.inj_succ.
    replace (Z.succ (Zpos (digits2_pos m)) - 1) with (Z.succ (Zpos (digits2_pos m) - 1)) by lia.
    rewrite !Z.pow_succ_r by lia. lia.
  - cbn. lia.
Qed.

Lemma shr_1_m (r : shr_record) :
  0 <= shr_m r -> shr_m (shr_1 r) = shr_m r / 2.
Proof.
  destruct r as [m b s]; cbn [shr_m]; intros Hm.
  destruct m as [ | [p | p | ] | p]; cbn [shr_1 shr_m]; try lia.
  - reflexivity.
  - rewrite (Pos2Z.inj_xI p). apply Z.div_unique with (r := 1); lia.
  - rewrite (Pos2Z.inj_xO p). apply Z.div_unique with (r := 0); lia.
  - reflexivity.
Qed.

Lemma pow2_xO (p : positive) : 2 ^ Zpos p~0 = 2 ^ Zpos p * 2 ^ Zpos p.
Proof. rewrite <- Z.pow_add_r by lia. f_equal. lia. Qed.

Lemma pow2_xI (p : positive) : 2 ^ Zpos p~1 = 2 * (2 ^ Zpos p * 2 ^ Zpos p).
Proof.
  rewrite <- Z.pow_add_r by lia. rewrite <- Z.pow_succ_r by lia. f_equal. lia.
Qed.

Lemma pow2_pos (n : Z) : 0 <= n -> 0 < 2 ^ n.
Proof. intros. apply Z.pow_pos_nonneg; lia. Qed.

Lemma iter_shr_1_m (p : positive) : forall r,
  0 <= shr_m r -> shr_m (SpecFloat.iter_pos shr_1 p r) = shr_m r / 2 ^ Zpos p.
Proof.
  assert (Hdiv : forall a b c, 0 < b -> 0 < c -> a / b / c = a / (b * c)).
  { intros. apply Z.div_div; lia. }
  assert (Hnn : forall r, 0 <= shr_m r -> 0 <= shr_m (shr_1 r)).
  { intros r Hr. rewrite shr_1_m by exact Hr. apply Z.div_pos; lia. }
  induction p as [p IH | p IH | ]; intros r Hr; cbn [SpecFloat.iter_pos].
  - assert (Hp := pow2_pos (Zpos p) ltac:(lia)).
    assert (H1 : 0 <= shr_m (SpecFloat.iter_pos shr_1 p (shr_1 r))).
    { rewrite IH by auto. apply Z.div_pos; auto. }
    rewrite IH by exact H1. rewrite IH by auto. rewrite shr_1_m by exact Hr.
    rewrite pow2_xI, !Hdiv by nia. reflexivity.
  - assert (Hp := pow2_pos (Zpos p) ltac:(lia)).
    assert (H1 : 0 <= shr_m (SpecFloat.iter_pos shr_1 p r)).
    { rewrite IH by auto. apply Z.div_pos; auto. }
    rewrite IH by exact H1. rewrite IH by auto.
    rewrite pow2_xO, !Hdiv by nia. reflexivity.
  - rewrite shr_1_m by exact Hr. reflexivity.
Qed.

Lemma shr_record_of_loc_m (m : Z) (l : location) :
  shr_m (shr_record_of_loc m l) = m.
Proof. destruct l as [ | [ | | ]]; reflexivity. Qed.

Lemma fexp_eq (x : Z) : fexp prec emax x = Z.max (x - 53) (-1074).
Proof. reflexivity. Qed.

(** Shifting a non-negative mantissa keeps it non-negative. *)
Lemma shr_fexp_nonneg (m e : Z) (l : location) :
  0 <= m -> 0 <= shr_m (fst (shr_fexp prec emax m e l)).
Proof.
  intros Hm. unfold shr_fexp, shr.
  destruct (fexp prec emax (Zdigits2 m + e) - e) as [ | p | p]; cbn [fst];
    rewrite ?iter_shr_1_m; rewrite ?shr_record_of_loc_m; try lia.
  apply Z.div_pos; [lia | apply pow2_pos; lia].
Qed.

(** Above the least exponent, shifting a positive mantissa keeps it
    positive: no value is flushed to zero. *)
Lemma shr_fexp_pos (m e : Z) (l : location) :
  0 < m -> -1074 <= e ->
  0 < shr_m (fst (shr_fexp prec emax m e l))
  /\ -1074 <= snd (shr_fexp prec emax m e l).
Proof.
  intros Hm He. unfold shr_fexp, shr.
  destruct (fexp prec emax (Zdigits2 m + e) - e) as [ | p | p] eqn:Hn; cbn [fst snd];
    rewrite ?shr_record_of_loc_m; try lia.
  rewrite iter_shr_1_m by (rewrite shr_record_of_loc_m; lia).
  rewrite shr_record_of_loc_m. split; [ | lia].
  destruct m as [ | q | q]; try lia.
  cbn [Zdigits2] in Hn. rewrite fexp_eq in Hn.
  pose proof (digits2_pos_bounds q) as [Hlo _].
  assert (Hd : Zpos (digits2_pos q) - 1 = 52 + Zpos p) by lia.
  rewrite Hd, Z.pow_add_r in Hlo by lia.
  apply Z.lt_le_trans with (2 ^ 52); [reflexivity | ].
  apply Z.div_le_lower_bound; [apply pow2_pos; lia | lia].
Qed.

Lemma round_nearest_even_ge (m : Z) (l : location) :
  m <= round_nearest_even m l.
Proof.
  destruct l as [ | [ | | ]]; cbn; try lia. destruct (Z.even m); lia.
Qed.

(** The outcomes of rounding, by sign. *)
Definition signed_nonzero (s : bool) (x : spec_float) : Prop :=
  match x with
  | S754_finite s' _ _ | S754_infinity s' => s' = s
  | _ => False
  end.

Definition signed (s : bool) (x : spec_float) : Prop :=
  match x with
  | S754_zero s' | S754_finite s' _ _ | S754_infinity s' => s' = s
  | S754_nan => False
  end.

Lemma signed_nonzero_signed s x : signed_nonzero s x -> signed s x.
Proof. destruct x; cbn; tauto. Qed.

Lemma binary_round_aux_signed (s : bool) (m e : Z) (l : location) :
  0 <= m -> signed s (binary_round_aux prec emax s m e l).
Proof.
  intros Hm. unfold binary_round_aux.
  pose proof (shr_fexp_nonneg m e l Hm) as H1.
  destruct (shr_fexp prec emax m e l) as [r1 e1]; cbn [fst] in H1.
  pose proof (round_nearest_even_ge (shr_m r1) (loc_of_shr_record r1)) as Hr.
  pose proof (shr_fexp_nonneg (round_nearest_even (shr_m r1) (loc_of_shr_record r1)) e1 loc_Exact ltac:(lia)) as H2.
  destruct (shr_fexp prec emax _ e1 loc_Exact) as [r2 e2]; cbn [fst] in H2.
  destruct (shr_m r2) as [ | q | q]; try lia; cbn [signed signed_nonzero]; auto.
  destruct (e2 <=? emax - prec); cbn [signed signed_nonzero]; auto.
Qed.

Lemma binary_round_aux_nonzero (s : bool) (m e : Z) (l : location) :
  0 < m -> -1074 <= e -> signed_nonzero s (binary_round_aux prec emax s m e l).
Proof.
  intros Hm He. unfold binary_round_aux.
  pose proof (shr_fexp_pos m e l Hm He) as [H1 He1].
  destruct (shr_fexp prec emax m e l) as [r1 e1]; cbn [fst snd] in H1, He1.
  pose proof (round_nearest_even_ge (shr_m r1) (loc_of_shr_record r1)) as Hr.
  pose proof (shr_fexp_pos (round_nearest_even (shr_m r1) (loc_of_shr_record r1)) e1 loc_Exact ltac:(lia) He1) as [H2 _].
  destruct (shr_fexp prec emax _ e1 loc_Exact) as [r2 e2]; cbn [fst] in H2.
  destruct (shr_m r2) as [ | q | q]; try lia; cbn [signed signed_nonzero]; auto.
  destruct (e2 <=? emax - prec); cbn [signed signed_nonzero]; auto.
Qed.

Lemma shl_align_value (m : positive) (e ez : Z) :
  ez <= e ->
  Zpos (fst (shl_align m e ez)) = Zpos m * 2 ^ (e - ez)
  /\ snd (shl_align m e ez) = ez.
Proof.
  intros Hle. unfold shl_align.
  destruct (ez - e) as [ | d | d] eqn:Hd; cbn [fst snd]; try lia.
  - replace (e - ez) with 0 by lia. cbn. lia.
  - replace (e - ez) with (Zpos d) by lia.
    change (Pos.iter xO m d) with (shift_pos d m).
    rewrite shift_pos_correct. rewrite Z.pow_pos_fold. lia.
Qed.

Lemma shl_align_exp_ge (m : positive) (e e' : Z) :
  -1074 <= e -> -1074 <= e' -> -1074 <= snd (shl_align m e e').
Proof.
  intros. unfold shl_align. destruct (e' - e); cbn [snd]; lia.
Qed.

Lemma binary_round_nonzero (s : bool) (m : positive) (e : Z) :
  -1074 <= e -> signed_nonzero s (binary_round prec emax s m e).
Proof.
  intros He. unfold binary_round.
  pose proof (shl_align_exp_ge m e (fexp prec emax (Zpos (digits2_pos m) + e)) He
                ltac:(rewrite fexp_eq; lia)) as H.
  destruct (shl_align m e _) as [mz ez]; cbn [snd] in H.
  apply binary_round_aux_nonzero; lia.
Qed.

(** Rounding an integer multiple of [2^e] keeps its sign, and is zero
    only for zero. *)
Lemma binary_normalize_sign (d e : Z) :
  -1074 <= e ->
  match d with
  | Z0 => binary_normalize prec emax d e false = S754_zero false
  | Zpos _ => signed_nonzero false (binary_normalize prec emax d e false)
  | Zneg _ => signed_nonzero true (binary_normalize prec emax d e false)
  end.
Proof.
  intros He. destruct d; cbn [binary_normalize];
    [reflexivity | apply binary_round_nonzero; exact He
     | apply binary_round_nonzero; exact He].
Qed.

(** What validity of a finite binary64 value says. *)
Lemma valid_finite (s : bool) (m : positive) (e : Z) :
  valid_binary (S754_finite s m e) = true ->
  -1074 <= e /\ Zpos (digits2_pos m) <= 53
  /\ (-1074 < e -> Zpos (digits2_pos m) = 53).
Proof.
  cbn [SpecFloat.valid_binary]. unfold bounded, canonical_mantissa.
  rewrite fexp_eq. intros H.
  apply andb_true_iff in H as [H _]. apply Z.eqb_eq in H. lia.
Qed.

Lemma valid_mantissa_bounds (s : bool) (m : positive) (e : Z) :
  valid_binary (S754_finite s m e) = true ->
  -1074 <= e /\ Zpos m < 2 ^ 53 /\ (-1074 < e -> 2 ^ 52 <= Zpos m).
Proof.
  intros H. apply valid_finite in H as (He & Hd & Hn).
  pose proof (digits2_pos_bounds m) as [Hlo Hhi].
  split; [exact He | split].
  - apply Z.lt_le_trans with (1 := Hhi). apply Z.pow_le_mono_r; lia.
  - intros Hgt. rewrite (Hn Hgt) in Hlo. exact Hlo.
Qed.

(** *** The order of binary64 values

    [key] embeds the non-NaN values into triples of integers ordered
    lexicographically; [SFcompare] is the comparison of keys. *)
Definition key (x : spec_float) : Z * Z * Z :=
  match x with
  | S754_zero _ => (0, 0, 0)
  | S754_infinity false => (2, 0, 0)
  | S754_infinity true => (-2, 0, 0)
  | S754_nan => (0, 0, 0)
  | S754_finite false m e => (1, e, Zpos m)
  | S754_finite true m e => (-1, - e, - Zpos m)
  end.

Definition lexlt (a b : Z * Z * Z) : Prop :=
  let '(a1, a2, a3) := a in
  let '(b1, b2, b3) := b in
  a1 < b1 \/ (a1 = b1 /\ (a2 < b2 \/ (a2 = b2 /\ a3 < b3))).

Definition is_nan_sf (x : spec_float) : bool :=
  match x with S754_nan => true | _ => false end.

Lemma SFltb_nan_l (b : spec_float) : SFltb S754_nan b = false.
Proof. reflexivity. Qed.

Lemma SFltb_nan_r (a : spec_float) : SFltb a S754_nan = false.
Proof. destruct a; reflexivity. Qed.

Ltac cmp_finish :=
  split; [ intros ?H; first [discriminate | lia]
         | intros ?H; first [reflexivity | lia] ].

Lemma SFltb_key (a b : spec_float) :
  is_nan_sf a = false -> is_nan_sf b = false ->
  (SFltb a b = true <-> lexlt (key a) (key b)).
Proof.
  intros Ha Hb.
  destruct a as [sa | sa | | sa ma ea]; try discriminate Ha;
  destruct b as [sb | sb | | sb mb eb]; try discriminate Hb;
  unfold SFltb, SFcompare, key, lexlt;
  try (destruct sa); try (destruct sb); try cmp_finish;
  change (PosDef.Pos.compare_cont Eq ma mb) with (Pos.compare ma mb);
  (destruct (Z.compare_spec ea eb); [ | cmp_finish | cmp_finish]);
  destruct (Pos.compare_spec ma mb); cbn [CompOpp]; cmp_finish.
Qed.

Lemma SFleb_key (a b : spec_float) :
  is_nan_sf a = false -> is_nan_sf b = false ->
  (SFleb a b = true <-> ~ lexlt (key b) (key a)).
Proof.
  intros Ha Hb.
  destruct a as [sa | sa | | sa ma ea]; try discriminate Ha;
  destruct b as [sb | sb | | sb mb eb]; try discriminate Hb;
  unfold SFleb, SFcompare, key, lexlt;
  try (destruct sa); try (destruct sb); try cmp_finish;
  change (PosDef.Pos.compare_cont Eq ma mb) with (Pos.compare ma mb);
  (destruct (Z.compare_spec ea eb); [ | cmp_finish | cmp_finish]);
  destruct (Pos.compare_spec ma mb); cbn [CompOpp]; cmp_finish.
Qed.

Lemma aligned_lt (mx my : positive) (ex ey : Z) (sx sy : bool) :
  valid_binary (S754_finite sx mx ex) = true ->
  valid_binary (S754_finite sy my ey) = true ->
  (Zpos mx * 2 ^ (ex - Z.min ex ey) < Zpos my * 2 ^ (ey - Z.min ex ey)
   <-> ex < ey \/ (ex = ey /\ Zpos mx < Zpos my)).
Proof.
  intros Hx Hy.
  apply valid_mantissa_bounds in Hx as (Hex & Hmx & Hnx).
  apply valid_mantissa_bounds in Hy as (Hey & Hmy & Hny).
  assert (Hpow : forall n, 1 <= n -> 2 <= 2 ^ n).
  { intros n Hn. change 2 with (2 ^ 1) at 1. apply Z.pow_le_mono_r; lia. }
  change (2 ^ 53) with 9007199254740992 in *.
  change (2 ^ 52) with 4503599627370496 in *.
  destruct (Z.lt_trichotomy ex ey) as [Hlt | [Heq | Hgt]].
  - rewrite Z.min_l by lia. replace (ex - ex) with 0 by lia.
    specialize (Hpow (ey - ex) ltac:(lia)). specialize (Hny ltac:(lia)).
    change (2 ^ 0) with 1. split; [lia | nia].
  - subst ey. rewrite Z.min_id. replace (ex - ex) with 0 by lia.
    change (2 ^ 0) with 1. lia.
  - rewrite Z.min_r by lia. replace (ey - ey) with 0 by lia.
    specialize (Hpow (ex - ey) ltac:(lia)). specialize (Hnx ltac:(lia)).
    change (2 ^ 0) with 1. split; [nia | lia].
Qed.

Lemma SFltb_zero_l (x : spec_float) :
  SFltb (S754_zero false) x = true <-> signed_nonzero false x.
Proof.
  destruct x as [s | [ | ] | | [ | ] m e]; cbn; split; intros H;
    try reflexivity; try discriminate; try contradiction.
Qed.

Lemma signed_nonzero_inj (s s' : bool) (x : spec_float) :
  signed_nonzero s x -> signed_nonzero s' x -> s = s'.
Proof. destruct x; cbn; intros; try contradiction; congruence. Qed.

(** The sign of a difference is the comparison of its operands: with
    gradual underflow no difference of distinct values rounds to zero. *)
Lemma SFsub_pos (x y : spec_float) :
  valid_binary x = true -> valid_binary y = true ->
  (signed_nonzero false (SFsub prec emax x y) <-> SFltb y x = true).
Proof.
  intros Vx Vy.
  destruct x as [sx | sx | | sx mx ex]; destruct y as [sy | sy | | sy my ey];
    try (solve [ try (destruct sx); try (destruct sy); cbn;
                 split; intros H;
                 first [reflexivity | discriminate | contradiction | congruence] ]).
  rewrite SFltb_key by reflexivity.
  pose proof (valid_finite _ _ _ Vx) as (Hex & _).
  pose proof (valid_finite _ _ _ Vy) as (Hey & _).
  pose proof (shl_align_value mx ex (Z.min ex ey) ltac:(lia)) as [Hx' _].
  pose proof (shl_align_value my ey (Z.min ex ey) ltac:(lia)) as [Hy' _].
  pose proof (aligned_lt mx my ex ey _ _ Vx Vy) as Hlt.
  pose proof (aligned_lt my mx ey ex _ _ Vy Vx) as Hgt.
  rewrite (Z.min_comm ey ex) in Hgt.
  cbn [SFsub].
  pose proof (binary_normalize_sign
         (cond_Zopp sx (Zpos (fst (shl_align mx ex (Z.min ex ey))))
          - cond_Zopp sy (Zpos (fst (shl_align my ey (Z.min ex ey)))))
         (Z.min ex ey) ltac:(lia)) as Hn.
  rewrite Hx', Hy' in *.
  assert (Hpx : 0 < Zpos mx * 2 ^ (ex - Z.min ex ey)).
  { apply Z.mul_pos_pos; [lia | apply pow2_pos; lia]. }
  assert (Hpy : 0 < Zpos my * 2 ^ (ey - Z.min ex ey)).
  { apply Z.mul_pos_pos; [lia | apply pow2_pos; lia]. }
  unfold key, lexlt.
  destruct (cond_Zopp sx (Zpos mx * 2 ^ (ex - Z.min ex ey))
            - cond_Zopp sy (Zpos my * 2 ^ (ey - Z.min ex ey))) eqn:Hd;
    [ rewrite Hn; cbn [signed_nonzero]
    | split; [intros _ | intros _; exact Hn]
    | split; [intros H; pose proof (signed_nonzero_inj _ _ _ H Hn); discriminate | intros H] ];
    destruct sx, sy; cbn [cond_Zopp] in Hd; lia.
Qed.

(** *** Facts on primitive floats *)

Local Open Scope float_scope.

Lemma Prim2SF_zero : Prim2SF 0 = S754_zero false.
Proof. reflexivity. Qed.

Lemma mul_comm (x y : float) : x * y = y * x.
Proof.
  apply Prim2SF_inj. rewrite !FloatAxioms.mul_spec. unfold SF64mul.
  destruct (Prim2SF x) as [sx | sx | | sx mx ex];
    destruct (Prim2SF y) as [sy | sy | | sy my ey]; cbn [SFmul];
    rewrite ?(xorb_comm sy sx); try reflexivity.
  rewrite (Pos.mul_comm my mx), (Z.add_comm ey ex). reflexivity.
Qed.

Lemma is_nan_spec (x : float) : PrimFloat.is_nan x = is_nan_sf (Prim2SF x).
Proof.
  unfold PrimFloat.is_nan. rewrite FloatAxioms.eqb_spec. unfold SFeqb, SFcompare.
  destruct (Prim2SF x) as [s | [ | ] | | [ | ] m e]; cbn [is_nan_sf negb]; try reflexivity;
    rewrite Z.compare_refl;
    change (PosDef.Pos.compare_cont Eq m m) with (Pos.compare m m);
    rewrite Pos.compare_refl; reflexivity.
Qed.

Lemma ltb_nan_l (x y : float) : PrimFloat.is_nan x = true -> (x <? y) = false.
Proof.
  rewrite is_nan_spec, FloatAxioms.ltb_spec. destruct (Prim2SF x); try discriminate. reflexivity.
Qed.

Lemma ltb_nan_r (x y : float) : PrimFloat.is_nan y = true -> (x <? y) = false.
Proof.
  rewrite is_nan_spec, FloatAxioms.ltb_spec. destruct (Prim2SF y); try discriminate.
  intros _. apply SFltb_nan_r.
Qed.

Lemma ltb_true_not_nan (x y : float) :
  (x <? y) = true -> PrimFloat.is_nan x = false /\ PrimFloat.is_nan y = false.
Proof.
  intros H. split.
  - destruct (PrimFloat.is_nan x) eqn:E; [ | reflexivity].
    rewrite (ltb_nan_l x y E) in H. discriminate.
  - destruct (PrimFloat.is_nan y) eqn:E; [ | reflexivity].
    rewrite (ltb_nan_r x y E) in H. discriminate.
Qed.

Lemma ltb_lexlt (x y : float) :
  PrimFloat.is_nan x = false -> PrimFloat.is_nan y = false ->
  ((x <? y) = true <-> lexlt (key (Prim2SF x)) (key (Prim2SF y))).
Proof.
  rewrite !is_nan_spec, FloatAxioms.ltb_spec. apply SFltb_key.
Qed.

Ltac lex_lia :=
  unfold lexlt in *;
  repeat match goal with
         | |- context [key ?x] => destruct (key x) as [[? ?] ?]
         | H : context [key ?x] |- _ => destruct (key x) as [[? ?] ?]
         end; lia.

Lemma ltb_asym (x y : float) : (x <? y) = true -> (y <? x) = false.
Proof.
  intros H. destruct (ltb_true_not_nan _ _ H) as [Nx Ny].
  destruct (y <? x) eqn:E; [ | reflexivity].
  apply (ltb_lexlt x y Nx Ny) in H. apply (ltb_lexlt y x Ny Nx) in E. lex_lia.
Qed.

Lemma ltb_trans (x y z : float) :
  (x <? y) = true -> (y <? z) = true -> (x <? z) = true.
Proof.
  intros H1 H2.
  destruct (ltb_true_not_nan _ _ H1) as [Nx Ny].
  destruct (ltb_true_not_nan _ _ H2) as [_ Nz].
  apply (ltb_lexlt x y Nx Ny) in H1. apply (ltb_lexlt y z Ny Nz) in H2.
  apply (ltb_lexlt x z Nx Nz). lex_lia.
Qed.

(** A value that is a number lies on one side of any strict gap. *)
Lemma ltb_cotrans (x y z : float) :
  PrimFloat.is_nan y = false ->
  (x <? z) = true -> (x <? y) = true \/ (y <? z) = true.
Proof.
  intros Ny H. destruct (ltb_true_not_nan _ _ H) as [Nx Nz].
  apply (ltb_lexlt x z Nx Nz) in H.
  rewrite (ltb_lexlt x y Nx Ny), (ltb_lexlt y z Ny Nz). lex_lia.
Qed.

Lemma leb_lexle (x y : float) :
  PrimFloat.is_nan x = false -> PrimFloat.is_nan y = false ->
  ((x <=? y) = true <-> ~ lexlt (key (Prim2SF y)) (key (Prim2SF x))).
Proof.
  rewrite !is_nan_spec, FloatAxioms.leb_spec. apply SFleb_key.
Qed.

(** On numbers the order is total: [x <= y] exactly when not [y < x]. *)
Lemma leb_not_ltb (x y : float) :
  PrimFloat.is_nan x = false -> PrimFloat.is_nan y = false ->
  (x <=? y) = negb (y <? x).
Proof.
  intros Nx Ny.
  pose proof (leb_lexle x y Nx Ny) as H1. pose proof (ltb_lexlt y x Ny Nx) as H2.
  destruct (x <=? y), (y <? x); cbn [negb]; try reflexivity; exfalso; intuition congruence.
Qed.

Lemma leb_trans (x y z : float) :
  (x <=? y) = true -> (y <=? z) = true -> (x <=? z) = true.
Proof.
  intros H1 H2.
  assert (N : forall a b, (a <=? b) = true ->
                          PrimFloat.is_nan a = false /\ PrimFloat.is_nan b = false).
  { intros a b H. rewrite !is_nan_spec. rewrite FloatAxioms.leb_spec in H.
    destruct (Prim2SF a), (Prim2SF b); cbn in H |- *; try discriminate H; auto. }
  destruct (N _ _ H1) as [Nx Ny]. destruct (N _ _ H2) as [_ Nz].
  apply (leb_lexle x y Nx Ny) in H1. apply (leb_lexle y z Ny Nz) in H2.
  apply (leb_lexle x z Nx Nz). lex_lia.
Qed.

(** The comparator idiom [b - a > 0] decides [a < b]. *)
Lemma sub_pos_ltb (x y : float) : (0 <? x - y) = (y <? x).
Proof.
  rewrite (FloatAxioms.ltb_spec 0), (FloatAxioms.ltb_spec y x), FloatAxioms.sub_spec, Prim2SF_zero.
  pose proof (SFltb_zero_l (SF64sub (Prim2SF x) (Prim2SF y))) as H1.
  pose proof (SFsub_pos (Prim2SF x) (Prim2SF y) (Prim2SF_valid x) (Prim2SF_valid y)) as H2.
  unfold SF64sub in *.
  destruct (SFltb (S754_zero false) _), (SFltb (Prim2SF y) (Prim2SF x));
    try reflexivity; intuition congruence.
Qed.

(** *** Addition and the sign of zero *)

Lemma Prim2SF_neg_zero : Prim2SF neg_zero = S754_zero true.
Proof. reflexivity. Qed.

Lemma not_neg_zero_spec (x : float) :
  x <> neg_zero <-> Prim2SF x <> S754_zero true.
Proof.
  split; intros H E; apply H.
  - apply Prim2SF_inj. rewrite E. reflexivity.
  - rewrite E. reflexivity.
Qed.

Lemma add_zero_r (x : float) : x <> neg_zero -> x + 0 = x.
Proof.
  rewrite not_neg_zero_spec. intros H.
  apply Prim2SF_inj. rewrite FloatAxioms.add_spec, Prim2SF_zero. unfold SF64add.
  destruct (Prim2SF x) as [[ | ] | s | | s m e]; cbn [SFadd]; try reflexivity.
  contradiction H; reflexivity.
Qed.

Lemma add_not_neg_zero (x y : float) : x <> neg_zero -> x + y <> neg_zero.
Proof.
  rewrite !not_neg_zero_spec. intros H. rewrite FloatAxioms.add_spec. unfold SF64add.
  pose proof (Prim2SF_valid x) as Vx. pose proof (Prim2SF_valid y) as Vy.
  destruct (Prim2SF x) as [[ | ] | sx | | sx mx ex];
    destruct (Prim2SF y) as [[ | ] | sy | | sy my ey]; cbn [SFadd];
    try discriminate; try (contradiction H; reflexivity);
    try (destruct sx, sy; discriminate).
  pose proof (valid_finite _ _ _ Vx) as (Hex & _).
  pose proof (valid_finite _ _ _ Vy) as (Hey & _).
  pose proof (binary_normalize_sign
         (cond_Zopp sx (Zpos (fst (shl_align mx ex (Z.min ex ey))))
          + cond_Zopp sy (Zpos (fst (shl_align my ey (Z.min ex ey)))))
         (Z.min ex ey) ltac:(lia)) as Hn.
  destruct (cond_Zopp sx _ + cond_Zopp sy _)%Z.
  - rewrite Hn. discriminate.
  - intros E. rewrite E in Hn. exact Hn.
  - intros E. rewrite E in Hn. exact Hn.
Qed.

(** *** Sums of squares *)

(** Sign bit clear and not NaN: [+0], a positive number or [+infinity]. *)
Definition nonneg (x : float) : Prop := signed false (Prim2SF x).

Definition is_zero_sf (x : spec_float) : bool :=
  match x with S754_zero _ => true | _ => false end.

Lemma eqb_zero_spec (x : float) : (x =? 0) = is_zero_sf (Prim2SF x).
Proof.
  rewrite FloatAxioms.eqb_spec, Prim2SF_zero.
  destruct (Prim2SF x) as [s | [ | ] | | [ | ] m e]; reflexivity.
Qed.

Lemma nonneg_zero : nonneg 0.
Proof. reflexivity. Qed.

Lemma nonneg_not_neg_zero (x : float) : nonneg x -> x <> neg_zero.
Proof.
  unfold nonneg. rewrite not_neg_zero_spec. intros H E. rewrite E in H. discriminate H.
Qed.

Lemma nonneg_sq (x : float) : PrimFloat.is_nan x = false -> nonneg (x * x).
Proof.
  rewrite is_nan_spec. unfold nonneg. rewrite FloatAxioms.mul_spec. unfold SF64mul.
  destruct (Prim2SF x) as [s | s | | s m e]; cbn [SFmul is_nan_sf]; try discriminate;
    intros _; rewrite xorb_nilpotent; cbn [signed]; try reflexivity.
  apply binary_round_aux_signed. lia.
Qed.

(** A sum of two non-negative values is non-negative, and is zero
    only when both are. *)
Lemma nonneg_add (x y : float) :
  nonneg x -> nonneg y ->
  nonneg (x + y) /\ (x + y =? 0) = (x =? 0) && (y =? 0).
Proof.
  unfold nonneg. rewrite !eqb_zero_spec, FloatAxioms.add_spec. unfold SF64add.
  pose proof (Prim2SF_valid x) as Vx. pose proof (Prim2SF_valid y) as Vy.
  destruct (Prim2SF x) as [sx | sx | | sx mx ex];
    destruct (Prim2SF y) as [sy | sy | | sy my ey]; cbn [signed];
    intros Hx Hy; try contradiction; subst sx sy; cbn [SFadd signed is_zero_sf andb];
    try (split; reflexivity).
  pose proof (valid_finite _ _ _ Vx) as (Hex & _).
  pose proof (valid_finite _ _ _ Vy) as (Hey & _).
  pose proof (binary_normalize_sign
         (cond_Zopp false (Zpos (fst (shl_align mx ex (Z.min ex ey))))
          + cond_Zopp false (Zpos (fst (shl_align my ey (Z.min ex ey)))))
         (Z.min ex ey) ltac:(lia)) as Hn.
  cbn [cond_Zopp] in *.
  destruct (Zpos (fst (shl_align mx ex (Z.min ex ey)))
            + Zpos (fst (shl_align my ey (Z.min ex ey))))%Z eqn:Hd; try lia.
  destruct (binary_normalize prec emax (Zpos p) (Z.min ex ey) false);
    cbn [signed_nonzero] in Hn; try contradiction; subst; split; reflexivity.
Qed.

End FloatFacts.

(* ================================================================== *)
(** * Part III: the Vectorizer                                         *)
(* ================================================================== *)

Module VectorFacts.

Lemma mem_In (k : string) (s : list string) : mem k s = true <-> In k s.
Proof.
  unfold mem. rewrite existsb_exists. split.
  - intros (x & Hx & E). apply String.eqb_eq in E. subst. exact Hx.
  - intros H. exists k. split; [exact H | apply String.eqb_refl].
Qed.

Lemma mem_not_In (k : string) (s : list string) : mem k s = false <-> ~ In k s.
Proof.
  rewrite <- mem_In. destruct (mem k s); split; congruence.
Qed.

Lemma vec_get_None (v : VectorMap) (k : string) :
  vec_get v k = None <-> ~ In k (object_keys v).
Proof.
  induction v as [ | [k' x] r IH]; cbn; [tauto | ].
  destruct (String.eqb_spec k' k); [split; [discriminate | tauto] | ].
  rewrite IH. tauto.
Qed.

Lemma vec_get_app (v1 v2 : VectorMap) (k : string) :
  vec_get (v1 ++ v2) k =
  match vec_get v1 k with Some x => Some x | None => vec_get v2 k end.
Proof.
  induction v1 as [ | [k' x] r IH]; cbn; [reflexivity | ].
  destruct (String.eqb k' k); [reflexivity | exact IH].
Qed.

Lemma vec_get_In (v : VectorMap) (k : string) (x : Js.number) :
  NoDup (object_keys v) -> In (k, x) v -> vec_get v k = Some x.
Proof.
  induction v as [ | [k' y] r IH]; cbn; intros ND Hin; [contradiction | ].
  inversion ND as [ | ? ? Hnot ND']; subst.
  destruct Hin as [E | Hin].
  - inversion E; subst. rewrite String.eqb_refl. reflexivity.
  - destruct (String.eqb_spec k' k) as [-> | _]; [ | auto].
    exfalso. apply Hnot. apply (in_map fst) in Hin. exact Hin.
Qed.

Lemma vec_get_Some_In (v : VectorMap) (k : string) (x : Js.number) :
  vec_get v k = Some x -> In (k, x) v.
Proof.
  induction v as [ | [k' y] r IH]; cbn; [discriminate | ].
  destruct (String.eqb_spec k' k) as [-> | _].
  - intros E; inversion E; subst. left; reflexivity.
  - intros H. right. auto.
Qed.

Lemma vec_set_fresh (v : VectorMap) (k : string) (x : Js.number) :
  ~ In k (object_keys v) -> vec_set v k x = v ++ [(k, x)].
Proof.
  induction v as [ | [k' y] r IH]; cbn; intros H; [reflexivity | ].
  destruct (String.eqb_spec k' k) as [-> | _]; [tauto | ].
  rewrite IH by tauto. reflexivity.
Qed.

Lemma vec_set_app_r (v0 v1 : VectorMap) (k : string) (x : Js.number) :
  ~ In k (object_keys v0) -> vec_set (v0 ++ v1) k x = v0 ++ vec_set v1 k x.
Proof.
  induction v0 as [ | [k' y] r IH]; cbn; intros H; [reflexivity | ].
  destruct (String.eqb_spec k' k) as [-> | _]; [tauto | ].
  rewrite IH by tauto. reflexivity.
Qed.

(** Writing the value a key already holds changes nothing. *)
Lemma vec_set_same (v : VectorMap) (k : string) (x : Js.number) :
  vec_get v k = Some x -> vec_set v k x = v.
Proof.
  induction v as [ | [k' y] r IH]; cbn; [discriminate | ].
  destruct (String.eqb_spec k' k) as [-> | _].
  - intros E; inversion E; reflexivity.
  - intros H. rewrite IH by exact H. reflexivity.
Qed.

(** *** [new Set] *)

Lemma Set_add_In (s : list string) (k x : string) :
  In x (Set_add s k) <-> In x s \/ x = k.
Proof.
  unfold Set_add. destruct (mem k s) eqn:E.
  - apply mem_In in E. split; [tauto | intros [H | ->]; assumption].
  - rewrite in_app_iff. cbn. intuition auto.
Qed.

Lemma fold_Set_add_In (l s : list string) (x : string) :
  In x (fold_left Set_add l s) <-> In x s \/ In x l.
Proof.
  revert s. induction l as [ | k l IH]; intros s; cbn; [tauto | ].
  rewrite IH, Set_add_In. intuition auto.
Qed.

Lemma new_Set_In (l : list string) (x : string) : In x (new_Set l) <-> In x l.
Proof. unfold new_Set. rewrite fold_Set_add_In. cbn. tauto. Qed.

Lemma Set_add_NoDup (s : list string) (k : string) :
  NoDup s -> NoDup (Set_add s k).
Proof.
  unfold Set_add. destruct (mem k s) eqn:E; [auto | ].
  intros ND. apply mem_not_In in E.
  apply NoDup_app; [exact ND | constructor; [intros [] | constructor] | ].
  intros x Hx [<- | []]. exact (E Hx).
Qed.

Lemma fold_Set_add_NoDup (l s : list string) :
  NoDup s -> NoDup (fold_left Set_add l s).
Proof.
  revert s. induction l as [ | k l IH]; intros s ND; cbn; [exact ND | ].
  apply IH, Set_add_NoDup, ND.
Qed.

Lemma new_Set_NoDup (l : list string) : NoDup (new_Set l).
Proof. apply fold_Set_add_NoDup. constructor. Qed.

(** The set keeps the elements it already holds in front. *)
Lemma fold_Set_add_prefix (l s : list string) :
  exists t, fold_left Set_add l s = s ++ t.
Proof.
  revert s. induction l as [ | k l IH]; intros s; cbn.
  - exists []. symmetry. apply app_nil_r.
  - unfold Set_add at 2. destruct (mem k s); [apply IH | ].
    destruct (IH (s ++ [k])) as [t Ht]. exists (k :: t).
    rewrite Ht, <- app_assoc. reflexivity.
Qed.

Lemma new_Set_NoDup_id (l : list string) : NoDup l -> new_Set l = l.
Proof.
  unfold new_Set. intros ND.
  enough (H : forall s, NoDup (s ++ l) -> fold_left Set_add l s = s ++ l)
    by (apply (H []); exact ND).
  clear ND. induction l as [ | k l IH]; intros s ND; cbn.
  - symmetry. apply app_nil_r.
  - unfold Set_add. replace (mem k s) with false.
    + rewrite IH; rewrite <- app_assoc; [reflexivity | exact ND].
    + symmetry. apply mem_not_In. intros Hin.
      apply NoDup_remove_2 in ND. apply ND. apply in_or_app. left. exact Hin.
Qed.

(** *** Folding [vec_set] over entries *)

Section FoldVecSet.
Variable f : string -> string.
Hypothesis f_inj : forall a b, f a = f b -> a = b.

Lemma fold_vec_set_entries (entries : list (string * Js.number)) :
  forall v0,
    NoDup (map fst entries) ->
    (forall e, In e entries -> ~ In (f (fst e)) (object_keys v0)) ->
    fold_left (fun vec e => vec_set vec (f (fst e)) (snd e)) entries v0
    = v0 ++ map (fun e => (f (fst e), snd e)) entries.
Proof.
  induction entries as [ | [n x] r IH]; intros v0 ND Hfresh; cbn [fold_left map].
  - symmetry. apply app_nil_r.
  - inversion ND as [ | ? ? Hn ND']; subst.
    rewrite vec_set_fresh by (apply (Hfresh (n, x)); left; reflexivity).
    rewrite IH; [rewrite <- app_assoc; reflexivity | exact ND' | ].
    intros e He. unfold object_keys. rewrite map_app, in_app_iff. cbn.
    intros [H | [H | []]].
    + apply (Hfresh e); [right; exact He | exact H].
    + apply f_inj in H. cbn in H. subst n. apply Hn. apply in_map. exact He.
Qed.

Let entries_of (c : Js.number) (s : list string) : VectorMap :=
  map (fun i => (f i, c)) s.

Lemma entries_of_get (c : Js.number) (s : list string) (i : string) :
  In i s -> vec_get (entries_of c s) (f i) = Some c.
Proof.
  induction s as [ | j s IH]; cbn; [contradiction | ].
  destruct (String.eqb_spec (f j) (f i)); [reflexivity | ].
  intros [-> | H]; [congruence | auto].
Qed.

Lemma entries_of_keys (c : Js.number) (s : list string) (i : string) :
  ~ In i s -> ~ In (f i) (object_keys (entries_of c s)).
Proof.
  unfold object_keys, entries_of. rewrite map_map. cbn.
  intros H Hin. apply in_map_iff in Hin as (j & E & Hj).
  apply f_inj in E. subst. exact (H Hj).
Qed.

Lemma fold_vec_set_const (c : Js.number) (l : list string) :
  forall s v0,
    (forall i, ~ In (f i) (object_keys v0)) ->
    fold_left (fun vec i => vec_set vec (f i) c) l (v0 ++ entries_of c s)
    = v0 ++ entries_of c (fold_left Set_add l s).
Proof.
  induction l as [ | i l IH]; intros s v0 Hfresh; cbn [fold_left]; [reflexivity | ].
  rewrite vec_set_app_r by apply Hfresh.
  unfold Set_add at 2. destruct (mem i s) eqn:E.
  - apply mem_In in E.
    rewrite vec_set_same by (apply entries_of_get; exact E).
    apply IH, Hfresh.
  - apply mem_not_In in E.
    rewrite vec_set_fresh by (apply entries_of_keys; exact E).
    replace (entries_of c s ++ [(f i, c)]) with (entries_of c (s ++ [i]))
      by (unfold entries_of; rewrite map_app; reflexivity).
    apply IH, Hfresh.
Qed.
End FoldVecSet.

Local Open Scope string_scope.

Lemma append_inj_r (p a b : string) : p ++ a = p ++ b -> a = b.
Proof.
  induction p as [ | c p IH]; cbn; [auto | ].
  intros H. inversion H. auto.
Qed.

Definition personality_entry (e : string * Js.number) : string * Js.number :=
  ("personality_" ++ fst e, snd e).
Definition interest_entry (i : string) : string * Js.number :=
  ("interest_" ++ i, 1%float).
Definition value_entry (w : string) : string * Js.number :=
  ("value_" ++ w, 1%float).

(** The vector in closed form: the personality entries in order, then
    the distinct interests, then the distinct values. *)
Lemma traitsToVector_eq (t : UserTraits) :
  NoDup (map fst (personalityTraits t)) ->
  traitsToVector t
  = (map personality_entry (personalityTraits t)
     ++ map interest_entry (new_Set (interests t))
     ++ map value_entry (new_Set (values t)))%list.
Proof.
  intros ND. unfold traitsToVector.
  rewrite (fold_vec_set_entries (String.append "personality_")
             (append_inj_r "personality_") _ [] ND)
    by (intros e _ []).
  cbn [app].
  change (map _ (personalityTraits t))
    with (map personality_entry (personalityTraits t)).
  pose proof (fold_vec_set_const (String.append "interest_")
                (append_inj_r "interest_") 1%float (interests t) []
                (map personality_entry (personalityTraits t))) as H2.
  cbn [map] in H2. rewrite app_nil_r in H2. rewrite H2; clear H2.
  2:{ intros i Hin. unfold object_keys in Hin. rewrite map_map in Hin.
      apply in_map_iff in Hin as (e & E & _). cbn in E. discriminate E. }
  pose proof (fold_vec_set_const (String.append "value_")
                (append_inj_r "value_") 1%float (values t) []
                (map personality_entry (personalityTraits t)
                 ++ map interest_entry (new_Set (interests t)))%list) as H3.
  cbn [map] in H3. rewrite app_nil_r in H3.
  change (map _ (fold_left Set_add (interests t) []))
    with (map interest_entry (new_Set (interests t))).
  rewrite H3; clear H3.
  2:{ intros w Hin. unfold object_keys in Hin. rewrite map_app, !map_map, in_app_iff in Hin.
      destruct Hin as [Hin | Hin]; apply in_map_iff in Hin as (e & E & _);
        cbn in E; discriminate E. }
  rewrite <- app_assoc. reflexivity.
Qed.

End VectorFacts.

Module Vectorizer.
Import VectorFacts.

Lemma NoDup_map_inj {A B} (f : A -> B) (l : list A) :
  (forall a b, f a = f b -> a = b) -> NoDup l -> NoDup (map f l).
Proof.
  intros Hinj. induction 1 as [ | a l Hn ND IH]; cbn; constructor; [ | exact IH].
  intros Hin. apply in_map_iff in Hin as (b & E & Hb).
  apply Hinj in E. subst. exact (Hn Hb).
Qed.

Lemma keys_closed_form (t : UserTraits) :
  object_keys (map personality_entry (personalityTraits t)
               ++ map interest_entry (new_Set (interests t))
               ++ map value_entry (new_Set (values t)))
  = map (String.append "personality_") (map fst (personalityTraits t))
    ++ map (String.append "interest_") (new_Set (interests t))
    ++ map (String.append "value_") (new_Set (values t)).
Proof.
  unfold object_keys. rewrite !map_app, !map_map. reflexivity.
Qed.

Lemma keys_NoDup (t : UserTraits) :
  NoDup (map fst (personalityTraits t)) ->
  NoDup (object_keys (traitsToVector t)).
Proof.
  intros ND. rewrite traitsToVector_eq by exact ND. rewrite keys_closed_form.
  apply NoDup_app; [ | apply NoDup_app | ].
  - apply NoDup_map_inj; [apply append_inj_r | exact ND].
  - apply NoDup_map_inj; [apply append_inj_r | apply new_Set_NoDup].
  - apply NoDup_map_inj; [apply append_inj_r | apply new_Set_NoDup].
  - intros k H1 H2. apply in_map_iff in H1 as (a & <- & _).
    apply in_map_iff in H2 as (b & E & _). discriminate E.
  - intros k H1 H2. apply in_map_iff in H1 as (a & <- & _).
    apply in_app_iff in H2 as [H2 | H2];
      apply in_map_iff in H2 as (b & E & _); discriminate E.
Qed.

End Vectorizer.

(** C6 (as amended): for every Trait Profile whose personality traits
    are keyed by distinct names, [traitsToVector] is exactly the vector
    with ["personality_" + name -> intensity], ["interest_" + keyword ->
    1.0] and ["value_" + keyword -> 1.0], each key once; the empty
    profile yields the empty vector. *)
Theorem traitsToVector_spec (t : UserTraits)
    (Hwf : NoDup (map fst (personalityTraits t))) :
  vectorize_spec "_" t (traitsToVector t)
  /\ traitsToVector (mkTraits [] [] []) = [].
Proof.
  split; [ | reflexivity].
  pose proof (Vectorizer.keys_NoDup t Hwf) as ND.
  unfold vectorize_spec. cbn [String.append].
  repeat split; [ | | | | exact ND].
  - intros n x Hin. apply VectorFacts.vec_get_In; [exact ND | ].
    rewrite VectorFacts.traitsToVector_eq by exact Hwf.
    apply in_or_app. left.
    apply (in_map VectorFacts.personality_entry) in Hin. exact Hin.
  - intros i Hin. apply VectorFacts.vec_get_In; [exact ND | ].
    rewrite VectorFacts.traitsToVector_eq by exact Hwf.
    apply in_or_app. right. apply in_or_app. left.
    apply (in_map VectorFacts.interest_entry), VectorFacts.new_Set_In. exact Hin.
  - intros w Hin. apply VectorFacts.vec_get_In; [exact ND | ].
    rewrite VectorFacts.traitsToVector_eq by exact Hwf.
    apply in_or_app. right. apply in_or_app. right.
    apply (in_map VectorFacts.value_entry), VectorFacts.new_Set_In. exact Hin.
  - intros k Hin.
    rewrite VectorFacts.traitsToVector_eq, Vectorizer.keys_closed_form in Hin by exact Hwf.
    apply in_app_iff in Hin as [Hin | Hin]; [ | apply in_app_iff in Hin as [Hin | Hin]].
    + left. apply in_map_iff in Hin as (n & <- & Hn).
      apply in_map_iff in Hn as ([n' x] & <- & Hn). exists n', x. split; [exact Hn | reflexivity].
    + right; left. apply in_map_iff in Hin as (i & <- & Hi).
      apply (proj1 (VectorFacts.new_Set_In _ _)) in Hi. exists i. split; [exact Hi | reflexivity].
    + right; right. apply in_map_iff in Hin as (w & <- & Hw).
      apply (proj1 (VectorFacts.new_Set_In _ _)) in Hw. exists w. split; [exact Hw | reflexivity].
Qed.

Lemma traitsToVector_spec_witness :
  vectorize_spec "_" profile_xxx (traitsToVector profile_xxx)
  /\ traitsToVector (mkTraits [] [] []) = [].
Proof.
  apply (traitsToVector_spec profile_xxx).
  cbn. constructor; [intros [] | constructor].
Defined.

(** The keys are joined with an underscore, not a colon: the profile
    [{personalityTraits: {x: 1}, interests: ["x", "x"], values: ["x"]}]
    vectorizes to [personality_x], [interest_x], [value_x], and has no
    entry for ["personality:x"]. *)
Lemma traitsToVector_colon_counterexample :
  traitsToVector profile_xxx
  = [("personality_x"%string, 1%float); ("interest_x"%string, 1%float);
     ("value_x"%string, 1%float)]
  /\ ~ vectorize_spec ":" profile_xxx (traitsToVector profile_xxx).
Proof.
  split; [reflexivity | ].
  intros (H & _). specialize (H "x"%string 1%float (or_introl eq_refl)).
  cbn in H. discriminate H.
Qed.

(* ================================================================== *)
(** * Part IV: the Similarity Engine                                   *)
(* ================================================================== *)

Module Similarity.
Import FloatFacts VectorFacts.
Local Open Scope float_scope.

Lemma or_zero_not_nan (o : option Js.number) :
  PrimFloat.is_nan (Js.or_zero o) = false.
Proof.
  destruct o as [x | ]; cbn [Js.or_zero]; [ | reflexivity].
  unfold Js.truthy. destruct (PrimFloat.is_nan x) eqn:E; [ | destruct (negb _); auto].
  rewrite orb_true_r. reflexivity.
Qed.

Lemma or_zero_zero (x : Js.number) : (x =? 0) = true -> Js.or_zero (Some x) = 0.
Proof.
  intros H. cbn [Js.or_zero]. unfold Js.truthy.
  replace (PrimFloat.is_zero x) with true by (symmetry; exact H).
  reflexivity.
Qed.

(** The number the loop multiplies for [key]: [vector[key] || 0],
    converted to a number. *)
Definition valueOf (v : VectorMap) (key : string) : Js.number :=
  Js.ToNumber (Js.value_or (vec_read v key) 0).

(** The same, read from the own properties alone. *)
Definition ownValue (v : VectorMap) (key : string) : Js.number :=
  Js.or_zero (vec_get v key).

Definition square (x : Js.number) : Js.number := x * x.

Lemma loop_body_eq (A B : VectorMap) (acc : Sums) (k : string) :
  loop_body A B acc k
  = mkSums (dotProduct acc + valueOf A k * valueOf B k)
           (normA acc + square (valueOf A k))
           (normB acc + square (valueOf B k)).
Proof. reflexivity. Qed.

(** An own property hides the inherited one. *)
Lemma valueOf_own (v : VectorMap) (k : string) (x : Js.number) :
  vec_get v k = Some x -> valueOf v k = ownValue v k.
Proof.
  intros H. unfold valueOf, ownValue, vec_read, Js.value_or. rewrite H.
  cbn [Js.ToBoolean Js.or_zero]. destruct (Js.truthy x); reflexivity.
Qed.

(** A key that names no member of [Object.prototype] is read from the
    own properties. *)
Lemma valueOf_plain (v : VectorMap) (k : string) :
  mem k Object_prototype = false -> valueOf v k = ownValue v k.
Proof.
  intros H. destruct (vec_get v k) as [x | ] eqn:E; [apply (valueOf_own v k x E) | ].
  unfold valueOf, ownValue, vec_read. rewrite E, H. reflexivity.
Qed.

(** A member of [Object.prototype] that the vector does not hide is
    read as an object, and multiplies as [NaN]. *)
Lemma valueOf_inherited (v : VectorMap) (k : string) :
  vec_get v k = None -> mem k Object_prototype = true -> valueOf v k = nan.
Proof. intros E H. unfold valueOf, vec_read. rewrite E, H. reflexivity. Qed.

Lemma valueOf_In (v : VectorMap) (k : string) :
  In k (object_keys v) -> valueOf v k = ownValue v k.
Proof.
  intros H. destruct (vec_get v k) as [x | ] eqn:E; [apply (valueOf_own v k x E) | ].
  apply vec_get_None in E. contradiction.
Qed.

Lemma plain_keys_In (v : VectorMap) (k : string) :
  plain_keys v = true -> In k (object_keys v) -> mem k Object_prototype = false.
Proof.
  unfold plain_keys. rewrite forallb_forall. intros H Hk.
  apply negb_true_iff, H, Hk.
Qed.

Lemma square_nonneg (v : VectorMap) (key : string) : nonneg (square (ownValue v key)).
Proof. apply nonneg_sq, or_zero_not_nan. Qed.

(** *** The three accumulators, one at a time *)

Lemma loop_dot (A B : VectorMap) (keys : list string) (acc : Sums) :
  dotProduct (fold_left (loop_body A B) keys acc)
  = fold_left (fun a k => a + valueOf A k * valueOf B k) keys (dotProduct acc).
Proof.
  revert acc. induction keys as [ | k keys IH]; intros acc; cbn [fold_left]; [reflexivity | ].
  rewrite IH. reflexivity.
Qed.

Lemma loop_normA (A B : VectorMap) (keys : list string) (acc : Sums) :
  normA (fold_left (loop_body A B) keys acc)
  = fold_left (fun a k => a + square (valueOf A k)) keys (normA acc).
Proof.
  revert acc. induction keys as [ | k keys IH]; intros acc; cbn [fold_left]; [reflexivity | ].
  rewrite IH. reflexivity.
Qed.

Lemma loop_normB (A B : VectorMap) (keys : list string) (acc : Sums) :
  normB (fold_left (loop_body A B) keys acc)
  = fold_left (fun a k => a + square (valueOf B k)) keys (normB acc).
Proof.
  revert acc. induction keys as [ | k keys IH]; intros acc; cbn [fold_left]; [reflexivity | ].
  rewrite IH. reflexivity.
Qed.

(** A sum of non-negative terms is non-negative and vanishes only
    when every term does. *)
Lemma sum_nonneg (f : string -> Js.number) (keys : list string) :
  (forall k, nonneg (f k)) ->
  forall acc, nonneg acc ->
    nonneg (fold_left (fun a k => a + f k) keys acc)
    /\ (fold_left (fun a k => a + f k) keys acc =? 0)
       = (acc =? 0) && forallb (fun k => f k =? 0) keys.
Proof.
  intros Hf. induction keys as [ | k keys IH]; intros acc Hacc; cbn [fold_left forallb].
  - split; [exact Hacc | rewrite andb_true_r; reflexivity].
  - destruct (nonneg_add acc (f k) Hacc (Hf k)) as [Hn Hz].
    destruct (IH _ Hn) as [IH1 IH2]. split; [exact IH1 | ].
    rewrite IH2, Hz, andb_assoc. reflexivity.
Qed.

Lemma forallb_ext_In {A} (p : A -> bool) (l1 l2 : list A) :
  (forall x, In x l1 -> p x = true) <-> (forall x, In x l2 -> p x = true) ->
  forallb p l1 = forallb p l2.
Proof.
  intros H. rewrite <- !forallb_forall in H.
  destruct (forallb p l1), (forallb p l2); intuition congruence.
Qed.

Lemma ownValue_absent (v : VectorMap) (k : string) :
  ~ In k (object_keys v) -> ownValue v k = 0.
Proof.
  intros H. unfold ownValue. apply vec_get_None in H. rewrite H. reflexivity.
Qed.

Lemma valueOf_absent (v : VectorMap) (k : string) :
  ~ In k (object_keys v) -> mem k Object_prototype = false -> valueOf v k = 0.
Proof. intros H P. rewrite valueOf_plain by exact P. apply ownValue_absent, H. Qed.

(** Sums over keys at which the terms agree. *)
Lemma sum_ext_In (f g : string -> Js.number) (keys : list string) :
  (forall k, In k keys -> f k = g k) ->
  forall acc, fold_left (fun a k => a + f k) keys acc = fold_left (fun a k => a + g k) keys acc.
Proof.
  induction keys as [ | k keys IH]; intros H acc; cbn [fold_left]; [reflexivity | ].
  rewrite (H k (or_introl eq_refl)). apply IH. intros k' Hk'. apply H. right. exact Hk'.
Qed.

Lemma all_keys_In (A B : VectorMap) (k : string) :
  In k (all_keys A B) <-> In k (object_keys A) \/ In k (object_keys B).
Proof. unfold all_keys. rewrite new_Set_In, in_app_iff. tauto. Qed.

Lemma squaredNorm_zero (v : VectorMap) :
  (squaredNorm v =? 0)
  = forallb (fun k => square (ownValue v k) =? 0) (object_keys v).
Proof.
  unfold squaredNorm.
  destruct (sum_nonneg (fun k => square (ownValue v k)) (object_keys v)
              (square_nonneg v) 0 nonneg_zero) as [_ H].
  exact H.
Qed.

(** Where no key of the other vector names a member of
    [Object.prototype], the loop reads own properties only. *)
Lemma loop_own_A (A B : VectorMap) (k : string) :
  plain_keys B = true -> In k (all_keys A B) -> valueOf A k = ownValue A k.
Proof.
  intros PB Hk. apply all_keys_In in Hk as [Hk | Hk].
  - apply valueOf_In, Hk.
  - apply valueOf_plain, (plain_keys_In B k PB Hk).
Qed.

Lemma loop_own_B (A B : VectorMap) (k : string) :
  plain_keys A = true -> In k (all_keys A B) -> valueOf B k = ownValue B k.
Proof.
  intros PA Hk. apply all_keys_In in Hk as [Hk | Hk].
  - apply valueOf_plain, (plain_keys_In A k PA Hk).
  - apply valueOf_In, Hk.
Qed.

(** The three sums of the loop over own properties. *)
Lemma loop_plain (A B : VectorMap) :
  plain_keys A = true -> plain_keys B = true ->
  dotProduct (loop A B)
  = fold_left (fun a k => a + ownValue A k * ownValue B k) (all_keys A B) 0
  /\ normA (loop A B) = fold_left (fun a k => a + square (ownValue A k)) (all_keys A B) 0
  /\ normB (loop A B) = fold_left (fun a k => a + square (ownValue B k)) (all_keys A B) 0.
Proof.
  intros PA PB. unfold loop. rewrite loop_dot, loop_normA, loop_normB.
  cbn [dotProduct normA normB sums0]. repeat split; apply sum_ext_In; intros k Hk.
  - rewrite (loop_own_A A B k PB Hk), (loop_own_B A B k PA Hk). reflexivity.
  - rewrite (loop_own_A A B k PB Hk). reflexivity.
  - rewrite (loop_own_B A B k PA Hk). reflexivity.
Qed.

(** The norm the loop accumulates for an argument vanishes exactly
    when that argument's own squared norm does, provided no key of the
    other argument names a member of [Object.prototype]. *)
Lemma loop_normA_zero (A B : VectorMap) :
  plain_keys B = true ->
  (normA (loop A B) =? 0) = (squaredNorm A =? 0).
Proof.
  intros PB. unfold loop. rewrite loop_normA, squaredNorm_zero.
  rewrite (sum_ext_In (fun k => square (valueOf A k)) (fun k => square (ownValue A k)))
    by (intros k Hk; rewrite (loop_own_A A B k PB Hk); reflexivity).
  destruct (sum_nonneg (fun k => square (ownValue A k)) (all_keys A B)
              (square_nonneg A) 0 nonneg_zero) as [_ H].
  cbn [normA sums0]. rewrite H. cbn [andb].
  change (0 =? 0) with true. cbn [andb].
  apply forallb_ext_In. split; intros H1 k Hk.
  - apply H1. apply all_keys_In. left. exact Hk.
  - destruct (in_dec string_dec k (object_keys A)) as [Hin | Hout]; [auto | ].
    rewrite (ownValue_absent A k Hout). reflexivity.
Qed.

Lemma loop_normB_zero (A B : VectorMap) :
  plain_keys A = true ->
  (normB (loop A B) =? 0) = (squaredNorm B =? 0).
Proof.
  intros PA. unfold loop. rewrite loop_normB, squaredNorm_zero.
  rewrite (sum_ext_In (fun k => square (valueOf B k)) (fun k => square (ownValue B k)))
    by (intros k Hk; rewrite (loop_own_B A B k PA Hk); reflexivity).
  destruct (sum_nonneg (fun k => square (ownValue B k)) (all_keys A B)
              (square_nonneg B) 0 nonneg_zero) as [_ H].
  cbn [normB sums0]. rewrite H.
  change (0 =? 0) with true. cbn [andb].
  apply forallb_ext_In. split; intros H1 k Hk.
  - apply H1. apply all_keys_In. right. exact Hk.
  - destruct (in_dec string_dec k (object_keys B)) as [Hin | Hout]; [auto | ].
    rewrite (ownValue_absent B k Hout). reflexivity.
Qed.

(** *** Swapping the arguments over one enumeration *)

Lemma fold_loop_swap (A B : VectorMap) (keys : list string) :
  forall acc acc',
    dotProduct acc = dotProduct acc' ->
    normA acc = normB acc' ->
    normB acc = normA acc' ->
    let r := fold_left (loop_body A B) keys acc in
    let r' := fold_left (loop_body B A) keys acc' in
    dotProduct r = dotProduct r' /\ normA r = normB r' /\ normB r = normA r'.
Proof.
  induction keys as [ | k keys IH]; intros acc acc' Hd Ha Hb; cbn [fold_left].
  - auto.
  - rewrite !loop_body_eq. apply IH; cbn [dotProduct normA normB].
    + rewrite Hd, (mul_comm (valueOf A k)). reflexivity.
    + rewrite Ha. reflexivity.
    + rewrite Hb. reflexivity.
Qed.

(** *** The loop only sees the keys and the weights read at them *)

Lemma fold_loop_ext (A B A' B' : VectorMap) (keys : list string) (acc : Sums) :
  (forall k, valueOf A k = valueOf A' k) ->
  (forall k, valueOf B k = valueOf B' k) ->
  fold_left (loop_body A B) keys acc = fold_left (loop_body A' B') keys acc.
Proof.
  intros HA HB. revert acc.
  induction keys as [ | k keys IH]; intros acc; cbn [fold_left]; [reflexivity | ].
  rewrite IH. f_equal. rewrite !loop_body_eq.
  rewrite HA, HB. reflexivity.
Qed.

(** No accumulator is ever [-0]. *)
Definition no_neg_zero (acc : Sums) : Prop :=
  dotProduct acc <> neg_zero /\ normA acc <> neg_zero /\ normB acc <> neg_zero.

Lemma zero_not_neg_zero : (0 : float) <> neg_zero.
Proof. apply not_neg_zero_spec. discriminate. Qed.

Lemma sums0_no_neg_zero : no_neg_zero sums0.
Proof. repeat split; apply zero_not_neg_zero. Qed.

Lemma fold_loop_no_neg_zero (A B : VectorMap) (keys : list string) :
  forall acc, no_neg_zero acc -> no_neg_zero (fold_left (loop_body A B) keys acc).
Proof.
  induction keys as [ | k keys IH]; intros acc H; cbn [fold_left]; [exact H | ].
  apply IH. destruct H as (H1 & H2 & H3). rewrite loop_body_eq.
  repeat split; cbn [dotProduct normA normB]; apply add_not_neg_zero; assumption.
Qed.

(** A key at which both vectors read zero adds nothing. *)
Lemma loop_body_zero (A B : VectorMap) (acc : Sums) (k : string) :
  no_neg_zero acc -> valueOf A k = 0 -> valueOf B k = 0 ->
  loop_body A B acc k = acc.
Proof.
  intros (H1 & H2 & H3) HA HB. rewrite loop_body_eq.
  rewrite HA, HB. unfold square. change (0 * 0) with 0.
  rewrite !add_zero_r by assumption. destruct acc; reflexivity.
Qed.

Lemma fold_loop_skip (A B : VectorMap) (K1 K2 : list string) (k : string) :
  valueOf A k = 0 -> valueOf B k = 0 ->
  fold_left (loop_body A B) (K1 ++ k :: K2) sums0
  = fold_left (loop_body A B) (K1 ++ K2) sums0.
Proof.
  intros HA HB. rewrite !fold_left_app. cbn [fold_left].
  rewrite loop_body_zero; [reflexivity | | exact HA | exact HB].
  apply fold_loop_no_neg_zero, sums0_no_neg_zero.
Qed.

(** *** Inserting a zero weight *)

Lemma vec_get_insert_other (v1 v2 : VectorMap) (k key : string) (w : Js.number) :
  key <> k -> vec_get (v1 ++ (k, w) :: v2) key = vec_get (v1 ++ v2) key.
Proof.
  intros Hne. rewrite !vec_get_app. cbn [vec_get].
  destruct (String.eqb_spec k key); [congruence | reflexivity].
Qed.

Lemma valueOf_insert_zero (v1 v2 : VectorMap) (k : string) (w : Js.number) :
  (w =? 0) = true -> ~ In k (object_keys (v1 ++ v2)) ->
  mem k Object_prototype = false ->
  forall key, valueOf (v1 ++ (k, w) :: v2) key = valueOf (v1 ++ v2) key.
Proof.
  intros Hw Hk Pk key.
  destruct (String.eqb_spec key k) as [-> | Hne].
  - rewrite !valueOf_plain by exact Pk. unfold ownValue.
    rewrite (proj2 (vec_get_None (v1 ++ v2) k) Hk).
    rewrite vec_get_app.
    assert (H1 : vec_get v1 k = None).
    { apply vec_get_None. intros H. apply Hk. unfold object_keys in *.
      rewrite map_app. apply in_or_app. left. exact H. }
    rewrite H1. cbn [vec_get]. rewrite String.eqb_refl.
    apply or_zero_zero, Hw.
  - unfold valueOf, vec_read. rewrite vec_get_insert_other by exact Hne. reflexivity.
Qed.

(** Adding to a set a key it holds leaves the enumeration as it is;
    adding a new key inserts it at one place. *)
Lemma Set_add_old (s : list string) (k : string) :
  mem k s = true -> Set_add s k = s.
Proof. unfold Set_add. intros ->. reflexivity. Qed.

Lemma Set_add_new (s : list string) (k : string) :
  mem k s = false -> Set_add s k = s ++ [k].
Proof. unfold Set_add. intros ->. reflexivity. Qed.

Lemma new_Set_insert_old (l1 l2 : list string) (k : string) :
  In k l1 -> new_Set (l1 ++ k :: l2) = new_Set (l1 ++ l2).
Proof.
  intros Hin. unfold new_Set. rewrite !fold_left_app. cbn [fold_left].
  rewrite Set_add_old; [reflexivity | ].
  apply mem_In, fold_Set_add_In. right. exact Hin.
Qed.

Lemma fold_Set_add_insert (l : list string) (k : string) :
  ~ In k l ->
  forall s t, exists t',
    fold_left Set_add l (s ++ t) = s ++ t'
    /\ fold_left Set_add l (s ++ k :: t) = s ++ k :: t'.
Proof.
  induction l as [ | x l IH]; intros Hk s t; cbn [fold_left].
  - exists t. auto.
  - assert (Hx : x <> k) by (intros ->; apply Hk; left; reflexivity).
    assert (Hm : mem x (s ++ k :: t) = mem x (s ++ t)).
    { unfold mem. rewrite !existsb_app. cbn [existsb].
      destruct (String.eqb_spec x k); [congruence | reflexivity]. }
    destruct (mem x (s ++ t)) eqn:E.
    + rewrite !Set_add_old by congruence.
      apply IH. intros H. apply Hk. right. exact H.
    + rewrite !Set_add_new by congruence.
      rewrite <- !app_assoc. cbn [app].
      apply (IH (fun H => Hk (or_intror H)) s (t ++ [x])).
Qed.

Lemma new_Set_insert_new (l1 l2 : list string) (k : string) :
  ~ In k l1 -> ~ In k l2 ->
  exists K1 K2,
    new_Set (l1 ++ l2) = K1 ++ K2 /\ new_Set (l1 ++ k :: l2) = K1 ++ k :: K2.
Proof.
  intros H1 H2. unfold new_Set. rewrite !fold_left_app. cbn [fold_left].
  set (S1 := fold_left Set_add l1 []).
  assert (Hk : mem k S1 = false).
  { apply mem_not_In. intros H. apply fold_Set_add_In in H. cbn in H. tauto. }
  rewrite (Set_add_new S1 k Hk).
  destruct (fold_Set_add_insert l2 k H2 S1 []) as (t' & E1 & E2).
  rewrite app_nil_r in E1. exists S1, t'. auto.
Qed.

End Similarity.


(** ** Range of the score *)

(** C7: the score leaves [0, 1] on non-negative weights.  With the
    weights [2^-537] and [1.5 * 2^-537] (both in [0, 1]) the squares
    underflow to [2^-1074] and [2 * 2^-1074], the product to
    [2 * 2^-1074], and the quotient is exactly [2]; with the weight
    [1e200] on both sides every sum overflows and the quotient is
    [NaN]. *)
Theorem cosineSimilarity_out_of_range :
  (0 <=? 0x1p-537)%float = true /\ (0x1.8p-537 <=? 1)%float = true
  /\ cosineSimilarity tiny_a tiny_b = 2%float
  /\ (cosineSimilarity tiny_a tiny_b <=? 1 + 1e-9)%float = false
  /\ PrimFloat.is_nan (cosineSimilarity huge huge) = true
  /\ (0 <=? cosineSimilarity huge huge)%float = false.
Proof. repeat split; vm_compute; reflexivity. Qed.

(** ** Symmetry *)

Lemma cosineSimilarity_of_loop (A B A' B' : VectorMap) :
  loop A B = loop A' B' -> cosineSimilarity A B = cosineSimilarity A' B'.
Proof. unfold cosineSimilarity. intros ->. reflexivity. Qed.

(** Vectors that list the same keys in the same order are enumerated
    alike in both directions. *)
Lemma all_keys_same_keys (A B : VectorMap) :
  object_keys A = object_keys B -> all_keys A B = all_keys B A.
Proof. unfold all_keys. intros ->. reflexivity. Qed.

(** C9 (as amended): [cosineSimilarity A B] and [cosineSimilarity B A]
    are the same number whenever the two calls enumerate the union of
    the keys in the same order, as they do when [A] and [B] list the
    same keys in the same order ([all_keys_same_keys]). *)
Theorem cosineSimilarity_sym (A B : VectorMap)
    (Horder : all_keys A B = all_keys B A) :
  cosineSimilarity A B = cosineSimilarity B A.
Proof.
  unfold cosineSimilarity, loop. rewrite <- Horder.
  destruct (Similarity.fold_loop_swap A B (all_keys A B) sums0 sums0
              eq_refl eq_refl eq_refl) as (Hd & Ha & Hb).
  rewrite Hd, Ha, Hb.
  rewrite orb_comm, (FloatFacts.mul_comm (sqrt (normB _))). reflexivity.
Qed.

Lemma cosineSimilarity_sym_witness :
  cosineSimilarity vec_xyz vec_xyz' = cosineSimilarity vec_xyz' vec_xyz.
Proof. apply (cosineSimilarity_sym vec_xyz vec_xyz'). reflexivity. Defined.

(** With [A = {x: 0.1, y: 0.1, z: 0.1}] and [B = {z: 0.3, x: 0.1, y: 0.1}]
    the call [(A, B)] sums in the order x, y, z and the call [(B, A)] in
    the order z, x, y; the results differ in the last place. *)
Lemma cosineSimilarity_sym_counterexample :
  cosineSimilarity vec_xyz vec_zxy = 0.87038827977848909%float
  /\ cosineSimilarity vec_zxy vec_xyz = 0.87038827977848898%float
  /\ (cosineSimilarity vec_xyz vec_zxy =? cosineSimilarity vec_zxy vec_xyz)%float = false
  /\ cosineSimilarity vec_xyz vec_zxy <> cosineSimilarity vec_zxy vec_xyz.
Proof.
  repeat split; try (vm_compute; reflexivity).
  intros H.
  assert (E : (cosineSimilarity vec_xyz vec_zxy =? cosineSimilarity vec_zxy vec_xyz)%float = false)
    by (vm_compute; reflexivity).
  rewrite H in E. vm_compute in E. discriminate E.
Qed.

(** ** Zero weights *)

Module ZeroWeight.
Import FloatFacts VectorFacts Similarity.
Local Open Scope float_scope.

Lemma object_keys_insert (v1 v2 : VectorMap) (k : string) (w : Js.number) :
  object_keys (v1 ++ (k, w) :: v2) = (object_keys v1 ++ k :: object_keys v2)%list.
Proof. unfold object_keys. rewrite map_app. reflexivity. Qed.

Lemma object_keys_app (v1 v2 : VectorMap) :
  object_keys (v1 ++ v2) = (object_keys v1 ++ object_keys v2)%list.
Proof. unfold object_keys. apply map_app. Qed.

(** The loop over an enumeration with one more key, at which both
    vectors read zero. *)
(** The prefixes of the Vectorizer keep its keys apart from the
    members of [Object.prototype]. *)
Lemma personality_plain (n : string) :
  mem (String.append "personality_" n) Object_prototype = false.
Proof. reflexivity. Qed.

Lemma interest_plain (i : string) :
  mem (String.append "interest_" i) Object_prototype = false.
Proof. reflexivity. Qed.

Lemma value_plain (w : string) :
  mem (String.append "value_" w) Object_prototype = false.
Proof. reflexivity. Qed.

Lemma mem_false_not_In (k : string) (l : list string) : mem k l = false -> ~ In k l.
Proof. intros H Hin. apply mem_In in Hin. congruence. Qed.

Lemma loop_insert (A B A' B' : VectorMap) (K1 K2 : list string) (k : string) :
  all_keys A B = (K1 ++ K2)%list ->
  all_keys A' B' = (K1 ++ k :: K2)%list ->
  (forall key, valueOf A' key = valueOf A key) ->
  (forall key, valueOf B' key = valueOf B key) ->
  valueOf A k = 0 -> valueOf B k = 0 ->
  loop A' B' = loop A B.
Proof.
  intros E E' HA HB ZA ZB. unfold loop. rewrite E, E'.
  rewrite (fold_loop_ext A' B' A B) by assumption.
  apply fold_loop_skip; assumption.
Qed.

Lemma insert_second (A B1 B2 : VectorMap) (k : string) (w : Js.number) :
  (w =? 0) = true -> ~ In k (object_keys (B1 ++ B2)) ->
  mem k Object_prototype = false ->
  loop A (B1 ++ (k, w) :: B2) = loop A (B1 ++ B2).
Proof.
  intros Hw Hk Pk.
  pose proof (valueOf_insert_zero B1 B2 k w Hw Hk Pk) as HB.
  rewrite object_keys_app in Hk.
  destruct (in_dec string_dec k (object_keys A)) as [Hin | Hout].
  - unfold loop, all_keys. rewrite object_keys_insert, object_keys_app.
    rewrite !app_assoc.
    rewrite new_Set_insert_old by (apply in_or_app; left; exact Hin).
    apply fold_loop_ext; [reflexivity | exact HB].
  - destruct (new_Set_insert_new (object_keys A ++ object_keys B1) (object_keys B2) k)
      as (K1 & K2 & E & E').
    { rewrite in_app_iff. rewrite in_app_iff in Hk. tauto. }
    { rewrite in_app_iff in Hk. tauto. }
    apply (loop_insert A (B1 ++ B2) A (B1 ++ (k, w) :: B2) K1 K2 k).
    + unfold all_keys. rewrite object_keys_app, app_assoc. exact E.
    + unfold all_keys. rewrite object_keys_insert, app_assoc. exact E'.
    + reflexivity.
    + exact HB.
    + apply valueOf_absent; [exact Hout | exact Pk].
    + apply valueOf_absent; [rewrite object_keys_app; exact Hk | exact Pk].
Qed.

Lemma insert_first (A1 A2 B : VectorMap) (k : string) (w : Js.number) :
  (w =? 0) = true -> ~ In k (object_keys (A1 ++ A2)) -> ~ In k (object_keys B) ->
  mem k Object_prototype = false ->
  loop (A1 ++ (k, w) :: A2) B = loop (A1 ++ A2) B.
Proof.
  intros Hw Hk HkB Pk.
  pose proof (valueOf_insert_zero A1 A2 k w Hw Hk Pk) as HA.
  pose proof Hk as Hk'. rewrite object_keys_app, in_app_iff in Hk'.
  destruct (new_Set_insert_new (object_keys A1) (object_keys A2 ++ object_keys B) k)
    as (K1 & K2 & E & E').
  { tauto. }
  { rewrite in_app_iff. tauto. }
  apply (loop_insert (A1 ++ A2) B (A1 ++ (k, w) :: A2) B K1 K2 k).
  - unfold all_keys. rewrite object_keys_app, <- app_assoc. exact E.
  - unfold all_keys. rewrite object_keys_insert, <- app_assoc. exact E'.
  - exact HA.
  - reflexivity.
  - apply valueOf_absent; [exact Hk | exact Pk].
  - apply valueOf_absent; [exact HkB | exact Pk].
Qed.

End ZeroWeight.

Module ZeroTrait.
Import VectorFacts.

(** The vector of a profile that carries one more personality trait. *)
Lemma traitsToVector_insert (pt1 pt2 : list (string * Js.number))
      (t : string) (w : Js.number) (I V : list string) :
  NoDup (map fst (pt1 ++ (t, w) :: pt2)) ->
  exists A1 A2,
    traitsToVector (mkTraits (pt1 ++ (t, w) :: pt2) I V)
    = (A1 ++ (String.append "personality_" t, w) :: A2)%list
    /\ traitsToVector (mkTraits (pt1 ++ pt2) I V) = (A1 ++ A2)%list
    /\ ~ In (String.append "personality_" t) (object_keys (A1 ++ A2)).
Proof.
  intros ND.
  assert (ND' : NoDup (map fst (pt1 ++ pt2))).
  { rewrite map_app in *. cbn [map fst] in ND. apply NoDup_remove_1 in ND. exact ND. }
  assert (Ht : ~ In t (map fst (pt1 ++ pt2))).
  { rewrite map_app in *. cbn [map fst] in ND. apply NoDup_remove_2 in ND. exact ND. }
  exists (map personality_entry pt1),
         (map personality_entry pt2
          ++ map interest_entry (new_Set I) ++ map value_entry (new_Set V))%list.
  rewrite !traitsToVector_eq by assumption. cbn [personalityTraits interests values].
  rewrite !map_app. cbn [map]. rewrite <- !app_assoc. cbn [app].
  split; [reflexivity | split; [reflexivity | ]].
  unfold object_keys. rewrite !map_app, !map_map, !in_app_iff.
  intros [H | [H | [H | H]]]; apply in_map_iff in H as (e & E & He).
  - apply append_inj_r in E. apply Ht. rewrite <- E, map_app.
    apply in_or_app. left. apply in_map. exact He.
  - apply append_inj_r in E. apply Ht. rewrite <- E, map_app.
    apply in_or_app. right. apply in_map. exact He.
  - discriminate E.
  - discriminate E.
Qed.

Lemma trait_key_absent (Q : UserTraits) (t : string) :
  NoDup (map fst (personalityTraits Q)) ->
  ~ In t (map fst (personalityTraits Q)) ->
  ~ In (String.append "personality_" t) (object_keys (traitsToVector Q)).
Proof.
  intros ND Ht. rewrite traitsToVector_eq by exact ND.
  unfold object_keys. rewrite !map_app, !map_map, !in_app_iff.
  intros [H | [H | H]]; apply in_map_iff in H as (e & E & He).
  - apply append_inj_r in E. apply Ht. rewrite <- E. apply in_map. exact He.
  - discriminate E.
  - discriminate E.
Qed.

End ZeroTrait.

(** C10 (as amended): a key with weight [0] (or [-0]) that names no
    member of [Object.prototype] is invisible to [cosineSimilarity]
    when it is added to the second argument, and when it is added to
    the first argument and the second does not hold that key.
    Consequently a profile with a personality trait of intensity [0]
    scores like the profile without it when it is the second profile
    compared, and, as the first, against every profile that lacks that
    trait (the key of a trait, [personality_...], never names such a
    member). *)
Theorem zero_weight_unobserved :
  (forall (A B1 B2 : VectorMap) (k : string) (w : Js.number),
      (w =? 0)%float = true -> ~ In k (object_keys (B1 ++ B2)) ->
      mem k Object_prototype = false ->
      cosineSimilarity A (B1 ++ (k, w) :: B2) = cosineSimilarity A (B1 ++ B2))
  /\ (forall (A1 A2 B : VectorMap) (k : string) (w : Js.number),
         (w =? 0)%float = true -> ~ In k (object_keys (A1 ++ A2)) ->
         ~ In k (object_keys B) ->
         mem k Object_prototype = false ->
         cosineSimilarity (A1 ++ (k, w) :: A2) B = cosineSimilarity (A1 ++ A2) B)
  /\ (forall (R : UserTraits) (pt1 pt2 : list (string * Js.number))
             (t : string) (w : Js.number) (I V : list string),
         (w =? 0)%float = true -> NoDup (map fst (pt1 ++ (t, w) :: pt2)) ->
         calculateUserSimilarity R (mkTraits (pt1 ++ (t, w) :: pt2) I V)
         = calculateUserSimilarity R (mkTraits (pt1 ++ pt2) I V))
  /\ (forall (Q : UserTraits) (pt1 pt2 : list (string * Js.number))
             (t : string) (w : Js.number) (I V : list string),
         (w =? 0)%float = true -> NoDup (map fst (pt1 ++ (t, w) :: pt2)) ->
         NoDup (map fst (personalityTraits Q)) ->
         ~ In t (map fst (personalityTraits Q)) ->
         calculateUserSimilarity (mkTraits (pt1 ++ (t, w) :: pt2) I V) Q
         = calculateUserSimilarity (mkTraits (pt1 ++ pt2) I V) Q).
Proof.
  repeat split.
  - intros A B1 B2 k w Hw Hk Pk.
    apply cosineSimilarity_of_loop, ZeroWeight.insert_second; assumption.
  - intros A1 A2 B k w Hw Hk HkB Pk.
    apply cosineSimilarity_of_loop, ZeroWeight.insert_first; assumption.
  - intros R pt1 pt2 t w I V Hw ND. unfold calculateUserSimilarity.
    destruct (ZeroTrait.traitsToVector_insert pt1 pt2 t w I V ND) as (A1 & A2 & E1 & E2 & Hk).
    rewrite E1, E2.
    apply cosineSimilarity_of_loop, ZeroWeight.insert_second; try assumption.
    apply ZeroWeight.personality_plain.
  - intros Q pt1 pt2 t w I V Hw ND NDQ HtQ. unfold calculateUserSimilarity.
    destruct (ZeroTrait.traitsToVector_insert pt1 pt2 t w I V ND) as (A1 & A2 & E1 & E2 & Hk).
    rewrite E1, E2.
    apply cosineSimilarity_of_loop, ZeroWeight.insert_first; try assumption.
    + apply ZeroTrait.trait_key_absent; assumption.
    + apply ZeroWeight.personality_plain.
Qed.

Lemma zero_weight_unobserved_witness :
  cosineSimilarity vec_xzw vec_x_w0 = cosineSimilarity vec_xzw vec_x
  /\ calculateUserSimilarity traits_xyz traits_z0xy
     = calculateUserSimilarity traits_xyz traits_xy.
Proof.
  split.
  - apply (proj1 zero_weight_unobserved vec_xzw vec_x [] "w"%string 0%float).
    + reflexivity.
    + cbn. intros [H | []]. discriminate H.
    + reflexivity.
  - apply (proj1 (proj2 (proj2 zero_weight_unobserved))
             traits_xyz [] [("x"%string, 0.1%float); ("y"%string, 0.1%float)]
             "z"%string 0%float [] []).
    + reflexivity.
    + cbn. repeat constructor; cbn; intuition discriminate.
Defined.

(** Storing [w: 0] in [{x: 0.1}] moves [w] in front of [z] in the
    enumeration against [{x: 0.1, z: 0.1, w: 0.3}], and the score
    changes in the last place; so does the score of the profile
    [{z: 0, x: 0.1, y: 0.1}] against [{x: 0.1, y: 0.1, z: 0.3}] when the
    trait [z] is removed. *)
Lemma zero_weight_counterexample :
  cosineSimilarity vec_x vec_xzw = 0.3015113445777637%float
  /\ cosineSimilarity vec_x_w0 vec_xzw = 0.30151134457776363%float
  /\ (cosineSimilarity vec_x_w0 vec_xzw =? cosineSimilarity vec_x vec_xzw)%float = false
  /\ calculateUserSimilarity traits_xy traits_xyz = 0.4264014327112209%float
  /\ calculateUserSimilarity traits_z0xy traits_xyz = 0.42640143271122083%float
  /\ (calculateUserSimilarity traits_z0xy traits_xyz
      =? calculateUserSimilarity traits_xy traits_xyz)%float = false.
Proof. repeat split; vm_compute; reflexivity. Qed.

(* ================================================================== *)
(** * Part V: the Match Ranker                                         *)
(* ================================================================== *)

Module SortFacts.
Import FloatFacts.

Section Generic.
Context {A : Type} (cmp : A -> A -> Js.number).

Lemma insert_perm (x : A) (l : list A) : Permutation (Js.insert cmp x l) (x :: l).
Proof.
  induction l as [ | y r IH]; cbn [Js.insert]; [reflexivity | ].
  destruct (0 <? cmp y x)%float; [ | reflexivity].
  rewrite IH. apply perm_swap.
Qed.

Lemma fold_insert_perm (l prefix : list A) :
  Permutation (fold_left (fun p x => Js.insert cmp x p) l prefix) (rev l ++ prefix).
Proof.
  revert prefix. induction l as [ | x l IH]; intros prefix; cbn [fold_left rev].
  - reflexivity.
  - rewrite IH, insert_perm, <- app_assoc. cbn [app].
    apply Permutation_app_head, Permutation_refl.
Qed.

Lemma sort_perm (l : list A) : Permutation (Js.sort cmp l) l.
Proof.
  unfold Js.sort. rewrite <- Permutation_rev, fold_insert_perm, app_nil_r.
  symmetry. apply Permutation_rev.
Qed.

Lemma sort_nil : Js.sort cmp [] = [].
Proof. reflexivity. Qed.
End Generic.

Lemma StronglySorted_app {A} (R : A -> A -> Prop) (l1 l2 : list A) :
  StronglySorted R l1 -> StronglySorted R l2 ->
  (forall a b, In a l1 -> In b l2 -> R a b) ->
  StronglySorted R (l1 ++ l2).
Proof.
  induction l1 as [ | x l1 IH]; cbn [app]; intros S1 S2 H; [exact S2 | ].
  apply StronglySorted_inv in S1 as [S1 F1]. constructor.
  - apply IH; [exact S1 | exact S2 | intros a b Ha Hb; apply H; [right; exact Ha | exact Hb]].
  - apply Forall_app. split; [exact F1 | ].
    apply Forall_forall. intros b Hb. apply H; [left; reflexivity | exact Hb].
Qed.

Lemma StronglySorted_rev {A} (R : A -> A -> Prop) (l : list A) :
  StronglySorted R l -> StronglySorted (fun a b => R b a) (rev l).
Proof.
  induction 1 as [ | x l S IH F]; cbn [rev]; [constructor | ].
  apply StronglySorted_app; [exact IH | repeat constructor | ].
  intros a b Ha [<- | []]. apply in_rev in Ha.
  rewrite Forall_forall in F. apply F, Ha.
Qed.

Lemma In_firstn {A} (n : nat) (l : list A) (x : A) :
  In x (firstn n l) -> In x l.
Proof.
  revert l. induction n as [ | n IH]; intros [ | y l]; cbn; try tauto.
  intros [H | H]; [left; exact H | right; apply IH, H].
Qed.

Lemma StronglySorted_firstn {A} (R : A -> A -> Prop) (n : nat) (l : list A) :
  StronglySorted R l -> StronglySorted R (firstn n l).
Proof.
  revert l. induction n as [ | n IH]; intros l S; [constructor | ].
  destruct l as [ | x l]; [constructor | ]. cbn [firstn].
  apply StronglySorted_inv in S as [S F]. constructor; [apply IH, S | ].
  rewrite Forall_forall in *. intros y Hy. apply F. apply (In_firstn _ _ _ Hy).
Qed.

(** The prefix kept by [Js.insert] is in ascending order of score. *)
Definition ascending : list Scored.t -> Prop :=
  StronglySorted (fun y z => score_ge z y).

Lemma insert_ascending (x : Scored.t) (prefix : list Scored.t) :
  is_number x -> Forall is_number prefix -> ascending prefix ->
  ascending (Js.insert by_score_desc x prefix).
Proof.
  intros Nx. induction prefix as [ | y r IH]; intros Nl S; cbn [Js.insert].
  - repeat constructor.
  - apply Forall_cons_iff in Nl as [Ny Nr].
    apply StronglySorted_inv in S as [S F].
    unfold by_score_desc at 1. rewrite sub_pos_ltb.
    destruct (Scored.similarityScore y <? Scored.similarityScore x)%float eqn:E.
    + constructor; [apply IH; assumption | ].
      apply Forall_forall. intros z Hz.
      apply (Permutation_in _ (insert_perm by_score_desc x r)) in Hz.
      destruct Hz as [<- | Hz].
      * unfold score_ge. rewrite leb_not_ltb by assumption.
        rewrite (ltb_asym _ _ E). reflexivity.
      * rewrite Forall_forall in F. apply F, Hz.
    + assert (Hxy : score_ge y x).
      { unfold score_ge. rewrite leb_not_ltb by assumption. rewrite E. reflexivity. }
      constructor; [constructor; assumption | ].
      constructor; [exact Hxy | ].
      rewrite Forall_forall in *. intros z Hz.
      unfold score_ge in *. apply leb_trans with (1 := Hxy). apply F, Hz.
Qed.

Lemma fold_insert_ascending (l prefix : list Scored.t) :
  Forall is_number l -> Forall is_number prefix -> ascending prefix ->
  ascending (fold_left (fun p x => Js.insert by_score_desc x p) l prefix).
Proof.
  revert prefix. induction l as [ | x l IH]; intros prefix Nl Np S; cbn [fold_left]; [exact S | ].
  apply Forall_cons_iff in Nl as [Nx Nl].
  apply IH; [exact Nl | | apply insert_ascending; assumption].
  apply Forall_forall. intros z Hz.
  apply (Permutation_in _ (insert_perm by_score_desc x prefix)) in Hz.
  destruct Hz as [<- | Hz]; [exact Nx | ].
  rewrite Forall_forall in Np. apply Np, Hz.
Qed.

(** When every score is a number, the sort puts them in descending
    order. *)
Lemma sort_descending (l : list Scored.t) :
  Forall is_number l -> StronglySorted score_ge (Js.sort by_score_desc l).
Proof.
  intros Nl. unfold Js.sort.
  apply (StronglySorted_rev (fun y z => score_ge z y)).
  apply fold_insert_ascending; [exact Nl | constructor | constructor].
Qed.

End SortFacts.

Module Ranker.

Lemma mapM_run {A B} (f : A -> Async B) (g : A -> list B) (l : list A) (db : Db) :
  (forall x, In x l -> exists y, g x = [y] /\ f x db = (Resolved y, db)) ->
  mapM f l db = (Resolved (flat_map g l), db).
Proof.
  induction l as [ | x l IH]; intros H; cbn [mapM flat_map]; [reflexivity | ].
  destruct (H x (or_introl eq_refl)) as (y & Hg & Hf).
  unfold bind at 1. rewrite Hf. unfold bind at 1.
  rewrite IH by (intros z Hz; apply H; right; exact Hz).
  rewrite Hg. reflexivity.
Qed.

Lemma matchesWithScores_run (user : User.t) (userTraits : UserTraits)
      (l : list (User.t * list Like.t)) (db : Db) :
  User.traitVector user = Some userTraits ->
  (forall pm, In pm l -> isSome (User.traitVector (fst pm)) = true) ->
  matchesWithScores user l db
  = (Resolved (scoredCandidates userTraits (map fst l)), db).
Proof.
  intros Hu Hl. unfold matchesWithScores, scoredCandidates.
  rewrite flat_map_concat_map, map_map, <- flat_map_concat_map.
  apply mapM_run. intros pm Hpm. specialize (Hl pm Hpm).
  unfold scoreEntry. rewrite Hu.
  destruct (User.traitVector (fst pm)) as [t | ]; [ | discriminate Hl].
  eexists. split; reflexivity.
Qed.

Lemma potentialMatches_profiles (cu : list (User.t * list Like.t)) :
  forall pm, In pm (potentialMatches cu) -> isSome (User.traitVector (fst pm)) = true.
Proof.
  intros pm H. unfold potentialMatches in H. apply filter_In in H as [_ H].
  apply andb_true_iff in H as [_ H]. exact H.
Qed.

(** What one call of [findCompatibleUsers] computes. *)
Lemma findCompatibleUsers_run (db : Db) (userId limit : Z) :
  findCompatibleUsers userId limit db =
  match requester db userId with
  | None => (Rejected "User not found", db)
  | Some user =>
      match User.traitVector user with
      | None => (Rejected "User does not have trait vector data", db)
      | Some userTraits =>
          (Resolved (Js.slice0 limit
                       (Js.sort by_score_desc
                          (scoredCandidates userTraits (candidateSet db user userId)))),
           db)
      end
  end.
Proof.
  unfold findCompatibleUsers, requester, bind at 1, prisma.user_findUnique.
  destruct (find _ (users db)) as [user | ]; [ | reflexivity].
  destruct (User.traitVector user) as [userTraits | ] eqn:Ht; cbn [isSome negb]; [ | reflexivity].
  unfold bind at 1, prisma.user_findMany. unfold bind at 1.
  rewrite (matchesWithScores_run user userTraits _ db Ht (potentialMatches_profiles _)).
  reflexivity.
Qed.

Lemma no_likes_received (db : Db) (userId : Z) (c : User.t) :
  (List.length (filter (prisma.is_like userId (User.id c)) (likes db)) =? 0)%nat = true
  <-> ~ liked_by db userId c.
Proof.
  rewrite Nat.eqb_eq, length_zero_iff_nil. unfold liked_by. split.
  - intros E (l & Hl & Hf & Ht).
    assert (Hin : In l (filter (prisma.is_like userId (User.id c)) (likes db))).
    { apply filter_In. split; [exact Hl | ].
      unfold prisma.is_like. rewrite Hf, Ht, !Z.eqb_refl. reflexivity. }
    rewrite E in Hin. exact Hin.
  - intros H. destruct (filter _ (likes db)) as [ | l r] eqn:E; [reflexivity | ].
    exfalso. apply H. exists l.
    assert (Hin : In l (filter (prisma.is_like userId (User.id c)) (likes db)))
      by (rewrite E; left; reflexivity).
    apply filter_In in Hin as [Hl Hp]. unfold prisma.is_like in Hp.
    apply andb_true_iff in Hp as [Hf Ht]. apply Z.eqb_eq in Hf, Ht. auto.
Qed.

(** Membership in the Candidate Set. *)
Lemma candidateSet_In (db : Db) (user : User.t) (userId : Z) (c : User.t) :
  In c (candidateSet db user userId)
  <-> In c (users db)
      /\ User.communityId c = User.communityId user
      /\ User.id c <> userId
      /\ ~ liked_by db userId c
      /\ User.traitVector c <> None.
Proof.
  unfold candidateSet, potentialMatches. rewrite in_map_iff. split.
  - intros ([c' ls] & E & H). cbn [fst] in E. subst c'.
    apply filter_In in H as [H Hp]. cbn [fst snd] in Hp.
    apply in_map_iff in H as (u & E & Hu). inversion E; subst u ls; clear E.
    apply filter_In in Hu as [Hu Hq].
    apply andb_true_iff in Hq as [Hc Hi]. apply Z.eqb_eq in Hc.
    apply negb_true_iff, Z.eqb_neq in Hi.
    apply andb_true_iff in Hp as [Hl Ht]. apply no_likes_received in Hl.
    repeat split; try assumption.
    destruct (User.traitVector c); [discriminate | discriminate Ht].
  - intros (Hu & Hc & Hi & Hl & Ht).
    exists (c, filter (prisma.is_like userId (User.id c)) (likes db)).
    split; [reflexivity | ]. apply filter_In. split.
    + apply in_map_iff. exists c. split; [reflexivity | ].
      apply filter_In. split; [exact Hu | ].
      apply andb_true_iff. split; [apply Z.eqb_eq, Hc | apply negb_true_iff, Z.eqb_neq, Hi].
    + cbn [fst snd]. apply andb_true_iff. split; [apply no_likes_received, Hl | ].
      destruct (User.traitVector c); [reflexivity | contradiction Ht; reflexivity].
Qed.

Lemma scoredCandidates_In (userTraits : UserTraits) (cands : list User.t) (s : Scored.t) :
  In s (scoredCandidates userTraits cands)
  <-> exists c, In c cands /\ scoreEntry userTraits c = Some s.
Proof.
  unfold scoredCandidates. rewrite in_flat_map. split.
  - intros (c & Hc & Hs). exists c. split; [exact Hc | ].
    destruct (scoreEntry userTraits c) as [s' | ]; [ | contradiction].
    destruct Hs as [-> | []]. reflexivity.
  - intros (c & Hc & Hs). exists c. split; [exact Hc | ]. rewrite Hs. left. reflexivity.
Qed.

Lemma scoredCandidates_map (userTraits : UserTraits) (cands : list User.t) :
  (forall c, In c cands -> User.traitVector c <> None) ->
  map Some (scoredCandidates userTraits cands) = map (scoreEntry userTraits) cands.
Proof.
  induction cands as [ | c r IH]; intros H; [reflexivity | ].
  unfold scoredCandidates in *. cbn [flat_map map].
  assert (Hc := H c (or_introl eq_refl)).
  unfold scoreEntry at 1 3. destruct (User.traitVector c); [ | contradiction Hc; reflexivity].
  cbn [option_map app map]. f_equal. apply IH. intros c' Hc'. apply H. right. exact Hc'.
Qed.

Lemma In_slice0 {A} (limit : Z) (l : list A) (x : A) :
  In x (Js.slice0 limit l) -> In x l.
Proof.
  unfold Js.slice0. destruct (limit <? 0)%Z; apply SortFacts.In_firstn.
Qed.

Lemma scoreEntry_id (userTraits : UserTraits) (c : User.t) (s : Scored.t) :
  scoreEntry userTraits c = Some s -> Scored.id s = User.id c.
Proof.
  unfold scoreEntry. destruct (User.traitVector c); cbn; [ | discriminate].
  intros E. inversion E. reflexivity.
Qed.

End Ranker.

Lemma candidateSet_with_like (db : Db) (user : User.t) (userId : Z) (l : Like.t) :
  Like.fromUserId l <> userId ->
  candidateSet (with_like db l) user userId = candidateSet db user userId.
Proof.
  intros Hl. unfold candidateSet, with_like. cbn [users likes].
  f_equal. f_equal. apply map_ext. intros u. f_equal.
  rewrite filter_app. cbn [filter]. unfold prisma.is_like at 2.
  apply Z.eqb_neq in Hl. rewrite Hl. cbn [andb]. apply app_nil_r.
Qed.

(** C3: for a requester with a profile, the entries that
    [findCompatibleUsers] scores are exactly those of the users in the
    requester's community, other than the requester, whom the requester
    has not liked and who have a profile; the result is the sorted,
    truncated list of these entries, so no user the requester has liked
    appears in it; Likes given by others, the candidates included,
    change neither the Candidate Set nor the result. *)
Theorem findCompatibleUsers_candidates
    (db : Db) (userId limit : Z) (user : User.t) (userTraits : UserTraits)
    (Huser : requester db userId = Some user)
    (Htraits : User.traitVector user = Some userTraits) :
  let cands := candidateSet db user userId in
  (forall c, In c cands
             <-> In c (users db)
                 /\ User.communityId c = User.communityId user
                 /\ User.id c <> userId
                 /\ ~ liked_by db userId c
                 /\ User.traitVector c <> None)
  /\ (exists scored,
         map Some scored = map (scoreEntry userTraits) cands
         /\ findCompatibleUsers userId limit db
            = (Resolved (Js.slice0 limit (Js.sort by_score_desc scored)), db))
  /\ (forall out s,
         fst (findCompatibleUsers userId limit db) = Resolved out -> In s out ->
         exists c, In c cands /\ scoreEntry userTraits c = Some s
                   /\ ~ liked_by db userId c)
  /\ (forall l, Like.fromUserId l <> userId ->
                candidateSet (with_like db l) user userId = cands
                /\ fst (findCompatibleUsers userId limit (with_like db l))
                   = fst (findCompatibleUsers userId limit db)).
Proof.
  intros cands.
  pose proof (Ranker.findCompatibleUsers_run db userId limit) as Hrun.
  rewrite Huser, Htraits in Hrun. fold cands in Hrun.
  split; [intros c; apply Ranker.candidateSet_In | ].
  split.
  { exists (scoredCandidates userTraits cands). split; [ | exact Hrun].
    apply Ranker.scoredCandidates_map. intros c Hc.
    apply Ranker.candidateSet_In in Hc. tauto. }
  split.
  { intros out s Hout Hs. rewrite Hrun in Hout. cbn [fst] in Hout.
    inversion Hout; subst out; clear Hout.
    apply Ranker.In_slice0 in Hs.
    apply (Permutation_in _ (SortFacts.sort_perm by_score_desc _)) in Hs.
    apply Ranker.scoredCandidates_In in Hs as (c & Hc & E).
    exists c. split; [exact Hc | split; [exact E | ]].
    apply Ranker.candidateSet_In in Hc. tauto. }
  intros l Hl. split; [apply candidateSet_with_like, Hl | ].
  rewrite Hrun, Ranker.findCompatibleUsers_run.
  unfold requester in *. cbn [with_like users].
  rewrite Huser, Htraits, candidateSet_with_like by exact Hl. reflexivity.
Qed.

Lemma score_ge_refl (s : Scored.t) : is_number s -> score_ge s s.
Proof.
  unfold is_number, score_ge. intros N.
  rewrite FloatFacts.leb_not_ltb by exact N.
  destruct (Scored.similarityScore s <? Scored.similarityScore s)%float eqn:E; [ | reflexivity].
  rewrite (FloatFacts.ltb_asym _ _ E) in E. discriminate E.
Qed.

(** X1: the ordering contract where the scores are numbers: for a requester
    with a profile and a positive [limit], when no candidate's score is
    [NaN] the result is in descending order of score and holds at most
    [limit] entries; with [limit = 1] and a non-empty Candidate Set it
    is the single entry with the highest score; with an empty Candidate
    Set it is the empty list, not an error. *)
Lemma findCompatibleUsers_sorted
    (db : Db) (userId limit : Z) (user : User.t) (userTraits : UserTraits)
    (Huser : requester db userId = Some user)
    (Htraits : User.traitVector user = Some userTraits)
    (Hlimit : (0 < limit)%Z)
    (Hnum : Forall is_number (scoredCandidates userTraits (candidateSet db user userId))) :
  let scored := scoredCandidates userTraits (candidateSet db user userId) in
  exists out,
    findCompatibleUsers userId limit db = (Resolved out, db)
    /\ StronglySorted score_ge out
    /\ (Z.of_nat (List.length out) <= limit)%Z
    /\ (forall s, In s out -> In s scored)
    /\ (limit = 1%Z -> candidateSet db user userId <> [] ->
        exists top, out = [top] /\ In top scored
                    /\ forall s, In s scored -> score_ge top s)
    /\ (candidateSet db user userId = [] -> out = []).
Proof.
  intros scored.
  pose proof (Ranker.findCompatibleUsers_run db userId limit) as Hrun.
  rewrite Huser, Htraits in Hrun. fold scored in Hrun.
  pose proof (SortFacts.sort_descending scored Hnum) as Hsorted.
  pose proof (SortFacts.sort_perm by_score_desc scored) as Hperm.
  assert (Hslice : Js.slice0 limit (Js.sort by_score_desc scored)
                   = firstn (Z.to_nat limit) (Js.sort by_score_desc scored)).
  { unfold Js.slice0. destruct (Z.ltb_spec limit 0); [lia | reflexivity]. }
  rewrite Hslice in Hrun.
  eexists. split; [exact Hrun | ].
  split; [apply SortFacts.StronglySorted_firstn, Hsorted | ].
  split.
  { pose proof (firstn_le_length (Z.to_nat limit) (Js.sort by_score_desc scored)). lia. }
  split.
  { intros s Hs. apply SortFacts.In_firstn in Hs.
    apply (Permutation_in _ Hperm), Hs. }
  split.
  { intros -> Hne.
    destruct (Js.sort by_score_desc scored) as [ | top rest] eqn:E.
    - exfalso. apply Permutation_nil in Hperm.
      assert (Hlen : List.length (map Some scored)
                     = List.length (map (scoreEntry userTraits) (candidateSet db user userId))).
      { unfold scored. rewrite Ranker.scoredCandidates_map; [reflexivity | ].
        intros c Hc. apply Ranker.candidateSet_In in Hc. tauto. }
      rewrite !length_map, Hperm in Hlen.
      destruct (candidateSet db user userId); [contradiction Hne; reflexivity | discriminate Hlen].
    - exists top. split; [reflexivity | ].
      assert (Htop : In top scored) by (apply (Permutation_in _ Hperm); left; reflexivity).
      split; [exact Htop | ].
      intros s Hs. apply (Permutation_in _ (Permutation_sym Hperm)) in Hs.
      apply StronglySorted_inv in Hsorted as [_ F].
      destruct Hs as [<- | Hs].
      + apply score_ge_refl. rewrite Forall_forall in Hnum. apply Hnum, Htop.
      + rewrite Forall_forall in F. apply F, Hs. }
  intros Hempty. unfold scored. rewrite Hempty. cbn. apply firstn_nil.
Qed.

(** Two near-identical profiles score close to 1. *)
Example score_u0_u1 :
  calculateUserSimilarity traits_u0 traits_u1 = 0.99959898622108256%float.
Proof. vm_compute. reflexivity. Qed.

(** User 0 is ranked against users 1 and 3 only: user 2 is already
    liked, user 4 is in another community, user 5 has no profile. *)
Example rank_db_rank :
  option_map (map Scored.id)
             (match fst (findCompatibleUsers 0 10 db_rank) with
              | Resolved out => Some out
              | Rejected _ => None
              end)
  = Some [1; 3]%Z.
Proof. vm_compute. reflexivity. Qed.

Lemma findCompatibleUsers_candidates_witness :
  exists scored,
    map Some scored = map (scoreEntry traits_u0) (candidateSet db_rank user0 0)
    /\ findCompatibleUsers 0 10 db_rank
       = (Resolved (Js.slice0 10 (Js.sort by_score_desc scored)), db_rank).
Proof.
  exact (proj1 (proj2 (findCompatibleUsers_candidates db_rank 0 10 user0 traits_u0
                         eq_refl eq_refl))).
Defined.

Lemma findCompatibleUsers_sorted_db_rank :
  exists out,
    findCompatibleUsers 0 1 db_rank = (Resolved out, db_rank)
    /\ StronglySorted score_ge out
    /\ (Z.of_nat (List.length out) <= 1)%Z.
Proof.
  destruct (findCompatibleUsers_sorted db_rank 0 1 user0 traits_u0 eq_refl eq_refl)
    as (out & H1 & H2 & H3 & _).
  - reflexivity.
  - repeat constructor.
  - exists out. auto.
Defined.


(** ** Errors of the ranker *)

(** C5: [findCompatibleUsers] throws exactly when the requester's row
    is absent or its profile is null.  Without a profile the error is
    "User does not have trait vector data", no list is produced, the
    store is untouched, and GET /potential answers with that error
    rather than with a list of matches. *)
Theorem findCompatibleUsers_errors (db : Db) (userId limit : Z) :
  (rejects (findCompatibleUsers userId limit db)
   <-> requester db userId = None
       \/ exists user, requester db userId = Some user
                       /\ User.traitVector user = None)
  /\ (requester db userId = None ->
      findCompatibleUsers userId limit db = (Rejected "User not found", db))
  /\ (forall user,
         requester db userId = Some user -> User.traitVector user = None ->
         findCompatibleUsers userId limit db
         = (Rejected "User does not have trait vector data", db)
         /\ forall communityId n,
             (1 <= n <= 20)%Z ->
             getPotential (mkAuth userId communityId) (Some (Some n)) db
             = (Resolved (mkReply 500 (ErrorBody "User does not have trait vector data")), db)).
Proof.
  pose proof (Ranker.findCompatibleUsers_run db userId limit) as Hrun.
  split; [ | split].
  - unfold rejects. rewrite Hrun.
    destruct (requester db userId) as [user | ].
    + destruct (User.traitVector user) eqn:Ht; cbn [fst]; split.
      * intros (m & E). discriminate E.
      * intros [E | (user' & E & Hn)]; [discriminate E | ]. inversion E; subst. congruence.
      * intros _. right. exists user. auto.
      * intros _. eexists. reflexivity.
    + cbn [fst]. split; [auto | intros _; eexists; reflexivity].
  - intros E. rewrite Hrun, E. reflexivity.
  - intros user E Ht. split.
    + rewrite Hrun, E, Ht. reflexivity.
    + intros communityId n Hn. unfold getPotential, try_catch. cbn [auth_id].
      replace ((n <? 1)%Z || (20 <? n)%Z) with false
        by (symmetry; apply orb_false_iff; split; apply Z.ltb_ge; lia).
      unfold bind. rewrite (Ranker.findCompatibleUsers_run db userId n), E, Ht.
      reflexivity.
Qed.

Example getPotential_no_profile :
  getPotential (mkAuth 5 1) None db_rank
  = (Resolved (mkReply 500 (ErrorBody "User does not have trait vector data")), db_rank).
Proof. vm_compute. reflexivity. Qed.

Example getPotential_unknown_user :
  getPotential (mkAuth 9 1) None db_rank
  = (Resolved (mkReply 500 (ErrorBody "User not found")), db_rank).
Proof. vm_compute. reflexivity. Qed.

(* ================================================================== *)
(** * Part VI: the Reciprocity Resolver                                *)
(* ================================================================== *)

Module Resolver.

Lemma is_match_of_sym (a b : Z) (m : Match.t) :
  prisma.is_match_of a b m = prisma.is_match_of b a m.
Proof. unfold prisma.is_match_of. apply orb_comm. Qed.

Lemma pair_matches_sym (db : Db) (a b : Z) : pair_matches db a b = pair_matches db b a.
Proof. unfold pair_matches. apply filter_ext. intros m. apply is_match_of_sym. Qed.

Lemma find_isSome {A} (p : A -> bool) (l : list A) : isSome (find p l) = existsb p l.
Proof.
  induction l as [ | x l IH]; cbn; [reflexivity | ].
  destruct (p x); [reflexivity | exact IH].
Qed.

Lemma find_filter {A} (p : A -> bool) (l : list A) :
  find p l = hd_error (filter p l).
Proof.
  induction l as [ | x l IH]; cbn; [reflexivity | ].
  destruct (p x); [reflexivity | exact IH].
Qed.

Lemma checkMutualLike_run (a b : Z) (db : Db) :
  checkMutualLike a b db = (Resolved (has_like db a b && has_like db b a), db).
Proof.
  unfold checkMutualLike, bind, prisma.like_findUnique, ret, has_like.
  rewrite !find_isSome. reflexivity.
Qed.

(** The store after [match.create]. *)
Definition created (db : Db) (a b : Z) : Match.t * Db :=
  let m := Match.mk (nextMatchId db) a b in
  (m, mkDb (users db) (likes db) (matches db ++ [m]) (nextMatchId db + 1)).

Lemma createMatchIfMutualLike_run (a b : Z) (db : Db) :
  createMatchIfMutualLike a b db =
  if has_like db a b && has_like db b a
  then match hd_error (pair_matches db a b) with
       | Some m => (Resolved (Some m), db)
       | None => (Resolved (Some (fst (created db a b))), snd (created db a b))
       end
  else (Resolved None, db).
Proof.
  unfold createMatchIfMutualLike. unfold bind at 1. rewrite checkMutualLike_run.
  destruct (has_like db a b && has_like db b a); cbn [negb]; [ | reflexivity].
  unfold bind at 1, prisma.match_findFirst. rewrite find_filter. fold (pair_matches db a b).
  destruct (hd_error (pair_matches db a b)); reflexivity.
Qed.

Lemma is_match_of_new (a b : Z) (n : Z) : prisma.is_match_of a b (Match.mk n a b) = true.
Proof. unfold prisma.is_match_of. cbn. rewrite !Z.eqb_refl. reflexivity. Qed.

Lemma pair_matches_created (db : Db) (a b : Z) :
  pair_matches db a b = [] ->
  pair_matches (snd (created db a b)) a b = [fst (created db a b)].
Proof.
  intros E. unfold pair_matches, created in *. cbn [snd fst matches].
  rewrite filter_app, E. cbn [filter app]. rewrite is_match_of_new. reflexivity.
Qed.

End Resolver.

(** C1: when both directed Likes exist, [createMatchIfMutualLike]
    returns a Match of the pair: the existing one (found in either
    orientation, nothing written) or, when the pair has none, a new row,
    after which the pair has exactly that one Match.  Calling it again,
    with the arguments in either order, returns the same Match and
    writes nothing.  When one of the two Likes is absent it returns
    [null] and writes nothing. *)
Theorem createMatchIfMutualLike_idempotent (db : Db) (a b : Z) :
  (has_like db a b = true -> has_like db b a = true ->
   exists m db',
     createMatchIfMutualLike a b db = (Resolved (Some m), db')
     /\ prisma.is_match_of a b m = true
     /\ (pair_matches db a b = [] ->
         matches db' = matches db ++ [m] /\ pair_matches db' a b = [m])
     /\ (pair_matches db a b <> [] -> db' = db /\ In m (matches db))
     /\ createMatchIfMutualLike a b db' = (Resolved (Some m), db')
     /\ createMatchIfMutualLike b a db' = (Resolved (Some m), db'))
  /\ (has_like db a b = false \/ has_like db b a = false ->
      createMatchIfMutualLike a b db = (Resolved None, db)).
Proof.
  split.
  - intros Hab Hba. rewrite Resolver.createMatchIfMutualLike_run, Hab, Hba. cbn [andb].
    destruct (pair_matches db a b) as [ | m r] eqn:E; cbn [hd_error].
    + pose proof (Resolver.pair_matches_created db a b E) as Hnew.
      exists (fst (Resolver.created db a b)), (snd (Resolver.created db a b)).
      split; [reflexivity | ].
      split; [apply Resolver.is_match_of_new | ].
      split; [intros _; split; [reflexivity | exact Hnew] | ].
      split; [intros H; contradiction H; reflexivity | ].
      rewrite !Resolver.createMatchIfMutualLike_run.
      rewrite <- (Resolver.pair_matches_sym _ a b), Hnew.
      change (has_like (snd (Resolver.created db a b))) with (has_like db).
      rewrite Hab, Hba. split; reflexivity.
    + assert (Hin : In m (pair_matches db a b)) by (rewrite E; left; reflexivity).
      apply filter_In in Hin as [Hin Hm].
      exists m, db. split; [reflexivity | ]. split; [exact Hm | ].
      split; [intros H; discriminate H | ].
      split; [intros _; split; [reflexivity | exact Hin] | ].
      rewrite !Resolver.createMatchIfMutualLike_run.
      rewrite <- (Resolver.pair_matches_sym _ a b), E, Hab, Hba. split; reflexivity.
  - intros H. rewrite Resolver.createMatchIfMutualLike_run.
    destruct H as [-> | ->]; [reflexivity | rewrite andb_false_r; reflexivity].
Qed.

Example like_then_like_back :
  fst (postLike (mkAuth 1 1) 2 db_pair)
  = Resolved (mkReply 201 (LikeCreatedBody true false None))
  /\ fst (postLike (mkAuth 2 1) 1 (snd (postLike (mkAuth 1 1) 2 db_pair)))
     = Resolved (mkReply 201 (LikeCreatedBody true true (Some 1%Z)))
  /\ matches after_mutual_like = [Match.mk 1 2 1]
  /\ createMatchIfMutualLike 1 2 after_mutual_like
     = (Resolved (Some (Match.mk 1 2 1)), after_mutual_like)
  /\ createMatchIfMutualLike 2 1 after_mutual_like
     = (Resolved (Some (Match.mk 1 2 1)), after_mutual_like).
Proof. repeat split; vm_compute; reflexivity. Qed.

Lemma createMatchIfMutualLike_idempotent_witness :
  (exists m db',
      createMatchIfMutualLike 1 2 after_mutual_like = (Resolved (Some m), db')
      /\ prisma.is_match_of 1 2 m = true
      /\ (pair_matches after_mutual_like 1 2 = [] ->
          matches db' = matches after_mutual_like ++ [m] /\ pair_matches db' 1 2 = [m])
      /\ (pair_matches after_mutual_like 1 2 <> [] ->
          db' = after_mutual_like /\ In m (matches after_mutual_like))
      /\ createMatchIfMutualLike 1 2 db' = (Resolved (Some m), db')
      /\ createMatchIfMutualLike 2 1 db' = (Resolved (Some m), db'))
  /\ createMatchIfMutualLike 1 2 (snd (postLike (mkAuth 1 1) 2 db_pair))
     = (Resolved None, snd (postLike (mkAuth 1 1) 2 db_pair)).
Proof.
  split.
  - apply (proj1 (createMatchIfMutualLike_idempotent after_mutual_like 1 2)); reflexivity.
  - apply (proj2 (createMatchIfMutualLike_idempotent
                    (snd (postLike (mkAuth 1 1) 2 db_pair)) 1 2)).
    right. reflexivity.
Defined.

(** ** Unlike *)

Module Unlike.
Import Resolver.

(** The store after [like.delete]. *)
Definition unliked (db : Db) (fromUserId toUserId : Z) : Db :=
  mkDb (users db)
       (filter (fun l => negb (prisma.is_like fromUserId toUserId l)) (likes db))
       (matches db) (nextMatchId db).

(** The store after [match.delete]. *)
Definition unmatched (db : Db) (id : Z) : Db :=
  mkDb (users db) (likes db)
       (filter (fun m => negb (Match.id m =? id)%Z) (matches db))
       (nextMatchId db).

Lemma existsb_id_In (m : Match.t) (l : list Match.t) :
  In m l -> existsb (fun m' => (Match.id m' =? Match.id m)%Z) l = true.
Proof.
  intros H. apply existsb_exists. exists m. split; [exact H | apply Z.eqb_refl].
Qed.

(** What DELETE /like/:userId does once the parameter has parsed. *)
Lemma deleteLike_run (user : AuthUser) (toUserId : Z) (db : Db) :
  deleteLike user (Some toUserId) db =
  if has_like db (auth_id user) toUserId
  then match hd_error (pair_matches db (auth_id user) toUserId) with
       | Some m =>
           (Resolved (mkReply 200 (LikeDeletedBody true true)),
            unmatched (unliked db (auth_id user) toUserId) (Match.id m))
       | None =>
           (Resolved (mkReply 200 (LikeDeletedBody true false)),
            unliked db (auth_id user) toUserId)
       end
  else (Resolved (mkReply 404 (ErrorBody "Like not found")), db).
Proof.
  unfold deleteLike, try_catch at 1. unfold bind at 1. unfold try_catch.
  unfold bind at 1. unfold prisma.like_delete. fold (has_like db (auth_id user) toUserId).
  destruct (has_like db (auth_id user) toUserId); [ | reflexivity].
  fold (unliked db (auth_id user) toUserId). cbn [ret negb].
  unfold bind at 1. unfold prisma.match_findFirst. rewrite find_filter.
  change (filter _ (matches (unliked db (auth_id user) toUserId)))
    with (pair_matches db (auth_id user) toUserId).
  destruct (pair_matches db (auth_id user) toUserId) as [ | m r] eqn:E; cbn [hd_error].
  - reflexivity.
  - unfold bind, prisma.match_delete.
    assert (Hin : In m (matches (unliked db (auth_id user) toUserId))).
    { cbn [unliked matches].
      assert (H : In m (pair_matches db (auth_id user) toUserId)) by (rewrite E; left; reflexivity).
      apply filter_In in H. tauto. }
    rewrite (existsb_id_In m _ Hin). reflexivity.
Qed.

Lemma NoDup_map_eq {A B} (f : A -> B) (l : list A) (x y : A) :
  NoDup (map f l) -> In x l -> In y l -> f x = f y -> x = y.
Proof.
  induction l as [ | z l IH]; cbn [map]; intros ND Hx Hy E; [contradiction | ].
  inversion ND as [ | ? ? Hn ND']; subst.
  destruct Hx as [-> | Hx], Hy as [-> | Hy]; auto.
  - exfalso. apply Hn. rewrite E. apply in_map, Hy.
  - exfalso. apply Hn. rewrite <- E. apply in_map, Hx.
Qed.

Lemma filter_le_1 {A} (p : A -> bool) (l : list A) (x y : A) :
  (List.length (filter p l) <= 1)%nat ->
  In x l -> p x = true -> In y l -> p y = true -> x = y.
Proof.
  intros Hlen Hx Px Hy Py.
  assert (Hx' : In x (filter p l)) by (apply filter_In; auto).
  assert (Hy' : In y (filter p l)) by (apply filter_In; auto).
  destruct (filter p l) as [ | z [ | z' r]]; cbn in *; try lia; try tauto.
  destruct Hx' as [<- | []], Hy' as [<- | []]. reflexivity.
Qed.

(** In a well-formed table the row found for the pair is the only
    row with its id and the only row of the pair. *)
Lemma delete_by_id_is_delete_pair (db : Db) (a b : Z) (m : Match.t) :
  matches_wf db -> In m (matches db) -> prisma.is_match_of a b m = true ->
  filter (fun m' => negb (Match.id m' =? Match.id m)%Z) (matches db)
  = filter (fun m' => negb (prisma.is_match_of a b m')) (matches db).
Proof.
  intros (ND & _ & Hpair) Hin Hm. apply filter_ext_in. intros m' Hin'. f_equal.
  destruct (prisma.is_match_of a b m') eqn:E.
  - rewrite (filter_le_1 _ _ m' m (Hpair a b) Hin' E Hin Hm). apply Z.eqb_refl.
  - apply Z.eqb_neq. intros Hid.
    rewrite (NoDup_map_eq Match.id _ m' m ND Hin' Hin Hid) in E. congruence.
Qed.

Lemma filter_negb_nil {A} (p : A -> bool) (l : list A) :
  filter p (filter (fun x => negb (p x)) l) = [].
Proof.
  induction l as [ | x l IH]; cbn; [reflexivity | ].
  destruct (p x) eqn:E; cbn; [exact IH | rewrite E; exact IH].
Qed.

Lemma filter_negb_id {A} (p : A -> bool) (l : list A) :
  filter p l = [] -> filter (fun x => negb (p x)) l = l.
Proof.
  induction l as [ | x l IH]; cbn; [reflexivity | ].
  destruct (p x); cbn; [discriminate | ]. intros H. rewrite IH by exact H. reflexivity.
Qed.

End Unlike.

(** C2: in a well-formed store, deleting an existing Like
    [fromUserId -> toUserId] through DELETE /like/:userId answers 200
    with [matchDeleted] true exactly when the pair had a Match, removes
    the Like and every Match of the pair and nothing else; when the
    pair had no Match the [match] table is left as it was. *)
Theorem deleteLike_cleanup (db : Db) (user : AuthUser) (toUserId : Z)
    (Hwf : matches_wf db)
    (Hlike : has_like db (auth_id user) toUserId = true) :
  let fromUserId := auth_id user in
  exists db',
    deleteLike user (Some toUserId) db
    = (Resolved (mkReply 200
                   (LikeDeletedBody true
                      (existsb (prisma.is_match_of fromUserId toUserId) (matches db)))),
       db')
    /\ has_like db' fromUserId toUserId = false
    /\ pair_matches db' fromUserId toUserId = []
    /\ pair_matches db' toUserId fromUserId = []
    /\ matches db'
       = filter (fun m => negb (prisma.is_match_of fromUserId toUserId m)) (matches db)
    /\ (pair_matches db fromUserId toUserId = [] -> matches db' = matches db).
Proof.
  intros fromUserId. change (auth_id user) with fromUserId in Hlike.
  rewrite Unlike.deleteLike_run. fold fromUserId. rewrite Hlike.
  assert (Hunliked : has_like (Unlike.unliked db fromUserId toUserId) fromUserId toUserId = false).
  { unfold has_like, Unlike.unliked. cbn [likes].
    apply not_true_is_false. intros H. apply existsb_exists in H as (l & Hl & Hp).
    apply filter_In in Hl as [_ Hl]. rewrite Hp in Hl. discriminate Hl. }
  rewrite <- Resolver.find_isSome, Resolver.find_filter. fold (pair_matches db fromUserId toUserId).
  destruct (pair_matches db fromUserId toUserId) as [ | m r] eqn:E; cbn [hd_error isSome].
  - exists (Unlike.unliked db fromUserId toUserId).
    split; [reflexivity | ]. split; [exact Hunliked | ].
    split; [exact E | ].
    split; [rewrite <- Resolver.pair_matches_sym; exact E | ].
    split; [ | reflexivity].
    cbn [Unlike.unliked matches]. symmetry. apply Unlike.filter_negb_id. exact E.
  - assert (Hin : In m (pair_matches db fromUserId toUserId)) by (rewrite E; left; reflexivity).
    apply filter_In in Hin as [Hin Hm].
    pose proof (Unlike.delete_by_id_is_delete_pair db fromUserId toUserId m Hwf Hin Hm) as Hdel.
    exists (Unlike.unmatched (Unlike.unliked db fromUserId toUserId) (Match.id m)).
    split; [reflexivity | ]. split; [exact Hunliked | ].
    assert (Hnil : pair_matches (Unlike.unmatched (Unlike.unliked db fromUserId toUserId) (Match.id m))
                                fromUserId toUserId = []).
    { unfold pair_matches. cbn [Unlike.unmatched Unlike.unliked matches].
      rewrite Hdel. apply Unlike.filter_negb_nil. }
    split; [exact Hnil | ].
    split; [rewrite <- Resolver.pair_matches_sym; exact Hnil | ].
    split; [exact Hdel | intros H; discriminate H].
Qed.

(** ** The invariant of the match table *)

Module Invariant.
Import Resolver Unlike.

Lemma wf_init (us : list User.t) (n : Z) : matches_wf (mkDb us [] [] n).
Proof.
  repeat split; cbn; [constructor | constructor | intros; lia].
Qed.

(** The invariant only reads the match table and the id counter. *)
Lemma wf_same_matches (db db' : Db) :
  matches db' = matches db -> nextMatchId db' = nextMatchId db ->
  matches_wf db -> matches_wf db'.
Proof.
  unfold matches_wf, pair_matches. intros -> ->. tauto.
Qed.

Lemma same_pair (c d a b n : Z) :
  prisma.is_match_of c d (Match.mk n a b) = true ->
  forall m, prisma.is_match_of c d m = prisma.is_match_of a b m.
Proof.
  unfold prisma.is_match_of. cbn [Match.userAId Match.userBId]. intros H m.
  apply orb_true_iff in H as [H | H]; apply andb_true_iff in H as [H1 H2];
    apply Z.eqb_eq in H1, H2; subst; [reflexivity | apply orb_comm].
Qed.

Lemma wf_created (db : Db) (a b : Z) :
  matches_wf db -> pair_matches db a b = [] -> matches_wf (snd (created db a b)).
Proof.
  intros (ND & Hlt & Hpair) E. unfold matches_wf, created. cbn [snd matches nextMatchId].
  split; [ | split].
  - rewrite map_app. cbn [map Match.id]. apply NoDup_app; [exact ND | repeat constructor; intros [] | ].
    intros i Hi [<- | []]. apply in_map_iff in Hi as (m & Hid & Hm).
    rewrite Forall_forall in Hlt. specialize (Hlt m Hm). lia.
  - apply Forall_app. split.
    + apply Forall_impl with (2 := Hlt). intros m Hm. lia.
    + repeat constructor. cbn. lia.
  - intros c d. unfold pair_matches. cbn [matches]. rewrite filter_app, length_app.
    cbn [filter].
    destruct (prisma.is_match_of c d (Match.mk (nextMatchId db) a b)) eqn:Hm; cbn [List.length].
    + rewrite (filter_ext _ _ (same_pair c d a b _ Hm)).
      fold (pair_matches db a b). rewrite E. cbn. lia.
    + specialize (Hpair c d). unfold pair_matches in Hpair. lia.
Qed.

Lemma wf_filter (db : Db) (p : Match.t -> bool) :
  matches_wf db ->
  matches_wf (mkDb (users db) (likes db) (filter p (matches db)) (nextMatchId db)).
Proof.
  intros (ND & Hlt & Hpair). unfold matches_wf, pair_matches. cbn [matches nextMatchId].
  split; [ | split].
  - clear Hlt Hpair. induction (matches db) as [ | m l IH]; cbn; [constructor | ].
    inversion ND as [ | ? ? Hn ND']; subst.
    destruct (p m); cbn; [ | auto]. constructor; [ | auto].
    intros H. apply Hn. apply in_map_iff in H as (m' & Hid & Hm').
    apply filter_In in Hm' as [Hm' _]. rewrite <- Hid. apply in_map, Hm'.
  - rewrite Forall_forall in *. intros m Hm. apply filter_In in Hm as [Hm _]. auto.
  - intros a b. specialize (Hpair a b). unfold pair_matches in Hpair.
    assert (H : forall l : list Match.t,
               (List.length (filter (prisma.is_match_of a b) (filter p l))
                <= List.length (filter (prisma.is_match_of a b) l))%nat).
    { induction l as [ | m l IH]; cbn; [lia | ].
      destruct (p m), (prisma.is_match_of a b m) eqn:Em; cbn; rewrite ?Em; cbn; lia. }
    specialize (H (matches db)). lia.
Qed.

Lemma wf_createMatchIfMutualLike (a b : Z) (db : Db) :
  matches_wf db -> matches_wf (snd (createMatchIfMutualLike a b db)).
Proof.
  intros Hwf. rewrite createMatchIfMutualLike_run.
  destruct (has_like db a b && has_like db b a); [ | exact Hwf].
  destruct (pair_matches db a b) eqn:E; cbn [hd_error snd]; [ | exact Hwf].
  apply wf_created; assumption.
Qed.

Lemma wf_postLike (user : AuthUser) (toUserId : Z) (db : Db) :
  matches_wf db -> matches_wf (snd (postLike user toUserId db)).
Proof.
  intros Hwf. unfold postLike, try_catch.
  destruct (auth_id user =? toUserId)%Z; [exact Hwf | ].
  unfold bind at 1, prisma.user_findUnique.
  destruct (find _ (users db)) as [toUser | ]; [ | exact Hwf].
  destruct (negb (User.communityId toUser =? auth_communityId user)%Z); [exact Hwf | ].
  unfold bind at 1, prisma.like_findUnique.
  destruct (isSome (find _ (likes db))); [exact Hwf | ].
  unfold bind at 1, prisma.like_create.
  destruct (_ && _ && negb _); [ | exact Hwf].
  set (db1 := mkDb (users db) (likes db ++ _) (matches db) (nextMatchId db)).
  assert (Hwf1 : matches_wf db1) by (apply (wf_same_matches db db1); auto).
  pose proof (wf_createMatchIfMutualLike (auth_id user) toUserId db1 Hwf1) as H.
  unfold bind. destruct (createMatchIfMutualLike (auth_id user) toUserId db1) as [[m | e] db2];
    exact H.
Qed.

Lemma wf_deleteLike (user : AuthUser) (userIdParam : option Z) (db : Db) :
  matches_wf db -> matches_wf (snd (deleteLike user userIdParam db)).
Proof.
  intros Hwf. destruct userIdParam as [toUserId | ]; [ | exact Hwf].
  rewrite deleteLike_run.
  assert (Hwf1 : matches_wf (unliked db (auth_id user) toUserId))
    by (apply (wf_same_matches db); auto).
  destruct (has_like db (auth_id user) toUserId); [ | exact Hwf].
  destruct (hd_error _); cbn [snd]; [ | exact Hwf1].
  apply (wf_filter (unliked db (auth_id user) toUserId)), Hwf1.
Qed.

(** Every store the handlers can reach is well-formed. *)
Lemma reachable_wf (db : Db) : reachable db -> matches_wf db.
Proof.
  induction 1; [apply wf_init | apply wf_postLike; assumption | apply wf_deleteLike; assumption].
Qed.

End Invariant.

Example unlike_after_match :
  fst (deleteLike (mkAuth 1 1) (Some 2%Z) after_mutual_like)
  = Resolved (mkReply 200 (LikeDeletedBody true true))
  /\ matches (snd (deleteLike (mkAuth 1 1) (Some 2%Z) after_mutual_like)) = []
  /\ fst (deleteLike (mkAuth 2 1) (Some 1%Z) after_mutual_like)
     = Resolved (mkReply 200 (LikeDeletedBody true true))
  /\ matches (snd (deleteLike (mkAuth 2 1) (Some 1%Z) after_mutual_like)) = []
  /\ fst (deleteLike (mkAuth 1 1) (Some 2%Z) (snd (postLike (mkAuth 1 1) 2 db_pair)))
     = Resolved (mkReply 200 (LikeDeletedBody true false)).
Proof. repeat split; vm_compute; reflexivity. Qed.

Lemma after_mutual_like_reachable : reachable after_mutual_like.
Proof.
  unfold after_mutual_like. apply reach_postLike, reach_postLike.
  exact (reach_init _ _).
Qed.

Lemma deleteLike_cleanup_witness :
  exists db',
    deleteLike (mkAuth 2 1) (Some 1%Z) after_mutual_like
    = (Resolved (mkReply 200
                   (LikeDeletedBody true
                      (existsb (prisma.is_match_of 2 1) (matches after_mutual_like)))),
       db')
    /\ has_like db' 2 1 = false
    /\ pair_matches db' 2 1 = []
    /\ pair_matches db' 1 2 = []
    /\ matches db' = filter (fun m => negb (prisma.is_match_of 2 1 m)) (matches after_mutual_like)
    /\ (pair_matches after_mutual_like 2 1 = [] -> matches db' = matches after_mutual_like).
Proof.
  apply (deleteLike_cleanup after_mutual_like (mkAuth 2 1) 1).
  - apply Invariant.reachable_wf, after_mutual_like_reachable.
  - reflexivity.
Defined.

(* ================================================================== *)
(** * Part VII: the ranker and the like handlers, further          *)
(* ================================================================== *)

Module Stability.
Import FloatFacts.

Section Generic.
Context {A : Type} (cmp : A -> A -> Js.number) (p : A -> bool).
Hypothesis tie : forall x y, p x = true -> p y = true -> (0 <? cmp y x)%float = false.

Lemma insert_filter (x : A) (prefix : list A) :
  filter p (Js.insert cmp x prefix) = filter p (x :: prefix).
Proof.
  induction prefix as [ | y r IH]; cbn [Js.insert]; [reflexivity | ].
  destruct (0 <? cmp y x)%float eqn:E; [ | reflexivity].
  cbn [filter] in *. rewrite IH.
  destruct (p x) eqn:Px, (p y) eqn:Py; try reflexivity.
  rewrite (tie x y Px Py) in E. discriminate E.
Qed.

Lemma fold_insert_filter (l prefix : list A) :
  filter p (fold_left (fun q x => Js.insert cmp x q) l prefix)
  = filter p (rev l ++ prefix).
Proof.
  revert prefix. induction l as [ | x l IH]; intros prefix; cbn [fold_left rev]; [reflexivity | ].
  rewrite IH, !filter_app, insert_filter, <- app_assoc.
  change (x :: prefix) with ([x] ++ prefix). rewrite filter_app. reflexivity.
Qed.

(** The sort keeps the elements selected by [p] in their order. *)
Lemma sort_filter (l : list A) : filter p (Js.sort cmp l) = filter p l.
Proof.
  unfold Js.sort. rewrite filter_rev, fold_insert_filter, app_nil_r, filter_rev.
  apply rev_involutive.
Qed.
End Generic.

Lemma eqb_key (x v : float) :
  (x =? v)%float = true ->
  PrimFloat.is_nan x = false /\ PrimFloat.is_nan v = false
  /\ key (Prim2SF x) = key (Prim2SF v).
Proof.
  rewrite !is_nan_spec, FloatAxioms.eqb_spec. unfold SFeqb, SFcompare.
  destruct (Prim2SF x) as [sx | [ | ] | | [ | ] mx ex];
    destruct (Prim2SF v) as [sv | [ | ] | | [ | ] mv ev]; cbn [is_nan_sf key];
    try discriminate; try (intros _; repeat split; reflexivity).
  - destruct (Z.compare_spec ex ev); try discriminate. subst ev.
    change (PosDef.Pos.compare_cont Eq mx mv) with (Pos.compare mx mv).
    destruct (Pos.compare_spec mx mv); cbn [CompOpp]; try discriminate. subst mv. auto.
  - destruct (Z.compare_spec ex ev); try discriminate. subst ev.
    change (PosDef.Pos.compare_cont Eq mx mv) with (Pos.compare mx mv).
    destruct (Pos.compare_spec mx mv); try discriminate. subst mv. auto.
Qed.

(** Entries with the same score are never reordered by the
    comparator. *)
Lemma by_score_desc_tie (v : Js.number) (x y : Scored.t) :
  (Scored.similarityScore x =? v)%float = true ->
  (Scored.similarityScore y =? v)%float = true ->
  (0 <? by_score_desc y x)%float = false.
Proof.
  intros Hx Hy. unfold by_score_desc. rewrite sub_pos_ltb.
  destruct (eqb_key _ _ Hx) as (Nx & _ & Kx).
  destruct (eqb_key _ _ Hy) as (Ny & _ & Ky).
  destruct (Scored.similarityScore y <? Scored.similarityScore x)%float eqn:E; [ | reflexivity].
  apply (ltb_lexlt _ _ Ny Nx) in E. rewrite Kx, Ky in E.
  exfalso. unfold lexlt in E. destruct (key (Prim2SF v)) as [[a b] c]. lia.
Qed.

Lemma sort_with_score (v : Js.number) (l : list Scored.t) :
  with_score v (Js.sort by_score_desc l) = with_score v l.
Proof.
  unfold with_score. apply sort_filter. intros x y. apply by_score_desc_tie.
Qed.

Lemma slice0_length {A} (limit : Z) (l : list A) :
  (0 <= limit)%Z ->
  List.length (Js.slice0 limit l) = Nat.min (Z.to_nat limit) (List.length l).
Proof.
  intros H. unfold Js.slice0. destruct (Z.ltb_spec limit 0); [lia | ].
  apply length_firstn.
Qed.

Lemma scoredCandidates_length (db : Db) (user : User.t) (userId : Z) (userTraits : UserTraits) :
  List.length (scoredCandidates userTraits (candidateSet db user userId))
  = List.length (candidateSet db user userId).
Proof.
  rewrite <- (length_map Some), Ranker.scoredCandidates_map, length_map; [reflexivity | ].
  intros c Hc. apply Ranker.candidateSet_In in Hc. tauto.
Qed.

End Stability.

(** X2: ranking loses nothing, and is stable where the scores are
    numbers.  For a requester with a profile, [findCompatibleUsers]
    returns the first [limit] entries of a list that is a rearrangement
    of the scored Candidate Set (no entry lost, none repeated); for
    [limit >= 0] the result holds exactly [min(limit, number of
    candidates)] entries.  When no score is [NaN], the entries whose
    score equals [v] stand, for every [v], in the order in which the
    candidates were fetched.  (With a [NaN] score the comparator is
    inconsistent and the order is left to the engine.) *)
Theorem findCompatibleUsers_stable
    (db : Db) (userId limit : Z) (user : User.t) (userTraits : UserTraits)
    (Huser : requester db userId = Some user)
    (Htraits : User.traitVector user = Some userTraits) :
  let scored := scoredCandidates userTraits (candidateSet db user userId) in
  exists ranked,
    findCompatibleUsers userId limit db = (Resolved (Js.slice0 limit ranked), db)
    /\ Permutation ranked scored
    /\ (Forall is_number scored -> forall v, with_score v ranked = with_score v scored)
    /\ ((0 <= limit)%Z ->
        List.length (Js.slice0 limit ranked)
        = Nat.min (Z.to_nat limit) (List.length (candidateSet db user userId))).
Proof.
  intros scored. exists (Js.sort by_score_desc scored).
  pose proof (Ranker.findCompatibleUsers_run db userId limit) as Hrun.
  rewrite Huser, Htraits in Hrun. fold scored in Hrun.
  split; [exact Hrun | ].
  split; [apply SortFacts.sort_perm | ].
  split; [intros _ v; apply Stability.sort_with_score | ].
  intros Hl. rewrite Stability.slice0_length by exact Hl.
  rewrite (Permutation_length (SortFacts.sort_perm by_score_desc scored)).
  unfold scored. rewrite Stability.scoredCandidates_length. reflexivity.
Qed.

Lemma findCompatibleUsers_stable_witness :
  exists ranked,
    findCompatibleUsers 0 10 db_rank = (Resolved (Js.slice0 10 ranked), db_rank)
    /\ Permutation ranked (scoredCandidates traits_u0 (candidateSet db_rank user0 0))
    /\ (forall v, with_score v ranked
                  = with_score v (scoredCandidates traits_u0 (candidateSet db_rank user0 0)))
    /\ ((0 <= 10)%Z ->
        List.length (Js.slice0 10 ranked)
        = Nat.min (Z.to_nat 10) (List.length (candidateSet db_rank user0 0))).
Proof.
  destruct (findCompatibleUsers_stable db_rank 0 10 user0 traits_u0 eq_refl eq_refl)
    as (ranked & H1 & H2 & H3 & H4).
  exists ranked. split; [exact H1 | split; [exact H2 | split; [ | exact H4]]].
  apply H3. repeat constructor.
Defined.

(** X3: GET /potential never writes and bounds its answer.  The store
    is left as it was; the reply is 400 "Limit must be between 1 and
    20" exactly when the limit (5 when the query has none) is below 1
    or above 20, and also when it does not parse; for a limit [n] in
    range the reply is 200 with the list [findCompatibleUsers] returns,
    of at most [n] entries, or 500 with the message
    [findCompatibleUsers] threw. *)
Theorem getPotential_bounded (user : AuthUser) (limitQuery : option (option Z)) (db : Db) :
  let limit := match limitQuery with Some l => l | None => Some 5%Z end in
  snd (getPotential user limitQuery db) = db
  /\ (forall n, limit = Some n ->
        ((n < 1)%Z \/ (20 < n)%Z <->
         fst (getPotential user limitQuery db)
         = Resolved (mkReply 400 (ErrorBody "Limit must be between 1 and 20"))))
  /\ (limit = None ->
      fst (getPotential user limitQuery db)
      = Resolved (mkReply 400 (ErrorBody "Limit must be between 1 and 20")))
  /\ (forall n, limit = Some n -> (1 <= n <= 20)%Z ->
        match fst (findCompatibleUsers (auth_id user) n db) with
        | Resolved out =>
            fst (getPotential user limitQuery db) = Resolved (mkReply 200 (MatchesBody out))
            /\ (List.length out <= Z.to_nat n)%nat
        | Rejected message =>
            fst (getPotential user limitQuery db) = Resolved (mkReply 500 (ErrorBody message))
        end).
Proof.
  intros limit.
  assert (Hrun : forall n, limit = Some n -> (1 <= n <= 20)%Z ->
            getPotential user limitQuery db
            = match fst (findCompatibleUsers (auth_id user) n db) with
              | Resolved out => (Resolved (mkReply 200 (MatchesBody out)), db)
              | Rejected message => (Resolved (mkReply 500 (ErrorBody message)), db)
              end).
  { intros n Hn Hr. unfold getPotential, try_catch. fold limit. rewrite Hn.
    replace ((n <? 1)%Z || (20 <? n)%Z) with false
      by (symmetry; apply orb_false_iff; split; apply Z.ltb_ge; lia).
    unfold bind. rewrite (Ranker.findCompatibleUsers_run db (auth_id user) n).
    destruct (requester db (auth_id user)) as [u | ]; [ | reflexivity].
    destruct (User.traitVector u); reflexivity. }
  assert (Hbad : forall n, limit = Some n -> (n < 1)%Z \/ (20 < n)%Z ->
            getPotential user limitQuery db
            = (Resolved (mkReply 400 (ErrorBody "Limit must be between 1 and 20")), db)).
  { intros n Hn Hr. unfold getPotential, try_catch. fold limit. rewrite Hn.
    replace ((n <? 1)%Z || (20 <? n)%Z) with true; [reflexivity | ].
    symmetry. apply orb_true_iff. destruct Hr; [left | right]; apply Z.ltb_lt; assumption. }
  assert (Hnan : limit = None ->
            getPotential user limitQuery db
            = (Resolved (mkReply 400 (ErrorBody "Limit must be between 1 and 20")), db)).
  { intros Hn. unfold getPotential, try_catch. fold limit. rewrite Hn. reflexivity. }
  split; [ | split; [ | split]].
  - destruct limit as [n | ] eqn:E; [ | rewrite Hnan; reflexivity].
    destruct (Z.lt_ge_cases n 1) as [H | H]; [rewrite (Hbad n); auto | ].
    destruct (Z.lt_ge_cases 20 n) as [H' | H']; [rewrite (Hbad n); auto | ].
    rewrite (Hrun n) by (auto; lia).
    destruct (fst (findCompatibleUsers (auth_id user) n db)); reflexivity.
  - intros n Hn. split.
    + intros Hr. rewrite (Hbad n Hn Hr). reflexivity.
    + intros E. destruct (Z.lt_ge_cases n 1) as [H | H]; [auto | ].
      destruct (Z.lt_ge_cases 20 n) as [H' | H']; [auto | ].
      rewrite (Hrun n Hn) in E by lia.
      destruct (fst (findCompatibleUsers (auth_id user) n db)); discriminate E.
  - intros Hn. rewrite (Hnan Hn). reflexivity.
  - intros n Hn Hr. rewrite (Hrun n Hn Hr).
    pose proof (Ranker.findCompatibleUsers_run db (auth_id user) n) as Hf.
    destruct (findCompatibleUsers (auth_id user) n db) as [[out | message] db'] eqn:E;
      cbn [fst]; [ | reflexivity].
    split; [reflexivity | ].
    destruct (requester db (auth_id user)) as [u | ]; [ | discriminate Hf].
    destruct (User.traitVector u); [ | discriminate Hf].
    inversion Hf; subst out. unfold Js.slice0.
    destruct (Z.ltb_spec n 0); [lia | ]. apply firstn_le_length.
Qed.

(* ================================================================== *)
(** * Likes, Matches and the candidates                                *)
(* ================================================================== *)

Module Liking.
Import Resolver Unlike Invariant.

(** The store after [like.create]. *)
Definition liked (db : Db) (a b : Z) : Db := with_like db (Like.mk a b).

Lemma find_user_exists (db : Db) (id : Z) (u : User.t) :
  requester db id = Some u -> user_exists db id = true.
Proof.
  unfold requester, user_exists. rewrite <- find_isSome. intros ->. reflexivity.
Qed.

(** What POST /like does. *)
Lemma postLike_run (user : AuthUser) (toUserId : Z) (db : Db) :
  postLike user toUserId db =
  if (auth_id user =? toUserId)%Z
  then (Resolved (mkReply 400 (ErrorBody "Cannot like yourself")), db)
  else
    match requester db toUserId with
    | None => (Resolved (mkReply 404 (ErrorBody "User not found")), db)
    | Some toUser =>
        if negb (User.communityId toUser =? auth_communityId user)%Z
        then (Resolved (mkReply 403 (ErrorBody "Cannot like users from different communities")), db)
        else if has_like db (auth_id user) toUserId
        then (Resolved (mkReply 400 (ErrorBody "User already liked")), db)
        else if negb (user_exists db (auth_id user))
        then (Resolved (mkReply 500 (ErrorBody "Server error creating like")), db)
        else
          let db1 := liked db (auth_id user) toUserId in
          if has_like db toUserId (auth_id user)
          then match hd_error (pair_matches db (auth_id user) toUserId) with
               | Some m =>
                   (Resolved (mkReply 201 (LikeCreatedBody true true (Some (Match.id m)))), db1)
               | None =>
                   (Resolved (mkReply 201 (LikeCreatedBody true true (Some (nextMatchId db)))),
                    snd (created db1 (auth_id user) toUserId))
               end
          else (Resolved (mkReply 201 (LikeCreatedBody true false None)), db1)
    end.
Proof.
  unfold postLike, try_catch.
  destruct (auth_id user =? toUserId)%Z eqn:Hself; [reflexivity | ].
  unfold bind at 1, prisma.user_findUnique. fold (requester db toUserId).
  destruct (requester db toUserId) as [toUser | ] eqn:Hto; [ | reflexivity].
  destruct (negb (User.communityId toUser =? auth_communityId user)%Z); [reflexivity | ].
  unfold bind at 1, prisma.like_findUnique. rewrite find_isSome.
  fold (has_like db (auth_id user) toUserId).
  destruct (has_like db (auth_id user) toUserId) eqn:Hlike; [reflexivity | ].
  unfold bind at 1, prisma.like_create.
  fold (user_exists db (auth_id user)) (user_exists db toUserId)
       (has_like db (auth_id user) toUserId).
  rewrite Hlike, (find_user_exists db toUserId toUser Hto). cbn [negb andb].
  rewrite andb_true_r.
  destruct (user_exists db (auth_id user)); cbn [negb andb]; [ | reflexivity].
  fold (with_like db (Like.mk (auth_id user) toUserId)).
  fold (liked db (auth_id user) toUserId).
  unfold bind at 1. rewrite createMatchIfMutualLike_run.
  assert (H1 : has_like (liked db (auth_id user) toUserId) (auth_id user) toUserId = true).
  { unfold has_like, liked, with_like. cbn [likes]. rewrite existsb_app. cbn [existsb].
    unfold prisma.is_like at 2. cbn [Like.fromUserId Like.toUserId].
    rewrite !Z.eqb_refl. cbn. apply orb_true_r. }
  assert (H2 : has_like (liked db (auth_id user) toUserId) toUserId (auth_id user)
               = has_like db toUserId (auth_id user)).
  { unfold has_like, liked, with_like. cbn [likes]. rewrite existsb_app. cbn [existsb].
    unfold prisma.is_like at 2. cbn [Like.fromUserId Like.toUserId].
    rewrite (Z.eqb_sym toUserId), Hself. cbn. rewrite !orb_false_r. reflexivity. }
  rewrite H1, H2. cbn [andb].
  change (pair_matches (liked db (auth_id user) toUserId))
    with (pair_matches db).
  destruct (has_like db toUserId (auth_id user)); [ | reflexivity].
  destruct (hd_error (pair_matches db (auth_id user) toUserId)); reflexivity.
Qed.

(** *** How the tables change *)

Lemma has_like_liked (db : Db) (u v a b : Z) :
  has_like (liked db u v) a b = true <-> has_like db a b = true \/ (a = u /\ b = v).
Proof.
  unfold has_like, liked, with_like. cbn [likes]. rewrite existsb_app, orb_true_iff.
  cbn [existsb]. unfold prisma.is_like at 2. cbn [Like.fromUserId Like.toUserId].
  rewrite orb_false_r, andb_true_iff, !Z.eqb_eq. intuition auto.
Qed.

Lemma has_like_unliked (db : Db) (u v a b : Z) :
  has_like (unliked db u v) a b = true <-> has_like db a b = true /\ ~ (a = u /\ b = v).
Proof.
  unfold has_like, unliked. cbn [likes]. rewrite !existsb_exists. split.
  - intros (l & Hl & Hp). apply filter_In in Hl as [Hl Hn]. split; [exists l; auto | ].
    intros [-> ->]. rewrite Hp in Hn. discriminate Hn.
  - intros ((l & Hl & Hp) & Hn). exists l. split; [ | exact Hp].
    apply filter_In. split; [exact Hl | ].
    apply negb_true_iff, not_true_is_false. intros Hq. apply Hn.
    unfold prisma.is_like in Hp, Hq.
    apply andb_true_iff in Hp as [P1 P2]. apply andb_true_iff in Hq as [Q1 Q2].
    apply Z.eqb_eq in P1, P2, Q1, Q2. split; congruence.
Qed.

Lemma is_match_of_iff (a b : Z) (m : Match.t) :
  prisma.is_match_of a b m = true
  <-> (Match.userAId m = a /\ Match.userBId m = b)
      \/ (Match.userAId m = b /\ Match.userBId m = a).
Proof.
  unfold prisma.is_match_of. rewrite orb_true_iff, !andb_true_iff, !Z.eqb_eq. tauto.
Qed.

Lemma matched_iff (db : Db) (a b : Z) :
  matched db a b = true <-> exists m, In m (matches db) /\ prisma.is_match_of a b m = true.
Proof. unfold matched. apply existsb_exists. Qed.

Lemma matched_pair_matches (db : Db) (a b : Z) :
  matched db a b = false <-> pair_matches db a b = [].
Proof.
  unfold matched, pair_matches. rewrite <- find_isSome, find_filter.
  destruct (filter _ (matches db)); cbn; split; congruence.
Qed.

Lemma matched_created (db : Db) (u v a b : Z) :
  matched (snd (created db u v)) a b = true
  <-> matched db a b = true \/ (a = u /\ b = v) \/ (a = v /\ b = u).
Proof.
  unfold matched, created. cbn [snd matches]. rewrite existsb_app, orb_true_iff.
  cbn [existsb]. rewrite orb_false_r, is_match_of_iff. cbn [Match.userAId Match.userBId].
  intuition auto.
Qed.

Lemma matched_without_pair (db : Db) (u v a b : Z) :
  existsb (prisma.is_match_of a b)
          (filter (fun m => negb (prisma.is_match_of u v m)) (matches db)) = true
  <-> matched db a b = true /\ ~ ((a = u /\ b = v) \/ (a = v /\ b = u)).
Proof.
  rewrite matched_iff, existsb_exists. split.
  - intros (m & Hm & Hp). apply filter_In in Hm as [Hm Hn].
    split; [exists m; auto | ].
    apply negb_true_iff in Hn. intros H.
    assert (Hq : prisma.is_match_of u v m = true).
    { apply is_match_of_iff. apply is_match_of_iff in Hp. intuition congruence. }
    congruence.
  - intros ((m & Hm & Hp) & Hn). exists m. split; [ | exact Hp].
    apply filter_In. split; [exact Hm | ].
    apply negb_true_iff, not_true_is_false. intros Hq. apply Hn.
    apply is_match_of_iff in Hp, Hq. intuition congruence.
Qed.

(** *** The invariant of the two tables *)

Definition likes_wf (db : Db) : Prop :=
  (forall a b, matched db a b = true <-> has_like db a b = true /\ has_like db b a = true)
  /\ (forall a, has_like db a a = false)
  /\ NoDup (likes db).

Lemma likes_wf_init (us : list User.t) (n : Z) : likes_wf (mkDb us [] [] n).
Proof.
  repeat split; cbn; try discriminate; try tauto; try constructor.
Qed.

Lemma not_has_like_In (db : Db) (a b : Z) :
  has_like db a b = false -> ~ In (Like.mk a b) (likes db).
Proof.
  intros H Hin. unfold has_like in H.
  assert (E : existsb (prisma.is_like a b) (likes db) = true).
  { apply existsb_exists. exists (Like.mk a b). split; [exact Hin | ].
    unfold prisma.is_like. cbn. rewrite !Z.eqb_refl. reflexivity. }
  congruence.
Qed.

Lemma likes_wf_postLike (user : AuthUser) (toUserId : Z) (db : Db) :
  likes_wf db -> likes_wf (snd (postLike user toUserId db)).
Proof.
  intros Hwf. rewrite postLike_run.
  destruct (Z.eqb_spec (auth_id user) toUserId) as [ | Hne]; [exact Hwf | ].
  destruct (requester db toUserId) as [toUser | ]; [ | exact Hwf].
  destruct (negb _); [exact Hwf | ].
  destruct (has_like db (auth_id user) toUserId) eqn:Hlike; [exact Hwf | ].
  destruct (negb _); [exact Hwf | ].
  set (u := auth_id user) in *. set (v := toUserId) in *.
  destruct Hwf as (Hm & Hself & ND).
  assert (ND1 : NoDup (likes (liked db u v))).
  { unfold liked, with_like. cbn [likes]. apply NoDup_app; [exact ND | repeat constructor; intros [] | ].
    intros l Hl [<- | []]. exact (not_has_like_In db u v Hlike Hl). }
  assert (Hself1 : forall a, has_like (liked db u v) a a = false).
  { intros a. apply not_true_is_false. intros H. apply has_like_liked in H as [H | [-> H]].
    - rewrite Hself in H. discriminate H.
    - apply Hne. exact H. }
  assert (Hnomatch : pair_matches db u v = []).
  { apply matched_pair_matches, not_true_is_false. intros H. apply Hm in H as [H _]. congruence. }
  destruct (has_like db v u) eqn:Hback.
  - rewrite Hnomatch. cbn [hd_error snd].
    split; [ | split; [exact Hself1 | exact ND1]].
    intros a b. rewrite matched_created.
    change (matched (liked db u v) a b) with (matched db a b).
    change (has_like (snd (created (liked db u v) u v))) with (has_like (liked db u v)).
    rewrite !has_like_liked, Hm. intuition (subst; auto).
  - cbn [snd]. split; [ | split; [exact Hself1 | exact ND1]].
    intros a b. change (matched (liked db u v) a b) with (matched db a b).
    rewrite !has_like_liked, Hm. intuition (subst; auto; congruence).
Qed.

Lemma likes_wf_deleteLike (user : AuthUser) (userIdParam : option Z) (db : Db) :
  matches_wf db -> likes_wf db -> likes_wf (snd (deleteLike user userIdParam db)).
Proof.
  intros Hmwf Hwf. destruct userIdParam as [toUserId | ]; [ | exact Hwf].
  rewrite deleteLike_run.
  destruct (has_like db (auth_id user) toUserId) eqn:Hlike; [ | exact Hwf].
  set (u := auth_id user) in *. set (v := toUserId) in *.
  destruct Hwf as (Hm & Hself & ND).
  assert (ND1 : NoDup (likes (unliked db u v))).
  { unfold unliked. cbn [likes]. apply NoDup_filter, ND. }
  assert (Hself1 : forall a, has_like (unliked db u v) a a = false).
  { intros a. apply not_true_is_false. intros H. apply has_like_unliked in H as [H _].
    rewrite Hself in H. discriminate H. }
  destruct (pair_matches db u v) as [ | m r] eqn:E; cbn [hd_error snd].
  - split; [ | split; [exact Hself1 | exact ND1]].
    intros a b. change (matched (unliked db u v) a b) with (matched db a b).
    rewrite !has_like_unliked, Hm.
    apply matched_pair_matches in E.
    assert (Hnot : ~ (has_like db u v = true /\ has_like db v u = true)).
    { intros H. apply Hm in H. congruence. }
    intuition (subst; auto).
  - assert (Hin : In m (pair_matches db u v)) by (rewrite E; left; reflexivity).
    apply filter_In in Hin as [Hin Hp].
    split; [ | split; [exact Hself1 | exact ND1]].
    intros a b.
    change (has_like (unmatched (unliked db u v) (Match.id m)))
      with (has_like (unliked db u v)).
    unfold matched, unmatched. cbn [matches unliked].
    rewrite (delete_by_id_is_delete_pair db u v m Hmwf Hin Hp).
    rewrite matched_without_pair, !has_like_unliked, Hm.
    assert (Huv : u <> v).
    { intros H. rewrite <- H, Hself in Hlike. discriminate Hlike. }
    intuition (subst; auto; congruence).
Qed.

Lemma reachable_likes_wf (db : Db) : reachable db -> likes_wf db.
Proof.
  induction 1 as [us n | db user toUserId Hr IH | db user userIdParam Hr IH].
  - apply likes_wf_init.
  - apply likes_wf_postLike, IH.
  - apply likes_wf_deleteLike; [apply reachable_wf, Hr | exact IH].
Qed.

End Liking.

(** X4: Matches are exactly the mutual Likes.  In every store the
    like and unlike handlers can produce from one without Likes and
    Matches, taking the requests one at a time, a pair of users has a
    Match row if and only if each has liked the other, and then exactly
    one; nobody likes themself and no Like is stored twice. *)
Theorem matches_are_mutual_likes (db : Db) (Hreach : reachable db) :
  (forall a b, matched db a b = mutual_like db a b)
  /\ (forall a b, List.length (pair_matches db a b)
                  = if mutual_like db a b then 1%nat else 0%nat)
  /\ (forall a, has_like db a a = false)
  /\ NoDup (likes db).
Proof.
  destruct (Liking.reachable_likes_wf db Hreach) as (Hm & Hself & ND).
  destruct (Invariant.reachable_wf db Hreach) as (_ & _ & Hpair).
  assert (H : forall a b, matched db a b = mutual_like db a b).
  { intros a b. unfold mutual_like. specialize (Hm a b).
    rewrite <- andb_true_iff in Hm.
    destruct (matched db a b), (has_like db a b && has_like db b a);
      try reflexivity; intuition congruence. }
  split; [exact H | split; [ | split; [exact Hself | exact ND]]].
  intros a b. rewrite <- H. specialize (Hpair a b).
  destruct (matched db a b) eqn:E.
  - destruct (pair_matches db a b) as [ | m [ | m' r]] eqn:Ep; cbn in *; try lia.
    apply Liking.matched_pair_matches in Ep. congruence.
  - apply Liking.matched_pair_matches in E. rewrite E. reflexivity.
Qed.

Lemma matches_are_mutual_likes_witness :
  (forall a b, matched after_mutual_like a b = mutual_like after_mutual_like a b)
  /\ (forall a b, List.length (pair_matches after_mutual_like a b)
                  = if mutual_like after_mutual_like a b then 1%nat else 0%nat)
  /\ (forall a, has_like after_mutual_like a a = false)
  /\ NoDup (likes after_mutual_like).
Proof.
  exact (matches_are_mutual_likes after_mutual_like after_mutual_like_reachable).
Defined.

Module Candidates.
Import Liking.

Lemma candidateSet_ext (db db' : Db) (me : User.t) (u : Z) :
  users db' = users db -> likes db' = likes db ->
  candidateSet db' me u = candidateSet db me u.
Proof. unfold candidateSet. intros -> ->. reflexivity. Qed.

Lemma findCompatibleUsers_ext (db db' : Db) (u limit : Z) :
  users db' = users db -> likes db' = likes db ->
  fst (findCompatibleUsers u limit db') = fst (findCompatibleUsers u limit db).
Proof.
  intros Hu Hl. rewrite !Ranker.findCompatibleUsers_run. unfold requester. rewrite Hu.
  destruct (find _ (users db)) as [me | ]; [ | reflexivity].
  destruct (User.traitVector me); [ | reflexivity].
  rewrite (candidateSet_ext db db' me u Hu Hl). reflexivity.
Qed.

(** The Candidate Set once [u] has liked [v]. *)
Lemma candidateSet_liked (db : Db) (me : User.t) (u v : Z) :
  candidateSet (liked db u v) me u
  = filter (fun c => negb (User.id c =? v)%Z) (candidateSet db me u).
Proof.
  unfold candidateSet, potentialMatches, liked, with_like. cbn [users likes].
  induction (filter (fun u0 => (User.communityId u0 =? User.communityId me)%Z
                               && negb (User.id u0 =? u)%Z) (users db)) as [ | c l IH];
    [reflexivity | ].
  cbn [map filter fst snd]. rewrite filter_app, length_app. cbn [filter].
  unfold prisma.is_like at 2. cbn [Like.fromUserId Like.toUserId]. rewrite Z.eqb_refl.
  cbn [andb]. rewrite (Z.eqb_sym v).
  destruct (User.id c =? v)%Z eqn:E; cbn [List.length].
  - replace (List.length _ + 1 =? 0)%nat with false by (symmetry; apply Nat.eqb_neq; lia).
    cbn [andb]. rewrite IH.
    destruct (_ && _); cbn [map filter fst]; rewrite ?E; reflexivity.
  - rewrite Nat.add_0_r.
    destruct (_ && _); cbn [map filter fst]; rewrite ?E; cbn [negb]; rewrite IH; reflexivity.
Qed.

(** What a 201 reply of POST /like says about the store. *)
Lemma postLike_201 (user : AuthUser) (toUserId : Z) (db : Db) (body : Body) :
  fst (postLike user toUserId db) = Resolved (mkReply 201 body) ->
  auth_id user <> toUserId
  /\ (exists toUser, requester db toUserId = Some toUser
                     /\ User.communityId toUser = auth_communityId user)
  /\ has_like db (auth_id user) toUserId = false
  /\ user_exists db (auth_id user) = true
  /\ users (snd (postLike user toUserId db)) = users db
  /\ likes (snd (postLike user toUserId db)) = likes (liked db (auth_id user) toUserId).
Proof.
  rewrite postLike_run.
  destruct (Z.eqb_spec (auth_id user) toUserId) as [ | Hne]; [discriminate | ].
  destruct (requester db toUserId) as [toUser | ]; [ | discriminate].
  destruct (Z.eqb_spec (User.communityId toUser) (auth_communityId user)) as [Hc | ];
    cbn [negb]; [ | discriminate].
  destruct (has_like db (auth_id user) toUserId); [discriminate | ].
  destruct (user_exists db (auth_id user)); cbn [negb]; [ | discriminate].
  intros _. split; [exact Hne | ]. split; [exists toUser; auto | ].
  split; [reflexivity | ]. split; [reflexivity | ].
  destruct (has_like db toUserId (auth_id user)); [ | split; reflexivity].
  destruct (hd_error _); split; reflexivity.
Qed.

End Candidates.

(** X5: a liked user leaves the potential matches.  When POST /like
    answers 201, the requester's Candidate Set afterwards is the one
    before without the liked user, who appears in no later result of
    [findCompatibleUsers] for the requester; the Candidate Set and the
    ranking of every other user are unchanged. *)
Theorem liked_user_leaves_candidates
    (user : AuthUser) (toUserId : Z) (db : Db) (body : Body)
    (Hcreated : fst (postLike user toUserId db) = Resolved (mkReply 201 body)) :
  let u := auth_id user in
  let db1 := snd (postLike user toUserId db) in
  (forall me, candidateSet db1 me u
              = filter (fun c => negb (User.id c =? toUserId)%Z) (candidateSet db me u))
  /\ (forall limit out s,
         fst (findCompatibleUsers u limit db1) = Resolved out -> In s out ->
         Scored.id s <> toUserId)
  /\ (forall w other, w <> u -> candidateSet db1 other w = candidateSet db other w)
  /\ (forall w limit, w <> u ->
         fst (findCompatibleUsers w limit db1) = fst (findCompatibleUsers w limit db)).
Proof.
  intros u db1.
  destruct (Candidates.postLike_201 user toUserId db body Hcreated)
    as (Hne & _ & _ & _ & Hu & Hl).
  fold u db1 in Hu, Hl, Hne.
  assert (H1 : forall me, candidateSet db1 me u
                          = filter (fun c => negb (User.id c =? toUserId)%Z)
                                   (candidateSet db me u)).
  { intros me. rewrite <- Candidates.candidateSet_liked.
    apply Candidates.candidateSet_ext; [exact Hu | exact Hl]. }
  assert (H3 : forall w other, w <> u -> candidateSet db1 other w = candidateSet db other w).
  { intros w other Hw.
    rewrite <- (candidateSet_with_like db other w (Like.mk u toUserId))
      by (cbn; congruence).
    apply Candidates.candidateSet_ext; [exact Hu | exact Hl]. }
  split; [exact H1 | split; [ | split; [exact H3 | ]]].
  - intros limit out s Hout Hs.
    rewrite Ranker.findCompatibleUsers_run in Hout.
    destruct (requester db1 u) as [me | ]; [ | discriminate Hout].
    destruct (User.traitVector me) as [t | ]; [ | discriminate Hout].
    cbn [fst] in Hout. inversion Hout; subst out; clear Hout.
    apply Ranker.In_slice0 in Hs.
    apply (Permutation_in _ (SortFacts.sort_perm by_score_desc _)) in Hs.
    apply Ranker.scoredCandidates_In in Hs as (c & Hc & E).
    rewrite (Ranker.scoreEntry_id _ _ _ E).
    rewrite H1 in Hc. apply filter_In in Hc as [_ Hc].
    apply negb_true_iff, Z.eqb_neq in Hc. exact Hc.
  - intros w limit Hw. rewrite !Ranker.findCompatibleUsers_run.
    unfold requester. rewrite Hu.
    destruct (find _ (users db)) as [me | ]; [ | reflexivity].
    destruct (User.traitVector me); [ | reflexivity].
    rewrite (H3 w me Hw). reflexivity.
Qed.

Lemma liked_user_leaves_candidates_witness :
  candidateSet (snd (postLike (mkAuth 0 1) 1 db_rank)) user0 0
  = filter (fun c => negb (User.id c =? 1)%Z) (candidateSet db_rank user0 0)
  /\ map User.id (candidateSet db_rank user0 0) = [1; 3]%Z
  /\ map User.id (candidateSet (snd (postLike (mkAuth 0 1) 1 db_rank)) user0 0) = [3]%Z.
Proof.
  split; [ | split; reflexivity].
  apply (proj1 (liked_user_leaves_candidates (mkAuth 0 1) 1 db_rank
                  (LikeCreatedBody true false None) eq_refl) user0).
Defined.

Module RoundTrip.
Import Resolver Unlike Invariant Liking.

Lemma filter_all {A} (p : A -> bool) (l : list A) :
  (forall x, In x l -> p x = true) -> filter p l = l.
Proof.
  induction l as [ | x l IH]; cbn; intros H; [reflexivity | ].
  rewrite (H x (or_introl eq_refl)), IH by (intros y Hy; apply H; right; exact Hy).
  reflexivity.
Qed.

(** Removing the Like that was just appended gives the table back. *)
Lemma unliked_liked (db : Db) (u v : Z) :
  has_like db u v = false ->
  likes (unliked (liked db u v) u v) = likes db.
Proof.
  intros H. unfold unliked, liked, with_like. cbn [likes]. rewrite filter_app. cbn [filter].
  unfold prisma.is_like at 2. cbn [Like.fromUserId Like.toUserId]. rewrite !Z.eqb_refl.
  cbn [andb negb]. rewrite app_nil_r. apply filter_all. intros l Hl.
  apply negb_true_iff, not_true_is_false. intros Hp.
  unfold has_like in H.
  assert (E : existsb (prisma.is_like u v) (likes db) = true)
    by (apply existsb_exists; exists l; auto).
  congruence.
Qed.

(** Deleting by id the Match that was just appended gives the table
    back. *)
Lemma unmatched_created (db : Db) (u v : Z) :
  matches_wf db ->
  filter (fun m => negb (Match.id m =? nextMatchId db)%Z) (matches (snd (created db u v)))
  = matches db.
Proof.
  intros (_ & Hlt & _). unfold created. cbn [snd matches]. rewrite filter_app. cbn [filter].
  cbn [Match.id]. rewrite Z.eqb_refl. cbn [negb]. rewrite app_nil_r.
  apply filter_all. intros m Hm. rewrite Forall_forall in Hlt. specialize (Hlt m Hm).
  apply negb_true_iff, Z.eqb_neq. lia.
Qed.

End RoundTrip.

(** X6: like, then unlike.  In a reachable store (requests taken one
    at a time), when POST /like answers 201 its [isMatch] flag says whether the other user had
    liked the requester (and [matchId] is then the id of the new
    Match); the pair is matched afterwards exactly in that case; the
    DELETE /like/:userId that follows answers 200 with the same flag as
    [matchDeleted], and brings the user, Like and Match tables back to
    what they were, and with them every ranking. *)
Theorem like_then_unlike
    (user : AuthUser) (toUserId : Z) (db : Db) (body : Body)
    (Hreach : reachable db)
    (Hcreated : fst (postLike user toUserId db) = Resolved (mkReply 201 body)) :
  let u := auth_id user in
  let db1 := snd (postLike user toUserId db) in
  let db2 := snd (deleteLike user (Some toUserId) db1) in
  let isMatch := has_like db toUserId u in
  body = LikeCreatedBody true isMatch (if isMatch then Some (nextMatchId db) else None)
  /\ matched db1 u toUserId = isMatch
  /\ fst (deleteLike user (Some toUserId) db1)
     = Resolved (mkReply 200 (LikeDeletedBody true isMatch))
  /\ users db2 = users db /\ likes db2 = likes db /\ matches db2 = matches db
  /\ (forall w limit,
         fst (findCompatibleUsers w limit db2) = fst (findCompatibleUsers w limit db)).
Proof.
  intros u db1 db2 isMatch.
  destruct (Liking.reachable_likes_wf db Hreach) as (Hm & Hself & ND).
  pose proof (Invariant.reachable_wf db Hreach) as Hwf.
  assert (Hgoal : body = LikeCreatedBody true isMatch (if isMatch then Some (nextMatchId db) else None)
                  /\ matched db1 u toUserId = isMatch
                  /\ fst (deleteLike user (Some toUserId) db1)
                     = Resolved (mkReply 200 (LikeDeletedBody true isMatch))
                  /\ users db2 = users db /\ likes db2 = likes db /\ matches db2 = matches db).
  { subst db2 db1. revert Hcreated. rewrite Liking.postLike_run. fold u.
    destruct (Z.eqb_spec u toUserId) as [ | Hne]; [discriminate | ].
    destruct (requester db toUserId) as [toUser | ]; [ | discriminate].
    destruct (negb _); [discriminate | ].
    destruct (has_like db u toUserId) eqn:Hlike; [discriminate | ].
    destruct (negb _); [discriminate | ].
    assert (Hnomatch : pair_matches db u toUserId = []).
    { apply Liking.matched_pair_matches, not_true_is_false. intros H.
      apply Hm in H as [H _]. congruence. }
    assert (Hl1 : has_like (Liking.liked db u toUserId) u toUserId = true).
    { apply Liking.has_like_liked. right. auto. }
    rewrite Hnomatch. cbn [hd_error]. fold isMatch.
    destruct isMatch eqn:Hback; cbn [fst snd]; intros E; inversion E; subst body; clear E;
      (split; [reflexivity | ]); rewrite Unlike.deleteLike_run; fold u;
      cbn [Resolver.created snd].
    - change (has_like (mkDb _ _ _ _) u toUserId)
        with (has_like (Liking.liked db u toUserId) u toUserId).
      rewrite Hl1.
      change (pair_matches (mkDb _ _ _ _) u toUserId)
        with (pair_matches (snd (Resolver.created (Liking.liked db u toUserId) u toUserId))
                           u toUserId).
      rewrite (Resolver.pair_matches_created (Liking.liked db u toUserId) u toUserId Hnomatch).
      cbn [hd_error fst Resolver.created Match.id snd].
      split.
      { unfold matched. cbn [matches]. rewrite existsb_app. cbn [existsb].
        rewrite Resolver.is_match_of_new. rewrite orb_true_r. reflexivity. }
      split; [reflexivity | ].
      split; [reflexivity | ].
      split; [apply (RoundTrip.unliked_liked db u toUserId Hlike) | ].
      apply (RoundTrip.unmatched_created db u toUserId Hwf).
    - rewrite Hl1.
      change (pair_matches (Liking.liked db u toUserId)) with (pair_matches db).
      rewrite Hnomatch. cbn [hd_error fst snd].
      split.
      { change (matched (Liking.liked db u toUserId)) with (matched db).
        apply Liking.matched_pair_matches. exact Hnomatch. }
      split; [reflexivity | ].
      split; [reflexivity | ].
      split; [apply (RoundTrip.unliked_liked db u toUserId Hlike) | reflexivity]. }
  destruct Hgoal as (H1 & H2 & H3 & H4 & H5 & H6).
  repeat (split; [assumption | ]).
  intros w limit. apply Candidates.findCompatibleUsers_ext; assumption.
Qed.

Lemma like_then_unlike_witness :
  let db1 := snd (postLike (mkAuth 2 1) 1 (snd (postLike (mkAuth 1 1) 2 db_pair))) in
  let db2 := snd (deleteLike (mkAuth 2 1) (Some 1%Z) db1) in
  fst (deleteLike (mkAuth 2 1) (Some 1%Z) db1)
  = Resolved (mkReply 200 (LikeDeletedBody true true))
  /\ likes db2 = [Like.mk 1 2] /\ matches db2 = [].
Proof.
  pose proof (like_then_unlike (mkAuth 2 1) 1 (snd (postLike (mkAuth 1 1) 2 db_pair))
                (LikeCreatedBody true true (Some 1%Z))
                (reach_postLike _ _ _ (reach_init _ _)) eq_refl)
    as (_ & _ & H3 & _ & H5 & H6 & _).
  split; [exact H3 | split; [exact H5 | exact H6]].
Defined.

Module Frame.
Import Resolver Unlike Invariant Liking.

Lemma filter_filter_absorb {A} (p q : A -> bool) (l : list A) :
  (forall x, In x l -> p x = true -> q x = true) ->
  filter p (filter q l) = filter p l.
Proof.
  induction l as [ | x l IH]; cbn; intros H; [reflexivity | ].
  assert (IH' := IH (fun y Hy => H y (or_intror Hy))).
  destruct (q x) eqn:Q; cbn; rewrite ?IH'; [reflexivity | ].
  destruct (p x) eqn:P; [ | reflexivity].
  rewrite (H x (or_introl eq_refl) P) in Q. discriminate Q.
Qed.

Lemma others_liked (db : Db) (u v : Z) :
  likes_of_others u (liked db u v) = likes_of_others u db.
Proof.
  unfold likes_of_others, liked, with_like. cbn [likes]. rewrite filter_app. cbn [filter].
  cbn [Like.fromUserId]. rewrite Z.eqb_refl. cbn [negb]. apply app_nil_r.
Qed.

Lemma others_unliked (db : Db) (u v : Z) :
  likes_of_others u (unliked db u v) = likes_of_others u db.
Proof.
  unfold likes_of_others, unliked. cbn [likes]. apply filter_filter_absorb.
  intros l _ Hl. apply negb_true_iff in Hl. unfold prisma.is_like. rewrite Hl. reflexivity.
Qed.

Lemma others_created (db : Db) (u v : Z) :
  matches_of_others u (snd (created db u v)) = matches_of_others u db.
Proof.
  unfold matches_of_others, created. cbn [snd matches]. rewrite filter_app. cbn [filter].
  cbn [Match.userAId]. rewrite Z.eqb_refl. cbn [negb andb]. apply app_nil_r.
Qed.

Lemma others_without_pair (db : Db) (u v : Z) :
  filter (fun m => negb (Match.userAId m =? u)%Z && negb (Match.userBId m =? u)%Z)
         (filter (fun m => negb (prisma.is_match_of u v m)) (matches db))
  = matches_of_others u db.
Proof.
  apply filter_filter_absorb. intros m _ Hm.
  apply andb_true_iff in Hm as [H1 H2]. apply negb_true_iff in H1, H2.
  unfold prisma.is_match_of. rewrite H1, H2. cbn. rewrite andb_false_r. reflexivity.
Qed.

End Frame.

(** X7: a request touches only the requester's rows.  In a store with
    a well-formed Match table, whatever POST /like or
    DELETE /like/:userId answers for requester [u], the user table, the
    Likes given by the other users and the Matches [u] is not a party
    to are the same afterwards. *)
Theorem requests_touch_own_rows (user : AuthUser) (db : Db) (Hwf : matches_wf db) :
  let u := auth_id user in
  (forall toUserId,
      let db' := snd (postLike user toUserId db) in
      users db' = users db
      /\ likes_of_others u db' = likes_of_others u db
      /\ matches_of_others u db' = matches_of_others u db)
  /\ (forall userIdParam,
         let db' := snd (deleteLike user userIdParam db) in
         users db' = users db
         /\ likes_of_others u db' = likes_of_others u db
         /\ matches_of_others u db' = matches_of_others u db).
Proof.
  intros u. split.
  - intros toUserId. cbv zeta. rewrite Liking.postLike_run. fold u.
    destruct (u =? toUserId)%Z; [auto | ].
    destruct (requester db toUserId); [ | auto].
    destruct (negb _); [auto | ].
    destruct (has_like db u toUserId); [auto | ].
    destruct (negb _); [auto | ].
    destruct (has_like db toUserId u); [ | cbn [snd]; auto using Frame.others_liked].
    destruct (hd_error _); cbn [snd]; [auto using Frame.others_liked | ].
    split; [reflexivity | split].
    + apply (Frame.others_liked db u toUserId).
    + apply (Frame.others_created (Liking.liked db u toUserId) u toUserId).
  - intros [toUserId | ]; cbv zeta; [ | auto].
    rewrite Unlike.deleteLike_run. fold u.
    destruct (has_like db u toUserId); [ | auto].
    destruct (pair_matches db u toUserId) as [ | m r] eqn:E; cbn [hd_error snd].
    + split; [reflexivity | split; [apply Frame.others_unliked | reflexivity]].
    + assert (Hin : In m (pair_matches db u toUserId)) by (rewrite E; left; reflexivity).
      apply filter_In in Hin as [Hin Hp].
      split; [reflexivity | split; [apply (Frame.others_unliked db u toUserId) | ]].
      unfold matches_of_others, Unlike.unmatched. cbn [matches Unlike.unliked].
      rewrite (Unlike.delete_by_id_is_delete_pair db u toUserId m Hwf Hin Hp).
      apply Frame.others_without_pair.
Qed.

Lemma requests_touch_own_rows_witness :
  (forall toUserId,
      let db' := snd (postLike (mkAuth 1 1) toUserId after_mutual_like) in
      users db' = users after_mutual_like
      /\ likes_of_others 1 db' = likes_of_others 1 after_mutual_like
      /\ matches_of_others 1 db' = matches_of_others 1 after_mutual_like)
  /\ (forall userIdParam,
         let db' := snd (deleteLike (mkAuth 1 1) userIdParam after_mutual_like) in
         users db' = users after_mutual_like
         /\ likes_of_others 1 db' = likes_of_others 1 after_mutual_like
         /\ matches_of_others 1 db' = matches_of_others 1 after_mutual_like).
Proof.
  exact (requests_touch_own_rows (mkAuth 1 1) after_mutual_like
           (Invariant.reachable_wf _ after_mutual_like_reachable)).
Defined.

(** X8: when POST /like answers 201.  It does so exactly when the
    target is another user, exists, is in the requester's community,
    is not liked by the requester yet, and the requester's own row
    exists.  The reply then carries [isMatch], true exactly when the
    target had liked the requester; one Like is appended; without a
    Like back no Match is written and [matchId] is null; with one,
    [matchId] names a Match of the pair, appended if the pair had none
    and otherwise the row already there. *)
Theorem postLike_created (user : AuthUser) (toUserId : Z) (db : Db) :
  let u := auth_id user in
  let r := postLike user toUserId db in
  ((exists body, fst r = Resolved (mkReply 201 body))
   <-> u <> toUserId
       /\ (exists toUser, requester db toUserId = Some toUser
                          /\ User.communityId toUser = auth_communityId user)
       /\ has_like db u toUserId = false
       /\ user_exists db u = true)
  /\ (forall body,
         fst r = Resolved (mkReply 201 body) ->
         exists matchId,
           body = LikeCreatedBody true (has_like db toUserId u) matchId
           /\ users (snd r) = users db
           /\ likes (snd r) = likes db ++ [Like.mk u toUserId]
           /\ (has_like db toUserId u = false ->
               matchId = None /\ matches (snd r) = matches db)
           /\ (has_like db toUserId u = true ->
               exists m, matchId = Some (Match.id m)
                         /\ In m (matches (snd r))
                         /\ prisma.is_match_of u toUserId m = true
                         /\ (matched db u toUserId = true -> matches (snd r) = matches db)
                         /\ (matched db u toUserId = false ->
                             matches (snd r) = matches db ++ [m]))).
Proof.
  intros u r. subst r. rewrite Liking.postLike_run. fold u. split.
  - destruct (Z.eqb_spec u toUserId) as [Heq | Hne].
    { split; [intros (b & E); discriminate E | intros (H & _); contradiction]. }
    destruct (requester db toUserId) as [toUser | ].
    2:{ split; [intros (b & E); discriminate E | intros (_ & (t & E & _) & _); discriminate E]. }
    destruct (Z.eqb_spec (User.communityId toUser) (auth_communityId user)) as [Hc | Hc];
      cbn [negb].
    2:{ split; [intros (b & E); discriminate E | ].
        intros (_ & (t & E & Hc') & _). inversion E; subst t. contradiction. }
    destruct (has_like db u toUserId).
    { split; [intros (b & E); discriminate E | intros (_ & _ & E & _); discriminate E]. }
    destruct (user_exists db u); cbn [negb].
    2:{ split; [intros (b & E); discriminate E | intros (_ & _ & _ & E); discriminate E]. }
    split; [intros _; repeat split; eauto | intros _].
    destruct (has_like db toUserId u); [ | eexists; reflexivity].
    destruct (hd_error _); eexists; reflexivity.
  - intros body.
    destruct (Z.eqb_spec u toUserId) as [Heq | Hne]; [discriminate | ].
    destruct (requester db toUserId) as [toUser | ]; [ | discriminate].
    destruct (negb _); [discriminate | ].
    destruct (has_like db u toUserId); [discriminate | ].
    destruct (negb _); [discriminate | ].
    destruct (has_like db toUserId u) eqn:Hback.
    + destruct (pair_matches db u toUserId) as [ | m rest] eqn:Ep; cbn [hd_error fst snd];
        intros E; inversion E; subst body; clear E; eexists;
        (split; [reflexivity | ]); (split; [reflexivity | ]); (split; [reflexivity | ]);
        (split; [discriminate | intros _]).
      * exists (Match.mk (nextMatchId db) u toUserId).
        split; [reflexivity | ].
        split; [cbn [Resolver.created snd matches]; apply in_or_app; right; left; reflexivity | ].
        split; [apply Resolver.is_match_of_new | ].
        apply Liking.matched_pair_matches in Ep.
        split; [intros H; congruence | intros _; reflexivity].
      * assert (Hin : In m (pair_matches db u toUserId)) by (rewrite Ep; left; reflexivity).
        apply filter_In in Hin as [Hin Hp].
        exists m. split; [reflexivity | ]. split; [exact Hin | ]. split; [exact Hp | ].
        split; [intros _; reflexivity | ].
        intros H. apply Liking.matched_pair_matches in H. congruence.
    + cbn [fst snd]. intros E; inversion E; subst body; clear E. eexists.
      split; [reflexivity | ]. split; [reflexivity | ]. split; [reflexivity | ].
      split; [intros _; split; reflexivity | discriminate].
Qed.

(** X9: when POST /like refuses.  The handler always answers; an
    answer between 400 and 499 leaves the store unchanged.  It answers
    400 to a like of oneself, 404 when the target (an id within the
    range of the [Int] column) does not exist, 403 when the target is
    in another community, and 400 "User already liked" when the Like
    exists, in this order of precedence. *)
Theorem postLike_rejected (user : AuthUser) (toUserId : Z) (db : Db) :
  let u := auth_id user in
  let r := postLike user toUserId db in
  (exists reply, fst r = Resolved reply
                 /\ ((400 <= code reply < 500)%Z -> snd r = db))
  /\ (u = toUserId ->
      fst r = Resolved (mkReply 400 (ErrorBody "Cannot like yourself")))
  /\ (u <> toUserId -> int4 toUserId = true -> requester db toUserId = None ->
      fst r = Resolved (mkReply 404 (ErrorBody "User not found")))
  /\ (forall toUser,
         u <> toUserId -> requester db toUserId = Some toUser ->
         (User.communityId toUser <> auth_communityId user ->
          fst r = Resolved (mkReply 403 (ErrorBody "Cannot like users from different communities")))
         /\ (User.communityId toUser = auth_communityId user ->
             has_like db u toUserId = true ->
             fst r = Resolved (mkReply 400 (ErrorBody "User already liked")))).
Proof.
  intros u r. subst r. rewrite Liking.postLike_run. fold u.
  split; [ | split; [ | split]].
  - destruct (u =? toUserId)%Z; [eexists; split; [reflexivity | reflexivity] | ].
    destruct (requester db toUserId); [ | eexists; split; reflexivity].
    destruct (negb _); [eexists; split; reflexivity | ].
    destruct (has_like db u toUserId); [eexists; split; reflexivity | ].
    destruct (negb _); [eexists; split; [reflexivity | cbn; lia] | ].
    destruct (has_like db toUserId u); [ | eexists; split; [reflexivity | cbn; lia]].
    destruct (hd_error _); eexists; (split; [reflexivity | cbn; lia]).
  - intros ->. rewrite Z.eqb_refl. reflexivity.
  - intros Hne _ ->. apply Z.eqb_neq in Hne. rewrite Hne. reflexivity.
  - intros toUser Hne ->. apply Z.eqb_neq in Hne. rewrite Hne. split.
    + intros Hc. apply Z.eqb_neq in Hc. rewrite Hc. reflexivity.
    + intros Hc ->. apply Z.eqb_eq in Hc. rewrite Hc. reflexivity.
Qed.

(* ================================================================== *)
(** * Part VIII: the Similarity Engine, further                    *)
(* ================================================================== *)

(** Properties of the weights and keys that [vec_set] and
    [traitsToVector] carry over. *)
Module VecForall.

Section Weights.
Variable P : Js.number -> Prop.

Lemma vec_set_Forall (v : VectorMap) (k : string) (x : Js.number) :
  Forall (fun e => P (snd e)) v -> P x -> Forall (fun e => P (snd e)) (vec_set v k x).
Proof.
  intros Hv Hx.
  induction v as [ | [k' y] r IH]; cbn [vec_set]; [repeat constructor; exact Hx | ].
  apply Forall_cons_iff in Hv as [Hy Hr].
  destruct (String.eqb k' k); constructor; auto.
Qed.

Lemma fold_vec_set_Forall {E} (key : E -> string) (val : E -> Js.number) (l : list E) :
  (forall e, In e l -> P (val e)) ->
  forall v, Forall (fun e => P (snd e)) v ->
    Forall (fun e => P (snd e)) (fold_left (fun vec e => vec_set vec (key e) (val e)) l v).
Proof.
  induction l as [ | e l IH]; intros H v Hv; cbn [fold_left]; [exact Hv | ].
  apply IH; [intros e' He'; apply H; right; exact He' | ].
  apply vec_set_Forall; [exact Hv | apply H; left; reflexivity].
Qed.

(** Every weight of the vector of a profile is an intensity of the
    profile or [1.0]. *)
Lemma traitsToVector_Forall (t : UserTraits) :
  P 1%float ->
  Forall (fun e => P (snd e)) (personalityTraits t) ->
  Forall (fun e => P (snd e)) (traitsToVector t).
Proof.
  intros H1 H. rewrite Forall_forall in H. unfold traitsToVector.
  apply (fold_vec_set_Forall (fun value => String.append "value_" value) (fun _ => 1%float)).
  { intros; exact H1. }
  apply (fold_vec_set_Forall (fun i => String.append "interest_" i) (fun _ => 1%float)).
  { intros; exact H1. }
  apply (fold_vec_set_Forall (fun e : string * Js.number => String.append "personality_" (fst e))
                             (fun e => snd e)).
  { exact H. }
  constructor.
Qed.
End Weights.

Lemma vec_set_keys_In (v : VectorMap) (k : string) (x : Js.number) (k' : string) :
  In k' (object_keys (vec_set v k x)) <-> In k' (object_keys v) \/ k' = k.
Proof.
  induction v as [ | [k0 y] r IH]; cbn [vec_set object_keys map fst In].
  - intuition auto.
  - destruct (String.eqb_spec k0 k) as [-> | Hne]; cbn [map fst In].
    + intuition auto.
    + unfold object_keys in IH. rewrite IH. intuition auto.
Qed.

Lemma fold_vec_set_keys_In {E} (key : E -> string) (val : E -> Js.number) (l : list E) :
  forall (v : VectorMap) (k' : string),
    In k' (object_keys (fold_left (fun vec e => vec_set vec (key e) (val e)) l v))
    <-> In k' (object_keys v) \/ exists e, In e l /\ k' = key e.
Proof.
  induction l as [ | e l IH]; intros v k'; cbn [fold_left].
  - split; [auto | intros [H | (e & [] & _)]; exact H].
  - rewrite IH, vec_set_keys_In. split.
    + intros [[H | ->] | (e' & He' & ->)]; eauto.
      * right. exists e. split; [left; reflexivity | reflexivity].
      * right. exists e'. split; [right; exact He' | reflexivity].
    + intros [H | (e' & [<- | He'] & ->)]; eauto.
Qed.

(** The keys of the vector of a profile. *)
Lemma traitsToVector_keys_In (t : UserTraits) (k : string) :
  In k (object_keys (traitsToVector t))
  <-> (exists n, In n (map fst (personalityTraits t)) /\ k = String.append "personality_" n)
      \/ (exists i, In i (interests t) /\ k = String.append "interest_" i)
      \/ (exists w, In w (values t) /\ k = String.append "value_" w).
Proof.
  unfold traitsToVector.
  rewrite (fold_vec_set_keys_In (fun value => String.append "value_" value) (fun _ => 1%float)).
  rewrite (fold_vec_set_keys_In (fun i => String.append "interest_" i) (fun _ => 1%float)).
  rewrite (fold_vec_set_keys_In (fun e : string * Js.number => String.append "personality_" (fst e))
                                (fun e => snd e)).
  cbn [object_keys map In]. split.
  - intros [[[[] | (e & He & ->)] | H] | H]; auto.
    left. exists (fst e). split; [apply in_map, He | reflexivity].
  - intros [(n & Hn & ->) | [H | H]]; auto.
    apply in_map_iff in Hn as (e & <- & He). left. left. right. exists e. auto.
Qed.

End VecForall.

Module Sign.
Import FloatFacts.

(** [NaN], or a value whose sign bit is clear. *)
Definition not_negative_sf (x : spec_float) : Prop :=
  match x with
  | S754_nan => True
  | S754_zero s | S754_infinity s | S754_finite s _ _ => s = false
  end.

Definition not_negative (x : float) : Prop := not_negative_sf (Prim2SF x).

Lemma signed_not_negative (x : spec_float) : signed false x -> not_negative_sf x.
Proof. destruct x; cbn; auto. Qed.

Lemma nonneg_not_negative (x : float) : nonneg x -> not_negative x.
Proof. apply signed_not_negative. Qed.

Lemma not_negative_cases (x : float) :
  not_negative x -> nonneg x \/ PrimFloat.is_nan x = true.
Proof.
  unfold not_negative, nonneg. rewrite is_nan_spec.
  destruct (Prim2SF x); cbn; auto.
Qed.

Lemma not_negative_mul (x y : float) :
  not_negative x -> not_negative y -> not_negative (x * y).
Proof.
  unfold not_negative. rewrite FloatAxioms.mul_spec. unfold SF64mul.
  destruct (Prim2SF x) as [sx | sx | | sx mx ex];
    destruct (Prim2SF y) as [sy | sy | | sy my ey]; cbn [SFmul not_negative_sf];
    intros Hx Hy; subst; cbn [xorb]; auto.
  apply signed_not_negative, binary_round_aux_signed. lia.
Qed.

Lemma not_negative_add (x y : float) :
  not_negative x -> not_negative y -> not_negative (x + y).
Proof.
  intros Hx Hy.
  destruct (not_negative_cases x Hx) as [Nx | Nx];
    destruct (not_negative_cases y Hy) as [Ny | Ny].
  - apply nonneg_not_negative, nonneg_add; assumption.
  - unfold not_negative. rewrite FloatAxioms.add_spec. rewrite is_nan_spec in Ny.
    unfold SF64add. destruct (Prim2SF x), (Prim2SF y); try discriminate Ny; exact I.
  - unfold not_negative. rewrite FloatAxioms.add_spec. rewrite is_nan_spec in Nx.
    unfold SF64add. destruct (Prim2SF x); try discriminate Nx; exact I.
  - unfold not_negative. rewrite FloatAxioms.add_spec. rewrite is_nan_spec in Nx.
    unfold SF64add. destruct (Prim2SF x); try discriminate Nx; exact I.
Qed.

Lemma div_core_nonneg (m1 e1 m2 e2 : Z) :
  (0 <= m1)%Z -> (0 < m2)%Z ->
  (0 <= fst (fst (SFdiv_core_binary prec emax m1 e1 m2 e2)))%Z.
Proof.
  intros H1 H2. unfold SFdiv_core_binary.
  set (s := (e1 - e2 - _)%Z).
  set (m' := match s with 0%Z => m1 | Z.pos _ => Z.shiftl m1 s | Z.neg _ => 0%Z end).
  assert (Hm' : (0 <= m')%Z).
  { unfold m'. destruct s; try lia. apply Z.shiftl_nonneg. exact H1. }
  pose proof (Z.div_pos m' m2 Hm' H2) as Hq. unfold Z.div in Hq.
  destruct (Z.div_eucl m' m2) as [q r]. exact Hq.
Qed.

Lemma not_negative_div (x y : float) :
  not_negative x -> not_negative y -> not_negative (x / y).
Proof.
  unfold not_negative. rewrite FloatAxioms.div_spec. unfold SF64div.
  destruct (Prim2SF x) as [sx | sx | | sx mx ex];
    destruct (Prim2SF y) as [sy | sy | | sy my ey]; cbn [SFdiv not_negative_sf];
    intros Hx Hy; subst; cbn [xorb]; auto.
  pose proof (div_core_nonneg (Zpos mx) ex (Zpos my) ey ltac:(lia) ltac:(lia)) as H.
  destruct (SFdiv_core_binary prec emax (Zpos mx) ex (Zpos my) ey) as [[mz ez] lz].
  cbn [fst] in H. apply signed_not_negative, binary_round_aux_signed. exact H.
Qed.

Lemma sqrt_core_nonneg (m e : Z) :
  (0 <= fst (fst (SFsqrt_core_binary prec emax m e)))%Z.
Proof.
  unfold SFsqrt_core_binary.
  set (m' := match (e - 2 * _)%Z with 0%Z => m | Z.pos _ => _ | Z.neg _ => 0%Z end).
  pose proof (Z.sqrtrem_sqrt m') as Hq. pose proof (Z.sqrt_nonneg m') as Hs.
  destruct (Z.sqrtrem m') as [q r]. cbn [fst] in *. lia.
Qed.

Lemma not_negative_sqrt (x : float) : not_negative x -> not_negative (sqrt x).
Proof.
  unfold not_negative. rewrite FloatAxioms.sqrt_spec. unfold SF64sqrt.
  destruct (Prim2SF x) as [sx | [ | ] | | [ | ] mx ex]; cbn [SFsqrt not_negative_sf];
    intros Hx; subst; auto.
  pose proof (sqrt_core_nonneg (Zpos mx) ex) as H.
  destruct (SFsqrt_core_binary prec emax (Zpos mx) ex) as [[mz ez] lz].
  cbn [fst] in H. apply signed_not_negative, binary_round_aux_signed. exact H.
Qed.

(** [0 <= x] in JavaScript, or [x] is [NaN]. *)
Lemma not_negative_leb (x : float) :
  not_negative x -> (0 <=? x)%float = true \/ PrimFloat.is_nan x = true.
Proof.
  unfold not_negative. rewrite is_nan_spec, FloatAxioms.leb_spec, Prim2SF_zero.
  destruct (Prim2SF x) as [s | s | | s m e]; cbn [not_negative_sf is_nan_sf];
    intros H; subst; auto.
Qed.

(** A weight [>= 0] is read as a non-negative number. *)
Lemma or_zero_nonneg (o : option Js.number) :
  (forall x, o = Some x -> (0 <=? x)%float = true) -> nonneg (Js.or_zero o).
Proof.
  destruct o as [x | ]; cbn [Js.or_zero]; intros H; [ | apply nonneg_zero].
  destruct (Js.truthy x) eqn:T; [ | apply nonneg_zero].
  specialize (H x eq_refl). unfold nonneg.
  rewrite FloatAxioms.leb_spec, Prim2SF_zero in H.
  destruct (Prim2SF x) as [s | [ | ] | | [ | ] m e] eqn:E; cbn in H |- *;
    try reflexivity; try discriminate H.
  unfold Js.truthy in T. unfold PrimFloat.is_zero in T.
  rewrite FloatAxioms.eqb_spec, E in T. cbn in T. discriminate T.
Qed.

Lemma ownValue_nonneg (v : VectorMap) (k : string) :
  nonneg_weights v -> nonneg (Similarity.ownValue v k).
Proof.
  intros H. apply or_zero_nonneg. intros x Hx.
  apply VectorFacts.vec_get_Some_In in Hx.
  unfold nonneg_weights in H. rewrite Forall_forall in H. apply (H (k, x) Hx).
Qed.

(** What the loop reads is a non-negative number, or [NaN] where it
    reads a member of [Object.prototype]. *)
Lemma valueOf_not_negative (v : VectorMap) (k : string) :
  nonneg_weights v -> not_negative (Similarity.valueOf v k).
Proof.
  intros H. destruct (vec_get v k) as [x | ] eqn:E.
  - rewrite (Similarity.valueOf_own v k x E). apply nonneg_not_negative, ownValue_nonneg, H.
  - destruct (mem k Object_prototype) eqn:P.
    + rewrite (Similarity.valueOf_inherited v k E P). exact I.
    + rewrite (Similarity.valueOf_plain v k P). apply nonneg_not_negative, ownValue_nonneg, H.
Qed.

Lemma sum_not_negative (f : string -> Js.number) (keys : list string) :
  (forall k, not_negative (f k)) ->
  forall acc, not_negative acc ->
    not_negative (fold_left (fun a k => a + f k)%float keys acc).
Proof.
  intros Hf. induction keys as [ | k keys IH]; intros acc Hacc; cbn [fold_left]; [exact Hacc | ].
  apply IH, not_negative_add; [exact Hacc | apply Hf].
Qed.

Lemma traitsToVector_nonneg (t : UserTraits) :
  Forall (fun e => (0 <=? snd e)%float = true) (personalityTraits t) ->
  nonneg_weights (traitsToVector t).
Proof.
  apply (VecForall.traitsToVector_Forall (fun x => (0 <=? x)%float = true)). reflexivity.
Qed.

End Sign.

(** X10: the score is never negative.  When no weight of the two
    vectors is negative or [NaN], [cosineSimilarity] returns a number
    [>= 0] or [NaN], never a negative number; the same holds of
    [calculateUserSimilarity] on two profiles whose intensities are
    not negative. *)
Theorem cosineSimilarity_not_negative :
  (forall A B : VectorMap,
      nonneg_weights A -> nonneg_weights B ->
      (0 <=? cosineSimilarity A B)%float = true
      \/ PrimFloat.is_nan (cosineSimilarity A B) = true)
  /\ (forall P Q : UserTraits,
         Forall (fun e => (0 <=? snd e)%float = true) (personalityTraits P) ->
         Forall (fun e => (0 <=? snd e)%float = true) (personalityTraits Q) ->
         (0 <=? calculateUserSimilarity P Q)%float = true
         \/ PrimFloat.is_nan (calculateUserSimilarity P Q) = true).
Proof.
  assert (H : forall A B : VectorMap,
             nonneg_weights A -> nonneg_weights B ->
             (0 <=? cosineSimilarity A B)%float = true
             \/ PrimFloat.is_nan (cosineSimilarity A B) = true).
  { intros A B HA HB. apply Sign.not_negative_leb. unfold cosineSimilarity.
    destruct (_ || _); [apply Sign.nonneg_not_negative, FloatFacts.nonneg_zero | ].
    unfold loop. rewrite Similarity.loop_dot, Similarity.loop_normA, Similarity.loop_normB.
    cbn [dotProduct normA normB sums0].
    apply Sign.not_negative_div; [ | apply Sign.not_negative_mul; apply Sign.not_negative_sqrt].
    - apply Sign.sum_not_negative; [ | apply Sign.nonneg_not_negative, FloatFacts.nonneg_zero].
      intros k. apply Sign.not_negative_mul; apply Sign.valueOf_not_negative; assumption.
    - apply Sign.sum_not_negative; [ | apply Sign.nonneg_not_negative, FloatFacts.nonneg_zero].
      intros k. apply Sign.not_negative_mul; apply Sign.valueOf_not_negative; assumption.
    - apply Sign.sum_not_negative; [ | apply Sign.nonneg_not_negative, FloatFacts.nonneg_zero].
      intros k. apply Sign.not_negative_mul; apply Sign.valueOf_not_negative; assumption. }
  split; [exact H | ].
  intros P Q HP HQ. unfold calculateUserSimilarity.
  apply H; apply Sign.traitsToVector_nonneg; assumption.
Qed.

Lemma cosineSimilarity_not_negative_witness :
  ((0 <=? cosineSimilarity vec_xyz vec_zxy)%float = true
   \/ PrimFloat.is_nan (cosineSimilarity vec_xyz vec_zxy) = true)
  /\ ((0 <=? calculateUserSimilarity traits_u0 traits_u3)%float = true
      \/ PrimFloat.is_nan (calculateUserSimilarity traits_u0 traits_u3) = true).
Proof.
  split.
  - apply (proj1 cosineSimilarity_not_negative vec_xyz vec_zxy);
      repeat constructor.
  - apply (proj2 cosineSimilarity_not_negative traits_u0 traits_u3);
      repeat constructor.
Defined.

Module Falsy.
Import FloatFacts VectorFacts Similarity.

Lemma or_zero_falsy (w : Js.number) : Js.truthy w = false -> Js.or_zero (Some w) = 0%float.
Proof. intros H. cbn [Js.or_zero]. rewrite H. reflexivity. Qed.

(** Two weights that are both falsy read alike at every key. *)
Lemma valueOf_replace (v1 v2 : VectorMap) (k : string) (w w' : Js.number) :
  Js.truthy w = false -> Js.truthy w' = false ->
  forall key, valueOf (v1 ++ (k, w) :: v2) key = valueOf (v1 ++ (k, w') :: v2) key.
Proof.
  intros Hw Hw' key. unfold valueOf, vec_read. rewrite !vec_get_app. cbn [vec_get].
  destruct (vec_get v1 key); [reflexivity | ].
  destruct (String.eqb k key); [ | reflexivity].
  unfold Js.value_or. cbn [Js.ToBoolean]. rewrite Hw, Hw'. reflexivity.
Qed.

Lemma loop_replace_first (A1 A2 B : VectorMap) (k : string) (w w' : Js.number) :
  Js.truthy w = false -> Js.truthy w' = false ->
  loop (A1 ++ (k, w) :: A2) B = loop (A1 ++ (k, w') :: A2) B.
Proof.
  intros Hw Hw'. unfold loop, all_keys.
  rewrite !ZeroWeight.object_keys_insert.
  apply fold_loop_ext; [apply valueOf_replace; assumption | reflexivity].
Qed.

Lemma loop_replace_second (A B1 B2 : VectorMap) (k : string) (w w' : Js.number) :
  Js.truthy w = false -> Js.truthy w' = false ->
  loop A (B1 ++ (k, w) :: B2) = loop A (B1 ++ (k, w') :: B2).
Proof.
  intros Hw Hw'. unfold loop, all_keys.
  rewrite !ZeroWeight.object_keys_insert.
  apply fold_loop_ext; [reflexivity | apply valueOf_replace; assumption].
Qed.

End Falsy.

(** X11: a falsy weight is read as 0.  A weight that is [0], [-0] or
    [NaN] can be replaced by [0] in either argument of
    [cosineSimilarity] without changing the result ([a[key] || 0]); a
    vector whose only weight is falsy scores exactly [0] against every
    vector none of whose keys names a member of [Object.prototype]. *)
Theorem falsy_weight_reads_zero (w : Js.number) (Hw : Js.truthy w = false) :
  (forall (A1 A2 B : VectorMap) (k : string),
      cosineSimilarity (A1 ++ (k, w) :: A2) B = cosineSimilarity (A1 ++ (k, 0%float) :: A2) B
      /\ cosineSimilarity B (A1 ++ (k, w) :: A2) = cosineSimilarity B (A1 ++ (k, 0%float) :: A2))
  /\ (forall (k : string) (B : VectorMap),
         plain_keys B = true ->
         cosineSimilarity [(k, w)] B = 0%float /\ cosineSimilarity B [(k, w)] = 0%float).
Proof.
  assert (H0 : Js.truthy 0%float = false) by reflexivity.
  assert (H : forall (A1 A2 B : VectorMap) (k : string),
      cosineSimilarity (A1 ++ (k, w) :: A2) B = cosineSimilarity (A1 ++ (k, 0%float) :: A2) B
      /\ cosineSimilarity B (A1 ++ (k, w) :: A2) = cosineSimilarity B (A1 ++ (k, 0%float) :: A2)).
  { intros A1 A2 B k. split; apply cosineSimilarity_of_loop.
    - apply Falsy.loop_replace_first; assumption.
    - apply Falsy.loop_replace_second; assumption. }
  split; [exact H | ].
  intros k B PB. destruct (H [] [] B k) as [E1 E2]. cbn [app] in E1, E2.
  rewrite E1, E2. unfold cosineSimilarity.
  assert (E : forall v : VectorMap, v = [(k, 0%float)] -> (squaredNorm v =? 0)%float = true).
  { intros v ->. unfold squaredNorm. cbn. rewrite String.eqb_refl. reflexivity. }
  split.
  - rewrite Similarity.loop_normA_zero by exact PB.
    match goal with
    | |- context [squaredNorm ?v] => rewrite (E v eq_refl)
    end.
    reflexivity.
  - rewrite Similarity.loop_normB_zero by exact PB.
    match goal with
    | |- context [squaredNorm ?v] => rewrite (E v eq_refl)
    end.
    rewrite orb_true_r. reflexivity.
Qed.

Lemma falsy_weight_reads_zero_witness :
  cosineSimilarity [("x"%string, 0.1%float); ("y"%string, nan)] vec_xyz
  = cosineSimilarity [("x"%string, 0.1%float); ("y"%string, 0%float)] vec_xyz
  /\ cosineSimilarity [("y"%string, nan)] vec_xyz = 0%float.
Proof.
  split.
  - apply (proj1 (falsy_weight_reads_zero nan eq_refl) [("x"%string, 0.1%float)] [] vec_xyz "y"%string).
  - apply (proj2 (falsy_weight_reads_zero nan eq_refl) "y"%string vec_xyz). reflexivity.
Defined.

Module Magnitude.
Import FloatFacts.
Local Open Scope Z_scope.

Lemma Zdigits2_pos (m : Z) : 0 < m -> 0 < Zdigits2 m.
Proof. destruct m; cbn; lia. Qed.

Lemma Zdigits2_lower (m : Z) : 0 < m -> 2 ^ (Zdigits2 m - 1) <= m.
Proof.
  destruct m as [ | p | p]; try lia. intros _. cbn [Zdigits2].
  apply (digits2_pos_bounds p).
Qed.

Lemma Zdigits2_ge (m k : Z) : 0 <= k -> 2 ^ k <= m -> k + 1 <= Zdigits2 m.
Proof.
  intros Hk Hm.
  assert (Hpos : 0 < m) by (pose proof (pow2_pos k Hk); lia).
  destruct m as [ | p | p]; try lia. cbn [Zdigits2].
  pose proof (digits2_pos_bounds p) as [_ Hhi].
  destruct (Z.le_gt_cases (k + 1) (Zpos (digits2_pos p))) as [ | Hlt]; [assumption | ].
  exfalso.
  assert (2 ^ Zpos (digits2_pos p) <= 2 ^ k) by (apply Z.pow_le_mono_r; lia).
  lia.
Qed.

Lemma Zdigits2_mono (m m' : Z) : 0 < m -> m <= m' -> Zdigits2 m <= Zdigits2 m'.
Proof.
  intros Hm Hle. pose proof (Zdigits2_lower m Hm) as Hlo.
  pose proof (Zdigits2_pos m Hm).
  pose proof (Zdigits2_ge m' (Zdigits2 m - 1) ltac:(lia) ltac:(lia)). lia.
Qed.

(** Above the least subnormal, the shift keeps the mantissa positive
    and does not lower the magnitude [digits + exponent]. *)
Lemma shr_fexp_mag (m e : Z) (l : location) :
  0 < m -> -1073 <= Zdigits2 m + e ->
  0 < shr_m (fst (shr_fexp prec emax m e l))
  /\ -1074 <= snd (shr_fexp prec emax m e l)
  /\ Zdigits2 m + e
     <= Zdigits2 (shr_m (fst (shr_fexp prec emax m e l))) + snd (shr_fexp prec emax m e l).
Proof.
  intros Hm Hmag. unfold shr_fexp, shr.
  pose proof (Zdigits2_pos m Hm) as Hd.
  pose proof (Zdigits2_lower m Hm) as Hlo.
  destruct (fexp prec emax (Zdigits2 m + e) - e) as [ | p | p] eqn:Hn; cbn [fst snd];
    rewrite ?shr_record_of_loc_m; rewrite fexp_eq in Hn; try (repeat split; lia).
  rewrite iter_shr_1_m by (rewrite shr_record_of_loc_m; lia).
  rewrite shr_record_of_loc_m.
  assert (Hk : 0 <= Zdigits2 m - 1 - Zpos p) by lia.
  assert (Hdiv : 2 ^ (Zdigits2 m - 1 - Zpos p) <= m / 2 ^ Zpos p).
  { apply Z.div_le_lower_bound; [apply pow2_pos; lia | ].
    rewrite <- Z.pow_add_r by lia.
    replace (Zpos p + (Zdigits2 m - 1 - Zpos p)) with (Zdigits2 m - 1) by lia. exact Hlo. }
  pose proof (pow2_pos _ Hk) as Hpos.
  pose proof (Zdigits2_ge _ _ Hk Hdiv) as Hge.
  repeat split; lia.
Qed.

(** Sign [s], not zero, and magnitude at least [b]. *)
Definition at_least (s : bool) (b : Z) (x : spec_float) : Prop :=
  match x with
  | S754_infinity s' => s' = s
  | S754_finite s' m e => s' = s /\ b <= Zpos (digits2_pos m) + e
  | _ => False
  end.

Lemma at_least_weaken (s : bool) (b b' : Z) (x : spec_float) :
  b' <= b -> at_least s b x -> at_least s b' x.
Proof. destruct x; cbn; intuition lia. Qed.

Lemma binary_round_aux_mag (s : bool) (m e : Z) (l : location) :
  0 < m -> -1073 <= Zdigits2 m + e ->
  at_least s (Zdigits2 m + e) (binary_round_aux prec emax s m e l).
Proof.
  intros Hm Hmag. unfold binary_round_aux.
  pose proof (shr_fexp_mag m e l Hm Hmag) as (H1 & He1 & Hg1).
  destruct (shr_fexp prec emax m e l) as [r1 e1]; cbn [fst snd] in H1, He1, Hg1.
  pose proof (round_nearest_even_ge (shr_m r1) (loc_of_shr_record r1)) as Hr.
  set (m1 := round_nearest_even (shr_m r1) (loc_of_shr_record r1)) in *.
  assert (Hm1 : 0 < m1) by lia.
  pose proof (Zdigits2_mono (shr_m r1) m1 H1 Hr) as Hd1.
  pose proof (Zdigits2_pos m1 Hm1) as Hp1.
  pose proof (shr_fexp_mag m1 e1 loc_Exact Hm1 ltac:(lia)) as (H2 & He2 & Hg2).
  destruct (shr_fexp prec emax m1 e1 loc_Exact) as [r2 e2]; cbn [fst snd] in H2, He2, Hg2.
  destruct (shr_m r2) as [ | q | q] eqn:Eq; try lia.
  cbn [Zdigits2] in Hg2.
  destruct (e2 <=? emax - prec); cbn [at_least]; [split; [reflexivity | lia] | reflexivity].
Qed.

Lemma digits2_pos_mul (a b : positive) :
  Zpos (digits2_pos a) + Zpos (digits2_pos b) - 1 <= Zpos (digits2_pos (a * b)).
Proof.
  pose proof (digits2_pos_bounds a) as [Ha _].
  pose proof (digits2_pos_bounds b) as [Hb _].
  change (Zpos (digits2_pos (a * b))) with (Zdigits2 (Zpos (a * b))).
  replace (Zpos (digits2_pos a) + Zpos (digits2_pos b) - 1)
    with ((Zpos (digits2_pos a) - 1) + (Zpos (digits2_pos b) - 1) + 1) by lia.
  apply Zdigits2_ge; [lia | ].
  rewrite Z.pow_add_r by lia. rewrite Pos2Z.inj_mul.
  apply Z.mul_le_mono_nonneg; try assumption; apply Z.lt_le_incl, pow2_pos; lia.
Qed.

Lemma SFmul_at_least (a b : Z) (x y : spec_float) :
  -1072 <= a + b ->
  at_least false a x -> at_least false b y ->
  at_least false (a + b - 1) (SFmul prec emax x y).
Proof.
  intros Hab.
  destruct x as [sx | sx | | sx mx ex]; destruct y as [sy | sy | | sy my ey];
    cbn [at_least SFmul]; try tauto; try (intros; subst; reflexivity);
    try (intros ? [? ?]; subst; reflexivity); try (intros [? ?] ?; subst; reflexivity).
  intros [-> Hx] [-> Hy]. cbn [xorb].
  pose proof (digits2_pos_mul mx my) as Hd.
  apply at_least_weaken with (b := Zdigits2 (Zpos (mx * my)) + (ex + ey));
    [cbn [Zdigits2]; lia | ].
  apply binary_round_aux_mag; [lia | cbn [Zdigits2]; lia].
Qed.

Lemma sqrt_square_pow2 (m j : Z) : 0 <= j -> 2 ^ (2 * j) <= m -> 2 ^ j <= Z.sqrt m.
Proof.
  intros Hj Hm. rewrite <- (Z.sqrt_square (2 ^ j)) by (apply Z.lt_le_incl, pow2_pos; lia).
  apply Z.sqrt_le_mono. rewrite <- Z.pow_add_r by lia.
  replace (j + j) with (2 * j) by lia. exact Hm.
Qed.

Lemma SFsqrt_at_least (m : positive) (e : Z) :
  -1074 <= e ->
  at_least false (-536) (SFsqrt prec emax (S754_finite false m e)).
Proof.
  intros He. cbn [SFsqrt]. unfold SFsqrt_core_binary.
  set (d := Zdigits2 (Zpos m)).
  assert (Hd : 0 < d) by (apply Zdigits2_pos; lia).
  set (e' := Z.min (fexp prec emax (Z.div2 (d + e + 1))) (Z.div2 e)).
  change (IntDef.Z.min (fexp prec emax (IntDef.Z.div2 (d + e + 1))) (IntDef.Z.div2 e)) with e'.
  assert (He' : 2 * e' <= e).
  { unfold e'. rewrite (Z.div2_div e). pose proof (Z.le_min_r (fexp prec emax (Z.div2 (d + e + 1))) (e / 2)).
    pose proof (Z.mul_div_le e 2 ltac:(lia)). lia. }
  assert (He'lo : -1074 <= e').
  { unfold e'. rewrite fexp_eq, (Z.div2_div e).
    pose proof (Z.div_le_lower_bound e 2 (-537) ltac:(lia) ltac:(lia)). lia. }
  set (s := e - 2 * e') in *.
  assert (Hs : 0 <= s) by (unfold s; lia).
  set (m' := match s with 0 => Zpos m | Z.pos _ => Z.shiftl (Zpos m) s | Z.neg _ => 0 end).
  assert (Hm' : m' = Zpos m * 2 ^ s).
  { unfold m'. clearbody s. destruct s as [ | p | p]; try lia.
    apply Z.shiftl_mul_pow2. lia. }
  pose proof (Zdigits2_lower (Zpos m) ltac:(lia)) as Hlo. fold d in Hlo.
  assert (Hm'lo : 2 ^ (d - 1 + s) <= m').
  { rewrite Hm', Z.pow_add_r by lia.
    apply Z.mul_le_mono_nonneg_r; [apply Z.lt_le_incl, pow2_pos; lia | exact Hlo]. }
  set (j := (d - 1 + s) / 2).
  assert (Hj : 0 <= j) by (apply Z.div_pos; lia).
  assert (Hj2 : 2 * j <= d - 1 + s) by (apply Z.mul_div_le; lia).
  assert (Hj3 : d - 1 + s < 2 * j + 2).
  { pose proof (Z.mul_succ_div_gt (d - 1 + s) 2 ltac:(lia)). fold j in H. lia. }
  assert (Hq : 2 ^ j <= Z.sqrt m').
  { apply sqrt_square_pow2; [exact Hj | ].
    apply Z.le_trans with (2 := Hm'lo). apply Z.pow_le_mono_r; lia. }
  pose proof (Z.sqrtrem_sqrt m') as Hfst.
  destruct (Z.sqrtrem m') as [q r]. cbn [fst] in Hfst. subst q.
  pose proof (pow2_pos j Hj) as Hpj.
  pose proof (Zdigits2_ge (Z.sqrt m') j Hj Hq) as Hdq.
  apply at_least_weaken with (b := Zdigits2 (Z.sqrt m') + e'); [unfold s in *; lia | ].
  apply binary_round_aux_mag; [lia | unfold s in *; lia].
Qed.

Local Open Scope float_scope.

(** The square root of a positive number is at least [2^-537]. *)
Lemma sqrt_at_least (x : float) :
  nonneg x -> (x =? 0) = false -> at_least false (-536) (Prim2SF (sqrt x)).
Proof.
  unfold nonneg. rewrite eqb_zero_spec, FloatAxioms.sqrt_spec. unfold SF64sqrt.
  pose proof (Prim2SF_valid x) as V.
  destruct (Prim2SF x) as [s | s | | s m e]; cbn [signed is_zero_sf]; intros Hs Hz;
    try discriminate; try contradiction; subst s.
  - reflexivity.
  - apply SFsqrt_at_least. apply valid_finite in V. tauto.
Qed.

(** The denominator of the score is a positive number. *)
Lemma denominator_at_least (a b : float) :
  nonneg a -> nonneg b -> (a =? 0) = false -> (b =? 0) = false ->
  at_least false (-1073) (Prim2SF (sqrt a * sqrt b)).
Proof.
  intros Ha Hb Za Zb. rewrite FloatAxioms.mul_spec. unfold SF64mul.
  apply (SFmul_at_least (-536) (-536)); [lia | | ]; apply sqrt_at_least; assumption.
Qed.

Lemma zero_div (n d : float) (b : Z) :
  n = 0 -> at_least false b (Prim2SF d) -> n / d = 0.
Proof.
  intros -> Hd. apply Prim2SF_inj. rewrite FloatAxioms.div_spec, Prim2SF_zero.
  unfold SF64div. destruct (Prim2SF d) as [s | s | | s m e]; cbn in Hd |- *;
    try contradiction; [subst s | destruct Hd as [-> _]]; reflexivity.
Qed.

(** *** A dot product of zeros *)

Lemma is_infinity_spec (x : float) :
  PrimFloat.is_infinity x = match Prim2SF x with S754_infinity _ => true | _ => false end.
Proof.
  unfold PrimFloat.is_infinity. rewrite FloatAxioms.eqb_spec, FloatAxioms.abs_spec.
  destruct (Prim2SF x) as [s | [ | ] | | [ | ] m e]; cbn; try reflexivity.
Qed.

(** A finite number times zero is a zero. *)
Lemma mul_zero_r (x : float) :
  PrimFloat.is_infinity x = false -> PrimFloat.is_nan x = false ->
  (x * 0 =? 0) = true.
Proof.
  rewrite is_infinity_spec, is_nan_spec, eqb_zero_spec, FloatAxioms.mul_spec, Prim2SF_zero.
  unfold SF64mul. destruct (Prim2SF x); cbn; congruence.
Qed.

Lemma mul_zero_l (x : float) :
  PrimFloat.is_infinity x = false -> PrimFloat.is_nan x = false ->
  (0 * x =? 0) = true.
Proof. intros. rewrite mul_comm. apply mul_zero_r; assumption. Qed.

(** Adding a zero of either sign to [+0] gives [+0]. *)
Lemma zero_add_zero (z : float) : (z =? 0) = true -> 0 + z = 0.
Proof.
  rewrite eqb_zero_spec. intros H. apply Prim2SF_inj.
  rewrite FloatAxioms.add_spec, Prim2SF_zero. unfold SF64add.
  destruct (Prim2SF z) as [[ | ] | | | ]; try discriminate H; reflexivity.
Qed.

Lemma sum_zeros (f : string -> float) (keys : list string) :
  (forall k, In k keys -> (f k =? 0) = true) ->
  fold_left (fun a k => a + f k) keys 0 = 0.
Proof.
  induction keys as [ | k keys IH]; intros H; cbn [fold_left]; [reflexivity | ].
  rewrite zero_add_zero by (apply H; left; reflexivity).
  apply IH. intros k' Hk'. apply H. right. exact Hk'.
Qed.

Lemma or_zero_finite (o : option Js.number) :
  (forall x, o = Some x -> PrimFloat.is_infinity x = false) ->
  PrimFloat.is_infinity (Js.or_zero o) = false.
Proof.
  destruct o as [x | ]; cbn [Js.or_zero]; intros H; [ | reflexivity].
  destruct (Js.truthy x); [apply H; reflexivity | reflexivity].
Qed.

Lemma ownValue_finite (v : VectorMap) (k : string) :
  finite_weights v -> PrimFloat.is_infinity (Similarity.ownValue v k) = false.
Proof.
  intros H. apply or_zero_finite. intros x Hx.
  apply VectorFacts.vec_get_Some_In in Hx.
  unfold finite_weights in H. rewrite Forall_forall in H. apply (H (k, x) Hx).
Qed.

Lemma dot_disjoint (A B : VectorMap) (keys : list string) :
  finite_weights A -> finite_weights B -> disjoint_keys A B ->
  fold_left (fun a k => a + Similarity.ownValue A k * Similarity.ownValue B k) keys 0 = 0.
Proof.
  intros FA FB Hd. apply sum_zeros. intros k _.
  destruct (in_dec string_dec k (object_keys A)) as [Hin | Hout].
  - rewrite (Similarity.ownValue_absent B k (Hd k Hin)).
    apply mul_zero_r; [apply ownValue_finite, FA | apply Similarity.or_zero_not_nan].
  - rewrite (Similarity.ownValue_absent A k Hout).
    apply mul_zero_l; [apply ownValue_finite, FB | apply Similarity.or_zero_not_nan].
Qed.

End Magnitude.

Module Disjoint.

Lemma traitsToVector_finite (t : UserTraits) :
  finite_intensities t -> finite_weights (traitsToVector t).
Proof.
  apply (VecForall.traitsToVector_Forall (fun x => PrimFloat.is_infinity x = false)).
  reflexivity.
Qed.

Lemma traitsToVector_disjoint (P Q : UserTraits) :
  nothing_in_common P Q -> disjoint_keys (traitsToVector P) (traitsToVector Q).
Proof.
  intros (Hn & Hi & Hw) k HP HQ.
  apply VecForall.traitsToVector_keys_In in HP, HQ.
  destruct HP as [(n & Hn1 & ->) | [(i & Hi1 & ->) | (w & Hw1 & ->)]];
    destruct HQ as [(n' & Hn2 & E) | [(i' & Hi2 & E) | (w' & Hw2 & E)]];
    try discriminate E.
  - apply VectorFacts.append_inj_r in E. subst n'. exact (Hn n Hn1 Hn2).
  - apply VectorFacts.append_inj_r in E. subst i'. exact (Hi i Hi1 Hi2).
  - apply VectorFacts.append_inj_r in E. subst w'. exact (Hw w Hw1 Hw2).
Qed.

(** No key of the vector of a profile names a member of
    [Object.prototype]. *)
Lemma traitsToVector_plain (t : UserTraits) : plain_keys (traitsToVector t) = true.
Proof.
  unfold plain_keys. apply forallb_forall. intros k Hk. apply negb_true_iff.
  apply VecForall.traitsToVector_keys_In in Hk.
  destruct Hk as [(n & _ & ->) | [(i & _ & ->) | (w & _ & ->)]].
  - apply ZeroWeight.personality_plain.
  - apply ZeroWeight.interest_plain.
  - apply ZeroWeight.value_plain.
Qed.

End Disjoint.

(** X12: nothing in common scores exactly 0.  Two vectors without a
    common key, without an infinite weight and without a key that
    names a member of [Object.prototype] have similarity [0], not
    [NaN] and not a rounding residue, however small or large their
    weights; so have two profiles that share no personality trait, no
    interest and no value. *)
Theorem cosineSimilarity_disjoint :
  (forall A B : VectorMap,
      plain_keys A = true -> plain_keys B = true ->
      finite_weights A -> finite_weights B -> disjoint_keys A B ->
      cosineSimilarity A B = 0%float)
  /\ (forall P Q : UserTraits,
         finite_intensities P -> finite_intensities Q -> nothing_in_common P Q ->
         calculateUserSimilarity P Q = 0%float).
Proof.
  assert (H : forall A B : VectorMap,
             plain_keys A = true -> plain_keys B = true ->
             finite_weights A -> finite_weights B -> disjoint_keys A B ->
             cosineSimilarity A B = 0%float).
  { intros A B PA PB HA HB Hdisjoint. unfold cosineSimilarity.
    destruct (Similarity.loop_plain A B PA PB) as (Ed & Ea & Eb).
    destruct ((normA (loop A B) =? 0)%float || (normB (loop A B) =? 0)%float) eqn:Hz;
      [reflexivity | ].
    apply orb_false_iff in Hz as [Za Zb].
    apply (Magnitude.zero_div _ _ (-1073)%Z).
    - rewrite Ed. apply Magnitude.dot_disjoint; assumption.
    - rewrite Ea in Za |- *. rewrite Eb in Zb |- *.
      apply Magnitude.denominator_at_least; try assumption.
      + apply Similarity.sum_nonneg; [apply Similarity.square_nonneg | apply FloatFacts.nonneg_zero].
      + apply Similarity.sum_nonneg; [apply Similarity.square_nonneg | apply FloatFacts.nonneg_zero]. }
  split; [exact H | ].
  intros P Q HP HQ Hc. unfold calculateUserSimilarity.
  apply H; [apply Disjoint.traitsToVector_plain
           | apply Disjoint.traitsToVector_plain
           | apply Disjoint.traitsToVector_finite, HP
           | apply Disjoint.traitsToVector_finite, HQ
           | apply Disjoint.traitsToVector_disjoint, Hc].
Qed.

Lemma cosineSimilarity_disjoint_witness :
  cosineSimilarity [("x"%string, 0x1p-537%float)] [("y"%string, 0x1p-537%float)] = 0%float
  /\ calculateUserSimilarity
       traits_u0 (mkTraits [("humor"%string, 0.5%float)] ["chess"%string] ["honesty"%string])
     = 0%float.
Proof.
  split.
  - apply (proj1 cosineSimilarity_disjoint).
    + reflexivity.
    + reflexivity.
    + repeat constructor.
    + repeat constructor.
    + intros k [<- | []] [H | []]. discriminate H.
  - apply (proj2 cosineSimilarity_disjoint).
    + repeat constructor.
    + repeat constructor.
    + repeat split; cbn; intros x; intuition (subst; discriminate).
Defined.

(** X19: zero-norm safety on plain keys.  When no key of the two
    vectors names a member of [Object.prototype] and the squared norm
    of either is exactly zero (the vector is empty, or each of its
    weights is [0], [-0] or [NaN], or so small that its square
    underflows to zero), [cosineSimilarity] returns exactly [0] and
    forms no quotient; so an empty vector scores [0] against every such
    vector, and the empty profile scores [0] against every profile. *)
Theorem cosineSimilarity_zero_norm_plain :
  (forall A B : VectorMap,
      plain_keys A = true -> plain_keys B = true ->
      (squaredNorm A =? 0)%float = true \/ (squaredNorm B =? 0)%float = true ->
      cosineSimilarity A B = 0%float)
  /\ (forall B : VectorMap,
         plain_keys B = true ->
         cosineSimilarity [] B = 0%float /\ cosineSimilarity B [] = 0%float)
  /\ (forall Q : UserTraits,
         calculateUserSimilarity (mkTraits [] [] []) Q = 0%float
         /\ calculateUserSimilarity Q (mkTraits [] [] []) = 0%float).
Proof.
  assert (H : forall A B : VectorMap,
             plain_keys A = true -> plain_keys B = true ->
             (squaredNorm A =? 0)%float = true \/ (squaredNorm B =? 0)%float = true ->
             cosineSimilarity A B = 0%float).
  { intros A B PA PB Hz. unfold cosineSimilarity.
    rewrite Similarity.loop_normA_zero by exact PB.
    rewrite Similarity.loop_normB_zero by exact PA.
    destruct Hz as [-> | ->]; [reflexivity | rewrite orb_true_r; reflexivity]. }
  split; [exact H | split].
  - intros B PB. split; apply H; try exact PB; try reflexivity.
    + left. reflexivity.
    + right. reflexivity.
  - intros Q. unfold calculateUserSimilarity. split; apply H;
      try apply Disjoint.traitsToVector_plain.
    + left. reflexivity.
    + right. reflexivity.
Qed.

Lemma cosineSimilarity_zero_norm_plain_witness :
  cosineSimilarity [("x"%string, 0%float); ("y"%string, (-0)%float)] vec_xyz = 0%float
  /\ cosineSimilarity vec_xyz [] = 0%float
  /\ calculateUserSimilarity (mkTraits [] [] []) traits_u0 = 0%float.
Proof.
  split; [ | split].
  - apply (proj1 cosineSimilarity_zero_norm_plain); [reflexivity | reflexivity | ].
    left. reflexivity.
  - apply (proj1 (proj2 cosineSimilarity_zero_norm_plain) vec_xyz). reflexivity.
  - apply (proj2 (proj2 cosineSimilarity_zero_norm_plain) traits_u0).
Defined.

(* ================================================================== *)
(** * Part IX: the message routes                                  *)
(* ================================================================== *)

Module ChatFacts.
Import Chat.
Import Resolver Unlike Invariant Liking.

(** *** What the handlers compute *)

Lemma has_match_id_In (db : Db) (m : Match.t) :
  In m (matches db) -> has_match_id db (Match.id m) = true.
Proof.
  intros H. unfold has_match_id. apply existsb_exists. exists m.
  split; [exact H | apply Z.eqb_refl].
Qed.

(** The message POST / stores. *)
Definition sent (s : Store) (now : Z) (u r : Z) (text : string) (m : Match.t) : Message.t :=
  Message.mk (nextMessageId s) text false now u r (Match.id m).

Lemma postMessage_run (now : Z) (user : AuthUser) (receiverId : Z) (text : string) (s : Store) :
  postMessage now user receiverId text s =
  if (auth_id user =? receiverId)%Z
  then (Resolved (mkReply 400 (Error "Cannot send a message to yourself")), s)
  else
    match hd_error (pair_matches (base s) (auth_id user) receiverId) with
    | None =>
        (Resolved (mkReply 403 (Error "You must match with a user before sending messages")), s)
    | Some m =>
        if user_exists (base s) (auth_id user) && user_exists (base s) receiverId
        then (Resolved (mkReply 201 (Sent (sent s now (auth_id user) receiverId text m))),
              mkStore (base s)
                      (messages s ++ [sent s now (auth_id user) receiverId text m])
                      (nextMessageId s + 1))
        else (Resolved (mkReply 500 (Error "Server error sending message")), s)
    end.
Proof.
  unfold postMessage, try_catch.
  destruct (auth_id user =? receiverId)%Z; [reflexivity | ].
  unfold bind at 1, match_findFirst. rewrite find_filter.
  fold (pair_matches (base s) (auth_id user) receiverId).
  destruct (pair_matches (base s) (auth_id user) receiverId) as [ | m r] eqn:E;
    cbn [hd_error]; [reflexivity | ].
  assert (Hin : In m (pair_matches (base s) (auth_id user) receiverId))
    by (rewrite E; left; reflexivity).
  apply filter_In in Hin as [Hin _].
  unfold bind, message_create. rewrite (has_match_id_In _ _ Hin), andb_true_r.
  destruct (user_exists (base s) (auth_id user) && user_exists (base s) receiverId);
    reflexivity.
Qed.

(** The messages of a Match as GET /match/:matchId lists them, and
    the store once those addressed to [u] are marked as read. *)
Definition listed (s : Store) (matchId : Z) : list Message.t :=
  orderBy_createdAt_asc (filter (fun msg => (Message.matchId msg =? matchId)%Z) (messages s)).

Definition unread_ids (s : Store) (matchId u : Z) : list Z :=
  map Message.id (filter (is_unread_for u) (listed s matchId)).

Definition marked (s : Store) (ids : list Z) : Store :=
  mkStore (base s)
          (map (fun msg => if existsb (Z.eqb (Message.id msg)) ids then set_read msg else msg)
               (messages s))
          (nextMessageId s).

Lemma marked_nil (s : Store) : marked s [] = s.
Proof.
  unfold marked. cbn [existsb]. rewrite map_id. destruct s; reflexivity.
Qed.

Lemma getMatchMessages_run (user : AuthUser) (matchIdNum : Z) (s : Store) :
  getMatchMessages user (Some matchIdNum) s =
  match find (fun m => (Match.id m =? matchIdNum)%Z) (matches (base s)) with
  | None => (Resolved (mkReply 404 (Error "Match not found")), s)
  | Some m =>
      if negb (Match.userAId m =? auth_id user)%Z && negb (Match.userBId m =? auth_id user)%Z
      then (Resolved (mkReply 403 (Error "Not authorized to view these messages")), s)
      else (Resolved (mkReply 200 (Messages (map view (listed s matchIdNum)))),
            marked s (unread_ids s matchIdNum (auth_id user)))
  end.
Proof.
  unfold getMatchMessages, try_catch. unfold bind at 1, match_findUnique.
  destruct (find _ (matches (base s))) as [m | ]; [ | reflexivity].
  destruct (negb _ && negb _); [reflexivity | ].
  unfold bind at 1, message_findMany. fold (listed s matchIdNum).
  change (filter _ (listed s matchIdNum)) with (filter (is_unread_for (auth_id user)) (listed s matchIdNum)).
  fold (unread_ids s matchIdNum (auth_id user)).
  destruct (unread_ids s matchIdNum (auth_id user)) as [ | i ids] eqn:E.
  - cbn [List.length Nat.ltb Nat.leb]. unfold bind, ret. rewrite marked_nil. reflexivity.
  - cbn [List.length]. reflexivity.
Qed.

Lemma putMessageRead_run (user : AuthUser) (messageIdNum : Z) (s : Store) :
  putMessageRead user (Some messageIdNum) s =
  match find (fun msg => (Message.id msg =? messageIdNum)%Z) (messages s) with
  | None => (Resolved (mkReply 404 (Error "Message not found")), s)
  | Some message =>
      if negb (Message.receiverId message =? auth_id user)%Z
      then (Resolved (mkReply 403 (Error "Not authorized to mark this message as read")), s)
      else (Resolved (mkReply 200 (Marked (view (set_read message)))),
            marked s [messageIdNum])
  end.
Proof.
  unfold putMessageRead, try_catch. unfold bind at 1, message_findUnique.
  destruct (find _ (messages s)) as [message | ] eqn:E; [ | reflexivity].
  destruct (negb _); [reflexivity | ].
  unfold bind, message_update. rewrite E. unfold ret, marked. cbn [existsb].
  f_equal. f_equal. apply map_ext. intros msg. rewrite orb_false_r. reflexivity.
Qed.

(** The entries GET /unread lists for [u]. *)
Definition unread_in (s : Store) (u : Z) (m : Match.t) : list Message.t :=
  filter (fun msg => (Message.matchId msg =? Match.id m)%Z && is_unread_for u msg)
         (messages s).

Definition unread_matches (s : Store) (u : Z) : list Match.t :=
  filter (fun m => ((Match.userAId m =? u)%Z || (Match.userBId m =? u)%Z)
                   && negb (List.length (unread_in s u m) =? 0)%nat)
         (matches (base s)).

Definition unread_entry (s : Store) (u : Z) (m : Match.t) : UnreadEntry.t :=
  UnreadEntry.mk (Match.id m)
                 (if (Match.userAId m =? u)%Z then Match.userBId m else Match.userAId m)
                 (Z.of_nat (List.length (unread_in s u m))).

Lemma getUnread_run (user : AuthUser) (s : Store) :
  getUnread user s =
  (Resolved (mkReply 200
               (Unread (Z.of_nat (List.length (unread_for (auth_id user) s)))
                       (map (unread_entry s (auth_id user))
                            (unread_matches s (auth_id user))))),
   s).
Proof.
  unfold getUnread, try_catch, bind, message_count, match_findMany, ret.
  rewrite map_map. reflexivity.
Qed.

End ChatFacts.

Module ChatInvariant.
Import Resolver Unlike Invariant Liking.

Lemma base_lift {A} (c : Async A) (s : Store) :
  base (snd (Chat.lift c s)) = snd (c (base s)).
Proof. unfold Chat.lift. destruct (c (base s)). reflexivity. Qed.

Lemma messages_lift {A} (c : Async A) (s : Store) :
  messages (snd (Chat.lift c s))
  = Chat.cascade (base s) (snd (c (base s))) (messages s).
Proof. unfold Chat.lift. destruct (c (base s)). reflexivity. Qed.

Lemma next_lift {A} (c : Async A) (s : Store) :
  nextMessageId (snd (Chat.lift c s)) = nextMessageId s.
Proof. unfold Chat.lift. destruct (c (base s)). reflexivity. Qed.

Lemma base_postMessage (now : Z) (user : AuthUser) (r : Z) (text : string) (s : Store) :
  base (snd (Chat.postMessage now user r text s)) = base s.
Proof.
  rewrite ChatFacts.postMessage_run.
  destruct (_ =? _)%Z; [reflexivity | ]. destruct (hd_error _); [ | reflexivity].
  destruct (_ && _); reflexivity.
Qed.

Lemma base_getMatchMessages (user : AuthUser) (p : option Z) (s : Store) :
  base (snd (Chat.getMatchMessages user p s)) = base s.
Proof.
  destruct p as [i | ]; [ | reflexivity]. rewrite ChatFacts.getMatchMessages_run.
  destruct (find _ _); [ | reflexivity]. destruct (_ && _); reflexivity.
Qed.

Lemma base_putMessageRead (user : AuthUser) (p : option Z) (s : Store) :
  base (snd (Chat.putMessageRead user p s)) = base s.
Proof.
  destruct p as [i | ]; [ | reflexivity]. rewrite ChatFacts.putMessageRead_run.
  destruct (find _ _); [ | reflexivity]. destruct (negb _); reflexivity.
Qed.

(** The matching core of a reachable store is a reachable store of
    the matching core. *)
Lemma reachable_base (s : Store) : Chat.reachable s -> reachable (base s).
Proof.
  induction 1.
  - apply reach_init.
  - unfold Chat.postLike. rewrite base_lift. apply reach_postLike. assumption.
  - unfold Chat.deleteLike. rewrite base_lift. apply reach_deleteLike. assumption.
  - rewrite base_postMessage. assumption.
  - rewrite base_getMatchMessages. assumption.
  - rewrite base_putMessageRead. assumption.
Qed.

(** *** Match rows across a step of the matching core *)

Lemma matches_postLike (user : AuthUser) (v : Z) (db : Db) (m : Match.t) :
  In m (matches (snd (postLike user v db))) ->
  In m (matches db) \/ Match.id m = nextMatchId db.
Proof.
  rewrite postLike_run.
  destruct (_ =? _)%Z; [auto | ]. destruct (requester db v); [ | auto].
  destruct (negb _); [auto | ]. destruct (has_like db (auth_id user) v); [auto | ].
  destruct (negb _); [auto | ]. destruct (has_like db v (auth_id user)); [ | auto].
  destruct (hd_error _); [auto | ]. cbn [snd created matches].
  intros H. apply in_app_or in H as [H | [<- | []]]; auto.
Qed.

Lemma matches_postLike_keep (user : AuthUser) (v : Z) (db : Db) (m : Match.t) :
  In m (matches db) -> In m (matches (snd (postLike user v db))).
Proof.
  rewrite postLike_run.
  destruct (_ =? _)%Z; [auto | ]. destruct (requester db v); [ | auto].
  destruct (negb _); [auto | ]. destruct (has_like db (auth_id user) v); [auto | ].
  destruct (negb _); [auto | ]. destruct (has_like db v (auth_id user)); [ | auto].
  destruct (hd_error _); [auto | ]. cbn [snd created matches].
  intros H. apply in_or_app. left. exact H.
Qed.

Lemma matches_deleteLike (user : AuthUser) (p : option Z) (db : Db) (m : Match.t) :
  In m (matches (snd (deleteLike user p db))) -> In m (matches db).
Proof.
  destruct p as [v | ]; [ | auto]. rewrite deleteLike_run.
  destruct (has_like db (auth_id user) v); [ | auto].
  destruct (hd_error _); cbn [snd unmatched unliked matches]; [ | auto].
  intros H. apply filter_In in H. tauto.
Qed.

(** *** The invariant of the message table *)

Lemma messages_wf_init (us : list User.t) (n k : Z) :
  Chat.messages_wf (mkStore (mkDb us [] [] n) [] k).
Proof. repeat split; constructor. Qed.

Lemma map_id_marked (s : Store) (ids : list Z) :
  map Message.id (messages (ChatFacts.marked s ids)) = map Message.id (messages s).
Proof.
  unfold ChatFacts.marked. cbn [messages]. rewrite map_map. apply map_ext.
  intros msg. destruct (existsb _ ids); reflexivity.
Qed.

Lemma wf_marked (s : Store) (ids : list Z) :
  Chat.messages_wf s -> Chat.messages_wf (ChatFacts.marked s ids).
Proof.
  intros (ND & Hlt & Hm). unfold Chat.messages_wf. rewrite map_id_marked.
  split; [exact ND | ].
  unfold ChatFacts.marked. cbn [messages nextMessageId base].
  split; apply Forall_map; [apply Forall_impl with (2 := Hlt) | apply Forall_impl with (2 := Hm)];
    intros msg H; destruct (existsb _ ids); exact H.
Qed.

Lemma wf_sent (s : Store) (now u r : Z) (text : string) (m : Match.t) :
  Chat.messages_wf s -> In m (matches (base s)) -> prisma.is_match_of u r m = true ->
  Chat.messages_wf
    (mkStore (base s) (messages s ++ [ChatFacts.sent s now u r text m]) (nextMessageId s + 1)).
Proof.
  intros (ND & Hlt & Hm) Hin Hp. unfold Chat.messages_wf. cbn [messages nextMessageId base].
  split; [ | split].
  - rewrite map_app. cbn [map ChatFacts.sent Message.id].
    apply NoDup_app; [exact ND | repeat constructor; intros [] | ].
    intros i Hi [<- | []]. apply in_map_iff in Hi as (msg & E & Hmsg).
    rewrite Forall_forall in Hlt. specialize (Hlt msg Hmsg). lia.
  - apply Forall_app. split.
    + apply Forall_impl with (2 := Hlt). intros msg H. lia.
    + repeat constructor. cbn. lia.
  - apply Forall_app. split; [exact Hm | ].
    repeat constructor. exists m. cbn. auto.
Qed.

(** Across a step of the matching core that keeps the rows it does
    not delete as they are, the messages that survive the cascade are
    well-formed. *)
Lemma wf_cascade (s : Store) (db' : Db) :
  Chat.messages_wf s -> matches_wf (base s) ->
  (forall m, In m (matches db') -> In m (matches (base s)) \/ Match.id m = nextMatchId (base s)) ->
  Chat.messages_wf (mkStore db' (Chat.cascade (base s) db' (messages s)) (nextMessageId s)).
Proof.
  intros (ND & Hlt & Hm) (NDm & Hltm & _) Hstep.
  unfold Chat.messages_wf, Chat.cascade. cbn [messages nextMessageId base].
  split; [ | split].
  - clear Hlt Hm. induction (messages s) as [ | msg l IH]; cbn; [constructor | ].
    inversion ND as [ | ? ? Hn ND']; subst.
    destruct (_ || _); cbn; [ | auto]. constructor; [ | auto].
    intros H. apply Hn. apply in_map_iff in H as (msg' & E & H').
    apply filter_In in H' as [H' _]. rewrite <- E. apply in_map, H'.
  - rewrite Forall_forall in *. intros msg H. apply filter_In in H as [H _]. auto.
  - rewrite Forall_forall in *. intros msg H. apply filter_In in H as [H Hk].
    destruct (Hm msg H) as (m & Hin & Hid & Hp).
    assert (Hb : Chat.has_match_id (base s) (Message.matchId msg) = true).
    { rewrite <- Hid. apply ChatFacts.has_match_id_In, Hin. }
    rewrite Hb in Hk. cbn [negb orb] in Hk.
    unfold Chat.has_match_id in Hk. apply existsb_exists in Hk as (m' & Hin' & E).
    apply Z.eqb_eq in E. exists m'. split; [exact Hin' | split; [exact E | ]].
    destruct (Hstep m' Hin') as [Hold | Hnew].
    + rewrite (NoDup_map_eq Match.id _ m' m NDm Hold Hin) by congruence. exact Hp.
    + specialize (Hltm m Hin). lia.
Qed.

Lemma reachable_messages_wf (s : Store) : Chat.reachable s -> Chat.messages_wf s.
Proof.
  induction 1 as [us n k | s user v Hr IH | s user p Hr IH | s now user r text Hr IH
                  | s user p Hr IH | s user p Hr IH].
  - apply messages_wf_init.
  - pose proof (Invariant.reachable_wf _ (reachable_base s Hr)) as Hwf.
    unfold Chat.postLike, Chat.lift.
    pose proof (matches_postLike user v (base s)) as Hstep.
    destruct (postLike user v (base s)) as [o db']. cbn [snd] in *.
    apply wf_cascade; assumption.
  - pose proof (Invariant.reachable_wf _ (reachable_base s Hr)) as Hwf.
    unfold Chat.deleteLike, Chat.lift.
    pose proof (matches_deleteLike user p (base s)) as Hstep.
    destruct (deleteLike user p (base s)) as [o db']. cbn [snd] in *.
    apply wf_cascade; auto.
  - rewrite ChatFacts.postMessage_run.
    destruct (_ =? _)%Z; [exact IH | ].
    destruct (pair_matches (base s) (auth_id user) r) as [ | m rest] eqn:E; cbn [hd_error];
      [exact IH | ].
    assert (Hin : In m (pair_matches (base s) (auth_id user) r)) by (rewrite E; left; reflexivity).
    apply filter_In in Hin as [Hin Hp].
    destruct (_ && _); [ | exact IH]. cbn [snd]. apply wf_sent; assumption.
  - destruct p as [i | ]; [ | exact IH]. rewrite ChatFacts.getMatchMessages_run.
    destruct (find _ _); [ | exact IH]. destruct (_ && _); [exact IH | ].
    apply wf_marked, IH.
  - destruct p as [i | ]; [ | exact IH]. rewrite ChatFacts.putMessageRead_run.
    destruct (find _ _); [ | exact IH]. destruct (negb _); [exact IH | ].
    apply wf_marked, IH.
Qed.

End ChatInvariant.

Module ChatUsers.
Import Resolver Unlike Invariant Liking.

(** Likes are only ever given between users whose rows exist. *)
Definition likes_have_users (db : Db) : Prop :=
  forall a b, has_like db a b = true -> user_exists db a = true /\ user_exists db b = true.

Lemma likes_have_users_postLike (user : AuthUser) (v : Z) (db : Db) :
  likes_have_users db -> likes_have_users (snd (postLike user v db)).
Proof.
  intros H. rewrite postLike_run.
  destruct (_ =? _)%Z; [exact H | ].
  destruct (requester db v) as [toUser | ] eqn:Hv; [ | exact H].
  destruct (negb _); [exact H | ]. destruct (has_like db (auth_id user) v); [exact H | ].
  destruct (user_exists db (auth_id user)) eqn:Hu; cbn [negb]; [ | exact H].
  assert (H1 : likes_have_users (liked db (auth_id user) v)).
  { intros a b Hab. apply has_like_liked in Hab as [Hab | [-> ->]].
    - apply (H a b Hab).
    - split; [exact Hu | apply (find_user_exists db v toUser Hv)]. }
  destruct (has_like db v (auth_id user)); [ | exact H1].
  destruct (hd_error _); exact H1.
Qed.

Lemma likes_have_users_deleteLike (user : AuthUser) (p : option Z) (db : Db) :
  likes_have_users db -> likes_have_users (snd (deleteLike user p db)).
Proof.
  intros H. destruct p as [v | ]; [ | exact H]. rewrite deleteLike_run.
  destruct (has_like db (auth_id user) v); [ | exact H].
  assert (H1 : likes_have_users (unliked db (auth_id user) v)).
  { intros a b Hab. apply has_like_unliked in Hab as [Hab _]. apply (H a b Hab). }
  destruct (hd_error _); exact H1.
Qed.

Lemma reachable_likes_have_users (db : Db) : reachable db -> likes_have_users db.
Proof.
  induction 1.
  - intros a b H. discriminate H.
  - apply likes_have_users_postLike. assumption.
  - apply likes_have_users_deleteLike. assumption.
Qed.

(** In a reachable store the pair has a Match exactly when both Likes
    exist, and then both users exist. *)
Lemma matched_mutual (db : Db) (a b : Z) :
  reachable db -> matched db a b = mutual_like db a b.
Proof.
  intros Hr. destruct (reachable_likes_wf db Hr) as (Hm & _).
  specialize (Hm a b). unfold mutual_like. rewrite <- andb_true_iff in Hm.
  destruct (matched db a b), (has_like db a b && has_like db b a);
    try reflexivity; intuition congruence.
Qed.

Lemma pair_matches_single (db : Db) (a b : Z) :
  reachable db -> mutual_like db a b = true ->
  exists m, pair_matches db a b = [m] /\ In m (matches db)
            /\ prisma.is_match_of a b m = true.
Proof.
  intros Hr Hm. rewrite <- (matched_mutual db a b Hr) in Hm.
  destruct (reachable_wf db Hr) as (_ & _ & Hpair). specialize (Hpair a b).
  destruct (pair_matches db a b) as [ | m [ | m' r]] eqn:E; cbn in Hpair; try lia.
  - apply matched_pair_matches in E. congruence.
  - exists m. split; [reflexivity | ].
    assert (Hin : In m (pair_matches db a b)) by (rewrite E; left; reflexivity).
    apply filter_In in Hin. exact Hin.
Qed.

End ChatUsers.

(** X13: a message needs a Match.  In every store the like, unlike and
    message handlers can produce, POST / answers 201 exactly when the
    sender and the receiver like each other; the stored message is
    then unread, stamped with the time of insertion, carries the next
    id and the id of the one Match of the pair, and is appended to the
    table, nothing else changing.  A message to oneself is answered 400
    and one to a user without a mutual Like 403 (for a receiver id
    within the range of the [Int] column), the store unchanged. *)
Theorem postMessage_needs_match
    (s : Store) (now : Z) (user : AuthUser) (receiverId : Z) (text : string)
    (Hreach : Chat.reachable s) :
  let u := auth_id user in
  let r := Chat.postMessage now user receiverId text s in
  ((exists body, fst r = Resolved (Chat.mkReply 201 body))
   <-> mutual_like (base s) u receiverId = true)
  /\ (mutual_like (base s) u receiverId = true ->
      exists m,
        pair_matches (base s) u receiverId = [m]
        /\ let message :=
             Message.mk (nextMessageId s) text false now u receiverId (Match.id m) in
           r = (Resolved (Chat.mkReply 201 (Chat.Sent message)),
                mkStore (base s) (messages s ++ [message]) (nextMessageId s + 1)))
  /\ (u = receiverId ->
      r = (Resolved (Chat.mkReply 400 (Chat.Error "Cannot send a message to yourself")), s))
  /\ (u <> receiverId -> int4 receiverId = true ->
      mutual_like (base s) u receiverId = false ->
      r = (Resolved
             (Chat.mkReply 403 (Chat.Error "You must match with a user before sending messages")),
           s)).
Proof.
  intros u r. subst r. rewrite ChatFacts.postMessage_run. fold u.
  pose proof (ChatInvariant.reachable_base s Hreach) as Hb.
  destruct (Liking.reachable_likes_wf _ Hb) as (_ & Hself & _).
  assert (Hsent : mutual_like (base s) u receiverId = true ->
                  (u =? receiverId)%Z = false
                  /\ exists m, pair_matches (base s) u receiverId = [m]
                               /\ user_exists (base s) u && user_exists (base s) receiverId = true).
  { intros Hm. split.
    - apply Z.eqb_neq. intros E. unfold mutual_like in Hm. rewrite <- E, Hself in Hm.
      discriminate Hm.
    - destruct (ChatUsers.pair_matches_single _ u receiverId Hb Hm) as (m & E & _).
      exists m. split; [exact E | ].
      unfold mutual_like in Hm. apply andb_true_iff in Hm as [Hm _].
      destruct (ChatUsers.reachable_likes_have_users _ Hb _ _ Hm) as [-> ->]. reflexivity. }
  assert (Hnone : mutual_like (base s) u receiverId = false ->
                  pair_matches (base s) u receiverId = []).
  { intros Hm. apply Liking.matched_pair_matches.
    rewrite (ChatUsers.matched_mutual _ _ _ Hb). exact Hm. }
  split; [ | split; [ | split]].
  - destruct (mutual_like (base s) u receiverId) eqn:Hm.
    + destruct (Hsent eq_refl) as (-> & m & -> & ->). cbn [hd_error fst].
      split; [reflexivity | intros _; eexists; reflexivity].
    + split; [ | discriminate]. intros (body & E).
      destruct (u =? receiverId)%Z; [discriminate E | ].
      rewrite (Hnone eq_refl) in E. discriminate E.
  - intros Hm. destruct (Hsent Hm) as (-> & m & E & ->). exists m.
    split; [exact E | ]. rewrite E. reflexivity.
  - intros ->. rewrite Z.eqb_refl. reflexivity.
  - intros Hne _ Hm. apply Z.eqb_neq in Hne. rewrite Hne, (Hnone Hm). reflexivity.
Qed.

Module Conversations.
Import Resolver Unlike Invariant Liking.

Lemma between_is_match_of (a b : Z) (msg : Message.t) (m : Match.t) :
  prisma.is_match_of a b m = true ->
  Chat.between a b msg
  = prisma.is_match_of (Message.senderId msg) (Message.receiverId msg) m.
Proof.
  intros H. apply is_match_of_iff in H. unfold Chat.between, prisma.is_match_of.
  destruct H as [[<- <-] | [<- <-]];
    repeat match goal with
           | |- context [(?x =? ?y)%Z] => destruct (Z.eqb_spec x y)
           end; cbn; try reflexivity; congruence.
Qed.

(** In a reachable store the messages that carry the id of a Match
    are the messages between its two users. *)
Lemma matchId_between (s : Store) (m : Match.t) (msg : Message.t) :
  Chat.reachable s -> In m (matches (base s)) -> In msg (messages s) ->
  (Message.matchId msg =? Match.id m)%Z
  = prisma.is_match_of (Message.senderId msg) (Message.receiverId msg) m.
Proof.
  intros Hr Hm Hmsg.
  destruct (ChatInvariant.reachable_messages_wf s Hr) as (_ & _ & Hw).
  destruct (reachable_wf _ (ChatInvariant.reachable_base s Hr)) as (ND & _ & Hpair).
  rewrite Forall_forall in Hw. destruct (Hw msg Hmsg) as (m0 & Hin0 & Hid0 & Hp0).
  destruct (Z.eqb_spec (Message.matchId msg) (Match.id m)) as [E | E].
  - rewrite <- (NoDup_map_eq Match.id _ m0 m ND Hin0 Hm) by congruence.
    symmetry. exact Hp0.
  - symmetry. apply not_true_is_false. intros Hp. apply E.
    rewrite <- (filter_le_1 _ _ m0 m (Hpair _ _) Hin0 Hp0 Hm Hp). symmetry. exact Hid0.
Qed.

(** *** Counting by Match *)

Lemma count_one (k : Z) (ids : list Z) :
  NoDup ids -> In k ids ->
  fold_right Nat.add 0%nat (map (fun i => if (k =? i)%Z then 1%nat else 0%nat) ids) = 1%nat.
Proof.
  induction ids as [ | i ids IH]; intros ND Hin; [contradiction | ].
  inversion ND as [ | ? ? Hn ND']; subst. cbn [map fold_right].
  destruct (Z.eqb_spec k i) as [-> | Hne].
  - assert (H0 : fold_right Nat.add 0%nat
                   (map (fun i0 => if (i =? i0)%Z then 1%nat else 0%nat) ids) = 0%nat).
    { clear IH ND ND' Hin. induction ids as [ | j ids IH]; [reflexivity | ].
      cbn [map fold_right]. destruct (Z.eqb_spec i j) as [-> | _].
      - exfalso. apply Hn. left. reflexivity.
      - rewrite IH; [reflexivity | ]. intros H. apply Hn. right. exact H. }
    rewrite H0. reflexivity.
  - destruct Hin as [-> | Hin]; [contradiction Hne; reflexivity | ].
    rewrite IH by assumption. reflexivity.
Qed.

Lemma sum_add {A} (f g : A -> nat) (l : list A) :
  fold_right Nat.add 0%nat (map (fun x => (f x + g x)%nat) l)
  = (fold_right Nat.add 0%nat (map f l) + fold_right Nat.add 0%nat (map g l))%nat.
Proof. induction l as [ | x l IH]; cbn; [reflexivity | rewrite IH; lia]. Qed.

(** Every element falls in exactly one bucket. *)
Lemma count_partition {A} (key : A -> Z) (ids : list Z) (l : list A) :
  NoDup ids -> (forall x, In x l -> In (key x) ids) ->
  fold_right Nat.add 0%nat
             (map (fun i => List.length (filter (fun x => (key x =? i)%Z) l)) ids)
  = List.length l.
Proof.
  intros ND. induction l as [ | x l IH]; intros Hin.
  - cbn [filter List.length]. clear ND Hin. induction ids as [ | i ids IH]; cbn; auto.
  - rewrite (map_ext _ (fun i => ((if (key x =? i)%Z then 1 else 0)
                                  + List.length (filter (fun y => (key y =? i)%Z) l))%nat)).
    2:{ intros i. cbn [filter]. destruct (key x =? i)%Z; reflexivity. }
    rewrite sum_add, (count_one (key x) ids ND (Hin x (or_introl eq_refl))).
    rewrite IH by (intros y Hy; apply Hin; right; exact Hy). reflexivity.
Qed.

Lemma sum_filter {A} (p : A -> bool) (f : A -> nat) (l : list A) :
  (forall x, In x l -> p x = false -> f x = 0%nat) ->
  fold_right Nat.add 0%nat (map f (filter p l)) = fold_right Nat.add 0%nat (map f l).
Proof.
  induction l as [ | x l IH]; intros H; [reflexivity | ]. cbn [filter map fold_right].
  assert (IH' := IH (fun y Hy => H y (or_intror Hy))).
  destruct (p x) eqn:E; cbn [map fold_right]; rewrite IH'; [reflexivity | ].
  rewrite (H x (or_introl eq_refl) E). reflexivity.
Qed.

Lemma sum_of_nat {A} (f : A -> nat) (l : list A) :
  fold_right Z.add 0%Z (map (fun x => Z.of_nat (f x)) l)
  = Z.of_nat (fold_right Nat.add 0%nat (map f l)).
Proof. induction l as [ | x l IH]; cbn [map fold_right]; [reflexivity | rewrite IH; lia]. Qed.

Lemma unread_in_filter (s : Store) (u : Z) (m : Match.t) :
  ChatFacts.unread_in s u m
  = filter (fun msg => (Message.matchId msg =? Match.id m)%Z) (Chat.unread_for u s).
Proof.
  unfold ChatFacts.unread_in, Chat.unread_for.
  induction (messages s) as [ | msg l IH]; cbn [filter]; [reflexivity | ].
  destruct (Chat.is_unread_for u msg); cbn [filter];
    destruct (Message.matchId msg =? Match.id m)%Z; cbn [andb]; rewrite IH; reflexivity.
Qed.

End Conversations.

(** X14: every message stays inside a Match.  In every reachable
    store (requests taken one at a time), message ids are unique and below the next id, and every
    stored message is between two different users who like each other
    and belongs to the one Match of that pair. *)
Theorem messages_belong_to_matches (s : Store) (Hreach : Chat.reachable s) :
  Chat.messages_wf s
  /\ reachable (base s)
  /\ forall msg, In msg (messages s) ->
       Message.senderId msg <> Message.receiverId msg
       /\ mutual_like (base s) (Message.senderId msg) (Message.receiverId msg) = true
       /\ exists m, pair_matches (base s) (Message.senderId msg) (Message.receiverId msg) = [m]
                    /\ Match.id m = Message.matchId msg.
Proof.
  pose proof (ChatInvariant.reachable_messages_wf s Hreach) as Hwf.
  pose proof (ChatInvariant.reachable_base s Hreach) as Hb.
  split; [exact Hwf | split; [exact Hb | ]].
  intros msg Hmsg. destruct Hwf as (_ & _ & Hw).
  rewrite Forall_forall in Hw. destruct (Hw msg Hmsg) as (m0 & Hin0 & Hid0 & Hp0).
  assert (Hm : mutual_like (base s) (Message.senderId msg) (Message.receiverId msg) = true).
  { rewrite <- (ChatUsers.matched_mutual _ _ _ Hb). apply Liking.matched_iff. eauto. }
  destruct (Liking.reachable_likes_wf _ Hb) as (_ & Hself & _).
  split; [ | split; [exact Hm | ]].
  - intros E. unfold mutual_like in Hm. rewrite E, Hself in Hm. discriminate Hm.
  - destruct (ChatUsers.pair_matches_single _ _ _ Hb Hm) as (m & E & Hin & Hp).
    exists m. split; [exact E | ].
    destruct (Invariant.reachable_wf _ Hb) as (_ & _ & Hpair).
    rewrite (Unlike.filter_le_1 _ _ m m0 (Hpair _ _) Hin Hp Hin0 Hp0). exact Hid0.
Qed.

(** X15: the unread total is the sum of the per-Match counts.  In
    every reachable store (requests taken one at a time) GET /unread answers 200 and changes nothing;
    [totalUnread] is the number of unread messages addressed to the
    requester and equals the sum of the [unreadCount]s listed; every
    Match is listed at most once, with a positive count, under the
    other party of the Match, who is matched with the requester, and
    the count is the number of unread messages of their conversation
    addressed to the requester. *)
Theorem unread_total_is_sum (s : Store) (user : AuthUser) (Hreach : Chat.reachable s) :
  let u := auth_id user in
  let total := Z.of_nat (List.length (Chat.unread_for u s)) in
  exists entries,
    Chat.getUnread user s = (Resolved (Chat.mkReply 200 (Chat.Unread total entries)), s)
    /\ fold_right Z.add 0%Z (map Chat.UnreadEntry.unreadCount entries) = total
    /\ NoDup (map Chat.UnreadEntry.matchId entries)
    /\ forall e, In e entries ->
         (0 < Chat.UnreadEntry.unreadCount e)%Z
         /\ Chat.UnreadEntry.userId e <> u
         /\ mutual_like (base s) u (Chat.UnreadEntry.userId e) = true
         /\ Chat.UnreadEntry.unreadCount e
            = Z.of_nat (List.length
                          (filter (Chat.is_unread_for u)
                                  (Chat.conversation u (Chat.UnreadEntry.userId e) s))).
Proof.
  intros u total.
  pose proof (ChatInvariant.reachable_messages_wf s Hreach) as (_ & _ & Hw).
  pose proof (ChatInvariant.reachable_base s Hreach) as Hb.
  pose proof (Invariant.reachable_wf _ Hb) as (ND & _ & Hpair).
  destruct (Liking.reachable_likes_wf _ Hb) as (_ & Hself & _).
  rewrite Forall_forall in Hw.
  exists (map (ChatFacts.unread_entry s u) (ChatFacts.unread_matches s u)).
  split; [apply ChatFacts.getUnread_run | ].
  split; [ | split].
  - rewrite map_map. cbn [ChatFacts.unread_entry Chat.UnreadEntry.unreadCount].
    rewrite Conversations.sum_of_nat. unfold total. f_equal.
    unfold ChatFacts.unread_matches.
    rewrite Conversations.sum_filter.
    + rewrite (map_ext _ (fun m => List.length
                                     (filter (fun msg => (Message.matchId msg =? Match.id m)%Z)
                                             (Chat.unread_for u s))))
        by (intros m; rewrite Conversations.unread_in_filter; reflexivity).
      rewrite <- (map_map Match.id
                    (fun i => List.length (filter (fun msg => (Message.matchId msg =? i)%Z)
                                                  (Chat.unread_for u s)))).
      apply Conversations.count_partition; [exact ND | ].
      intros msg Hmsg. apply filter_In in Hmsg as [Hmsg _].
      destruct (Hw msg Hmsg) as (m & Hin & <- & _). apply in_map, Hin.
    + intros m Hm Hp. apply andb_false_iff in Hp as [Hp | Hp].
      * (* not a party: no message addressed to [u] carries its id *)
        destruct (ChatFacts.unread_in s u m) as [ | msg l] eqn:E; [reflexivity | exfalso].
        assert (Hin : In msg (ChatFacts.unread_in s u m)) by (rewrite E; left; reflexivity).
        apply filter_In in Hin as [Hin Hq]. apply andb_true_iff in Hq as [Hid Hu].
        rewrite (Conversations.matchId_between s m msg Hreach Hm Hin) in Hid.
        apply Liking.is_match_of_iff in Hid.
        unfold Chat.is_unread_for in Hu. apply andb_true_iff in Hu as [Hu _].
        apply Z.eqb_eq in Hu. apply orb_false_iff in Hp as [P1 P2].
        apply Z.eqb_neq in P1, P2. intuition congruence.
      * apply negb_false_iff, Nat.eqb_eq in Hp. exact Hp.
  - rewrite map_map. cbn [ChatFacts.unread_entry Chat.UnreadEntry.matchId].
    unfold ChatFacts.unread_matches.
    clear - ND. induction (matches (base s)) as [ | m l IH]; cbn; [constructor | ].
    inversion ND as [ | ? ? Hn ND']; subst.
    destruct (_ && _); cbn; [ | auto]. constructor; [ | auto].
    intros H. apply Hn. apply in_map_iff in H as (m' & E & H').
    apply filter_In in H' as [H' _]. rewrite <- E. apply in_map, H'.
  - intros e He. apply in_map_iff in He as (m & <- & Hm).
    apply filter_In in Hm as [Hm Hp]. apply andb_true_iff in Hp as [Hparty Hcount].
    cbn [ChatFacts.unread_entry Chat.UnreadEntry.unreadCount Chat.UnreadEntry.userId].
    apply negb_true_iff, Nat.eqb_neq in Hcount.
    assert (Hmm : mutual_like (base s) (Match.userAId m) (Match.userBId m) = true).
    { rewrite <- (ChatUsers.matched_mutual _ _ _ Hb). apply Liking.matched_iff.
      exists m. split; [exact Hm | ]. apply Liking.is_match_of_iff. auto. }
    assert (Hab : Match.userAId m <> Match.userBId m).
    { intros E. unfold mutual_like in Hmm. rewrite E, Hself in Hmm. discriminate Hmm. }
    set (w := if (Match.userAId m =? u)%Z then Match.userBId m else Match.userAId m).
    assert (Hpw : prisma.is_match_of u w m = true /\ w <> u
                  /\ mutual_like (base s) u w = true).
    { unfold w. destruct (Z.eqb_spec (Match.userAId m) u) as [Ea | Ea].
      - split; [apply Liking.is_match_of_iff; auto | ]. split; [congruence | ].
        rewrite <- Ea. exact Hmm.
      - cbn [orb] in Hparty. apply Z.eqb_eq in Hparty.
        split; [apply Liking.is_match_of_iff; auto | ]. split; [exact Ea | ].
        rewrite <- Hparty. unfold mutual_like in *. rewrite andb_comm. exact Hmm. }
    destruct Hpw as (Hpw & Hwu & Hmw).
    split; [lia | split; [exact Hwu | split; [exact Hmw | ]]].
    f_equal. rewrite Conversations.unread_in_filter.
    unfold Chat.conversation, Chat.unread_for. f_equal.
    assert (Hext : forall l : list Message.t,
               (forall msg, In msg l -> In msg (messages s)) ->
               filter (fun msg => (Message.matchId msg =? Match.id m)%Z)
                      (filter (Chat.is_unread_for u) l)
               = filter (Chat.is_unread_for u) (filter (Chat.between u w) l)).
    { induction l as [ | msg l IH]; intros Hl; [reflexivity | ]. cbn [filter].
      assert (IH' := IH (fun x Hx => Hl x (or_intror Hx))).
      pose proof (Conversations.matchId_between s m msg Hreach Hm (Hl msg (or_introl eq_refl)))
        as Hid.
      rewrite <- (Conversations.between_is_match_of u w msg m Hpw) in Hid.
      rewrite <- Hid.
      destruct (Chat.is_unread_for u msg) eqn:Eu;
        destruct (Message.matchId msg =? Match.id m)%Z eqn:Em;
        cbn [filter]; rewrite ?Eu, ?Em, IH'; reflexivity. }
    apply Hext. auto.
Qed.

Module Reading.
Import Resolver Unlike Invariant Liking.

(** *** [orderBy] *)

Lemma insert_asc_perm (x : Message.t) (l : list Message.t) :
  Permutation (Chat.insert_asc x l) (x :: l).
Proof.
  induction l as [ | y r IH]; cbn [Chat.insert_asc]; [reflexivity | ].
  destruct (_ <? _)%Z; [reflexivity | ]. rewrite IH. apply perm_swap.
Qed.

Lemma orderBy_perm (l : list Message.t) : Permutation (Chat.orderBy_createdAt_asc l) l.
Proof.
  unfold Chat.orderBy_createdAt_asc.
  enough (H : forall acc, Permutation (fold_left (fun a x => Chat.insert_asc x a) l acc) (acc ++ l)).
  { apply (H []). }
  induction l as [ | x l IH]; intros acc; cbn [fold_left].
  - rewrite app_nil_r. reflexivity.
  - rewrite IH, insert_asc_perm. apply Permutation_middle.
Qed.

Definition oldest_first : list Message.t -> Prop :=
  StronglySorted (fun a b => (Message.createdAt a <= Message.createdAt b)%Z).

Lemma insert_asc_sorted (x : Message.t) (l : list Message.t) :
  oldest_first l -> oldest_first (Chat.insert_asc x l).
Proof.
  unfold oldest_first. induction l as [ | y r IH]; intros S; cbn [Chat.insert_asc].
  - repeat constructor.
  - apply StronglySorted_inv in S as [S F].
    destruct (Z.ltb_spec (Message.createdAt x) (Message.createdAt y)).
    + constructor; [constructor; assumption | ]. constructor; [lia | ].
      apply Forall_impl with (2 := F). intros z Hz. lia.
    + constructor; [apply IH, S | ].
      apply Forall_forall. intros z Hz.
      apply (Permutation_in _ (insert_asc_perm x r)) in Hz.
      destruct Hz as [<- | Hz]; [lia | ]. rewrite Forall_forall in F. apply F, Hz.
Qed.

Lemma orderBy_sorted (l : list Message.t) : oldest_first (Chat.orderBy_createdAt_asc l).
Proof.
  unfold Chat.orderBy_createdAt_asc.
  enough (H : forall acc, oldest_first acc ->
                          oldest_first (fold_left (fun a x => Chat.insert_asc x a) l acc)).
  { apply H. constructor. }
  induction l as [ | x l IH]; intros acc S; cbn [fold_left]; [exact S | ].
  apply IH, insert_asc_sorted, S.
Qed.

(** Marking rows as read commutes with the listing. *)
Section Marking.
Variable f : Message.t -> Message.t.
Hypothesis f_createdAt : forall msg, Message.createdAt (f msg) = Message.createdAt msg.
Hypothesis f_matchId : forall msg, Message.matchId (f msg) = Message.matchId msg.

Lemma insert_asc_map (x : Message.t) (l : list Message.t) :
  Chat.insert_asc (f x) (map f l) = map f (Chat.insert_asc x l).
Proof.
  induction l as [ | y r IH]; cbn [Chat.insert_asc map]; [reflexivity | ].
  rewrite !f_createdAt. destruct (_ <? _)%Z; cbn [map]; [reflexivity | ].
  rewrite IH. reflexivity.
Qed.

Lemma orderBy_map (l : list Message.t) :
  Chat.orderBy_createdAt_asc (map f l) = map f (Chat.orderBy_createdAt_asc l).
Proof.
  unfold Chat.orderBy_createdAt_asc.
  enough (H : forall acc,
             fold_left (fun a x => Chat.insert_asc x a) (map f l) (map f acc)
             = map f (fold_left (fun a x => Chat.insert_asc x a) l acc)).
  { apply (H []). }
  induction l as [ | x l IH]; intros acc; cbn [fold_left map]; [reflexivity | ].
  rewrite insert_asc_map. apply IH.
Qed.

Lemma filter_matchId_map (i : Z) (l : list Message.t) :
  filter (fun msg => (Message.matchId msg =? i)%Z) (map f l)
  = map f (filter (fun msg => (Message.matchId msg =? i)%Z) l).
Proof.
  induction l as [ | x l IH]; cbn [filter map]; [reflexivity | ].
  rewrite f_matchId. destruct (_ =? _)%Z; cbn [map]; rewrite IH; reflexivity.
Qed.
End Marking.

(** The rows GET /match/:matchId marks: the unread messages of the
    Match that are addressed to [u]. *)
Definition mine (i u : Z) (msg : Message.t) : bool :=
  (Message.matchId msg =? i)%Z && Chat.is_unread_for u msg.

Definition mark (i u : Z) (msg : Message.t) : Message.t :=
  if mine i u msg then Chat.set_read msg else msg.

Lemma mark_createdAt (i u : Z) (msg : Message.t) :
  Message.createdAt (mark i u msg) = Message.createdAt msg.
Proof. unfold mark. destruct (mine i u msg); reflexivity. Qed.

Lemma mark_matchId (i u : Z) (msg : Message.t) :
  Message.matchId (mark i u msg) = Message.matchId msg.
Proof. unfold mark. destruct (mine i u msg); reflexivity. Qed.

Lemma mark_not_mine (i u : Z) (msg : Message.t) : mine i u (mark i u msg) = false.
Proof.
  unfold mark. destruct (mine i u msg) eqn:E; [ | exact E].
  unfold mine, Chat.is_unread_for. cbn. rewrite !andb_false_r. reflexivity.
Qed.

(** With unique ids, an id is in the list of ids to mark exactly when
    its row is one of the rows to mark. *)
Lemma unread_ids_mine (s : Store) (i u : Z) (msg : Message.t) :
  NoDup (map Message.id (messages s)) -> In msg (messages s) ->
  existsb (Z.eqb (Message.id msg)) (ChatFacts.unread_ids s i u) = mine i u msg.
Proof.
  intros ND Hmsg.
  assert (Hiff : existsb (Z.eqb (Message.id msg)) (ChatFacts.unread_ids s i u) = true
                 <-> mine i u msg = true).
  { rewrite existsb_exists. unfold ChatFacts.unread_ids, ChatFacts.listed. split.
    - intros (k & Hk & E). apply Z.eqb_eq in E. subst k.
      apply in_map_iff in Hk as (msg0 & Hid & H0).
      apply filter_In in H0 as [H0 Hu].
      apply (Permutation_in _ (orderBy_perm _)) in H0.
      apply filter_In in H0 as [H0 Hi].
      rewrite (NoDup_map_eq Message.id _ msg0 msg ND H0 Hmsg Hid) in *.
      unfold mine. rewrite Hi, Hu. reflexivity.
    - intros Hm. unfold mine in Hm. apply andb_true_iff in Hm as [Hi Hu].
      exists (Message.id msg). split; [ | apply Z.eqb_refl].
      apply in_map. apply filter_In. split; [ | exact Hu].
      apply (Permutation_in _ (Permutation_sym (orderBy_perm _))).
      apply filter_In. auto. }
  destruct (existsb _ _), (mine i u msg); try reflexivity; intuition congruence.
Qed.

Lemma marked_mark (s : Store) (i u : Z) :
  NoDup (map Message.id (messages s)) ->
  messages (ChatFacts.marked s (ChatFacts.unread_ids s i u)) = map (mark i u) (messages s).
Proof.
  intros ND. unfold ChatFacts.marked. cbn [messages]. apply map_ext_in.
  intros msg Hmsg. rewrite (unread_ids_mine s i u msg ND Hmsg). reflexivity.
Qed.

Lemma listed_marked (s : Store) (i u : Z) :
  NoDup (map Message.id (messages s)) ->
  ChatFacts.listed (ChatFacts.marked s (ChatFacts.unread_ids s i u)) i
  = map (mark i u) (ChatFacts.listed s i).
Proof.
  intros ND. unfold ChatFacts.listed. rewrite (marked_mark s i u ND).
  rewrite (filter_matchId_map (mark i u) (mark_matchId i u)).
  apply (orderBy_map (mark i u) (mark_createdAt i u)).
Qed.

Lemma unread_ids_marked (s : Store) (i u : Z) :
  NoDup (map Message.id (messages s)) ->
  ChatFacts.unread_ids (ChatFacts.marked s (ChatFacts.unread_ids s i u)) i u = [].
Proof.
  intros ND. unfold ChatFacts.unread_ids at 1. rewrite (listed_marked s i u ND).
  assert (Hin : forall msg, In msg (ChatFacts.listed s i) -> (Message.matchId msg =? i)%Z = true).
  { intros msg H. unfold ChatFacts.listed in H.
    apply (Permutation_in _ (orderBy_perm _)) in H. apply filter_In in H. tauto. }
  induction (ChatFacts.listed s i) as [ | msg l IH]; [reflexivity | ].
  cbn [map filter].
  assert (Hn := mark_not_mine i u msg). unfold mine in Hn.
  rewrite mark_matchId, (Hin msg (or_introl eq_refl)) in Hn. cbn [andb] in Hn.
  rewrite Hn. apply IH. intros x Hx. apply Hin. right. exact Hx.
Qed.

End Reading.

(** X16: opening a conversation marks it as read.  In a store with a
    well-formed message table, GET /match/:matchId answers 200 exactly
    when the Match exists and the requester is a party to it; a 4xx
    answer changes nothing.  A 200 answer lists the messages of the
    Match, all of them and no other, oldest first, as they were before
    the request; afterwards those of them addressed to the requester
    are read and no other row has changed; asking again gives the same
    list with these rows read, and changes nothing more. *)
Theorem getMatchMessages_marks_read
    (s : Store) (user : AuthUser) (matchIdNum : Z) (Hwf : Chat.messages_wf s) :
  let u := auth_id user in
  let r := Chat.getMatchMessages user (Some matchIdNum) s in
  let mark (msg : Message.t) :=
    if (Message.matchId msg =? matchIdNum)%Z && Chat.is_unread_for u msg
    then Chat.set_read msg else msg in
  ((exists body, fst r = Resolved (Chat.mkReply 200 body))
   <-> exists m, find (fun m => (Match.id m =? matchIdNum)%Z) (matches (base s)) = Some m
                 /\ (Match.userAId m = u \/ Match.userBId m = u))
  /\ (forall reply, fst r = Resolved reply -> (400 <= Chat.code reply < 500)%Z -> snd r = s)
  /\ (forall body,
         fst r = Resolved (Chat.mkReply 200 body) ->
         exists listed,
           body = Chat.Messages (map Chat.view listed)
           /\ Permutation listed
                (filter (fun msg => (Message.matchId msg =? matchIdNum)%Z) (messages s))
           /\ StronglySorted (fun a b => (Message.createdAt a <= Message.createdAt b)%Z) listed
           /\ snd r = mkStore (base s) (map mark (messages s)) (nextMessageId s)
           /\ Chat.getMatchMessages user (Some matchIdNum) (snd r)
              = (Resolved (Chat.mkReply 200 (Chat.Messages (map Chat.view (map mark listed)))),
                 snd r)).
Proof.
  intros u r mark. subst r. rewrite ChatFacts.getMatchMessages_run. fold u.
  destruct Hwf as (ND & _ & _).
  destruct (find _ (matches (base s))) as [m | ] eqn:Hm.
  2:{ split; [ | split].
      - split; [intros (b & E); discriminate E | intros (m & E & _); discriminate E].
      - reflexivity.
      - intros body E. discriminate E. }
  assert (Hparty : negb (Match.userAId m =? u)%Z && negb (Match.userBId m =? u)%Z = false
                   <-> Match.userAId m = u \/ Match.userBId m = u).
  { rewrite andb_false_iff, !negb_false_iff, !Z.eqb_eq. reflexivity. }
  destruct (negb (Match.userAId m =? u)%Z && negb (Match.userBId m =? u)%Z) eqn:Eauth;
    cbn [fst snd].
  { split; [ | split].
    - split; [intros (b & E); discriminate E | ].
      intros (m' & E & H). inversion E; subst m'. apply Hparty in H. discriminate H.
    - reflexivity.
    - intros body E. discriminate E. }
  split; [split; [intros _; exists m; split; [reflexivity | apply Hparty; reflexivity]
                 | intros _; eexists; reflexivity] | ].
  split; [intros reply E; inversion E; subst reply; cbn; lia | ].
  intros body E. inversion E; subst body; clear E.
  exists (ChatFacts.listed s matchIdNum).
  split; [reflexivity | ].
  split; [apply Reading.orderBy_perm | ].
  split; [apply Reading.orderBy_sorted | ].
  assert (Hs : ChatFacts.marked s (ChatFacts.unread_ids s matchIdNum u)
               = mkStore (base s) (map mark (messages s)) (nextMessageId s)).
  { pose proof (Reading.marked_mark s matchIdNum u ND) as Hmm.
    unfold ChatFacts.marked in *. cbn [messages] in Hmm. rewrite Hmm. reflexivity. }
  split; [exact Hs | ].
  rewrite ChatFacts.getMatchMessages_run. fold u.
  change (base (ChatFacts.marked s (ChatFacts.unread_ids s matchIdNum u))) with (base s).
  rewrite Hm, Eauth.
  rewrite (Reading.unread_ids_marked s matchIdNum u ND), ChatFacts.marked_nil.
  rewrite (Reading.listed_marked s matchIdNum u ND). reflexivity.
Qed.

Module MarkOne.
Import Unlike.

(** With unique ids, marking the row with id [i] changes that one row. *)
Lemma unread_after_mark (w i : Z) (msg : Message.t) (l : list Message.t) :
  NoDup (map Message.id l) -> In msg l -> Message.id msg = i ->
  (List.length (filter (Chat.is_unread_for w)
                       (map (fun x => if (Message.id x =? i)%Z then Chat.set_read x else x) l))
   + (if Chat.is_unread_for w msg then 1 else 0))%nat
  = List.length (filter (Chat.is_unread_for w) l).
Proof.
  intros ND Hin Hid. induction l as [ | x l IH]; [contradiction | ].
  inversion ND as [ | ? ? Hn ND']; subst. cbn [map filter].
  destruct (Z.eqb_spec (Message.id x) (Message.id msg)) as [E | E].
  - assert (x = msg) by (apply (NoDup_map_eq Message.id (x :: l) x msg ND); auto; left; reflexivity).
    subst x.
    assert (Hrest : map (fun x => if (Message.id x =? Message.id msg)%Z then Chat.set_read x else x) l = l).
    { rewrite <- (map_id l) at 2. apply map_ext_in. intros y Hy.
      destruct (Z.eqb_spec (Message.id y) (Message.id msg)) as [E' | ]; [ | reflexivity].
      exfalso. apply Hn. rewrite <- E'. apply in_map, Hy. }
    rewrite Hrest.
    replace (Chat.is_unread_for w (Chat.set_read msg)) with false
      by (unfold Chat.is_unread_for; cbn; rewrite andb_false_r; reflexivity).
    destruct (Chat.is_unread_for w msg); cbn [List.length]; lia.
  - destruct Hin as [-> | Hin]; [contradiction E; reflexivity | ].
    specialize (IH ND' Hin).
    destruct (Chat.is_unread_for w x); cbn [List.length]; lia.
Qed.

Lemma find_id_In (i : Z) (l : list Message.t) (msg : Message.t) :
  find (fun x => (Message.id x =? i)%Z) l = Some msg -> In msg l /\ Message.id msg = i.
Proof.
  intros H. apply find_some in H as [H E]. apply Z.eqb_eq in E. auto.
Qed.

End MarkOne.

(** X17: only the receiver marks a message as read.  In a store with
    a well-formed message table, PUT /:messageId/read answers 404 for
    an id (within the range of the [Int] column) that no message has
    and 403 to anyone but the receiver, the store unchanged; to the
    receiver it answers 200 with the message read, only the row of that
    message changes, every user's number of unread messages stays as it
    was except that the receiver's drops by one if the message was
    unread, and a repeated request gives the same answer and changes
    nothing. *)
Theorem putMessageRead_receiver_only
    (s : Store) (user : AuthUser) (messageIdNum : Z) (Hwf : Chat.messages_wf s) :
  let u := auth_id user in
  let r := Chat.putMessageRead user (Some messageIdNum) s in
  let mark (msg : Message.t) :=
    if (Message.id msg =? messageIdNum)%Z then Chat.set_read msg else msg in
  (int4 messageIdNum = true ->
   find (fun msg => (Message.id msg =? messageIdNum)%Z) (messages s) = None ->
   r = (Resolved (Chat.mkReply 404 (Chat.Error "Message not found")), s))
  /\ (forall message,
         find (fun msg => (Message.id msg =? messageIdNum)%Z) (messages s) = Some message ->
         (Message.receiverId message <> u ->
          r = (Resolved (Chat.mkReply 403
                           (Chat.Error "Not authorized to mark this message as read")), s))
         /\ (Message.receiverId message = u ->
             r = (Resolved (Chat.mkReply 200 (Chat.Marked (Chat.view (Chat.set_read message)))),
                  mkStore (base s) (map mark (messages s)) (nextMessageId s))
             /\ (forall w,
                    (List.length (Chat.unread_for w (snd r))
                     + (if Chat.is_unread_for w message then 1 else 0))%nat
                    = List.length (Chat.unread_for w s))
             /\ Chat.putMessageRead user (Some messageIdNum) (snd r)
                = (fst r, snd r))).
Proof.
  intros u r mark. subst r. rewrite ChatFacts.putMessageRead_run. fold u.
  destruct Hwf as (ND & _ & _).
  split; [intros _ ->; reflexivity | ].
  intros message Hfind. rewrite Hfind.
  destruct (MarkOne.find_id_In _ _ _ Hfind) as [Hin Hid].
  split.
  - intros Hne. apply Z.eqb_neq in Hne. rewrite Hne. reflexivity.
  - intros He. apply Z.eqb_eq in He. rewrite He. cbn [negb fst snd].
    assert (Hs : ChatFacts.marked s [messageIdNum]
                 = mkStore (base s) (map mark (messages s)) (nextMessageId s)).
    { unfold ChatFacts.marked. f_equal. apply map_ext. intros msg. cbn [existsb].
      rewrite orb_false_r. reflexivity. }
    rewrite Hs. split; [reflexivity | split].
    + intros w. unfold Chat.unread_for. cbn [messages].
      apply (MarkOne.unread_after_mark w messageIdNum message (messages s) ND Hin Hid).
    + rewrite ChatFacts.putMessageRead_run. cbn [messages base nextMessageId].
      assert (Hfind' : find (fun msg => (Message.id msg =? messageIdNum)%Z) (map mark (messages s))
                       = Some (Chat.set_read message)).
      { clear - Hfind. induction (messages s) as [ | x l IH]; [discriminate Hfind | ].
        cbn [find map] in *.
        destruct (Message.id x =? messageIdNum)%Z eqn:E.
        - inversion Hfind; subst x. unfold mark at 1 2. rewrite E.
          cbn [Chat.set_read Message.id]. rewrite E. reflexivity.
        - unfold mark at 1. rewrite E, E. apply IH, Hfind. }
      rewrite Hfind'. cbn [Chat.set_read Message.receiverId]. fold u. rewrite He. cbn [negb].
      f_equal.
      unfold ChatFacts.marked. cbn [messages base nextMessageId]. f_equal.
      rewrite map_map. apply map_ext. intros msg. cbn [existsb]. rewrite orb_false_r.
      unfold mark. destruct (Message.id msg =? messageIdNum)%Z eqn:E;
        cbn [Chat.set_read Message.id]; rewrite E; reflexivity.
Qed.

Module Dissolve.
Import Resolver Unlike Invariant Liking.

(** POST / between two users who are not matched. *)
Lemma postMessage_unmatched (s : Store) (now : Z) (user : AuthUser) (r : Z) (text : string) :
  auth_id user <> r -> matched (base s) (auth_id user) r = false ->
  Chat.postMessage now user r text s
  = (Resolved (Chat.mkReply 403 (Chat.Error "You must match with a user before sending messages")),
     s).
Proof.
  intros Hne Hm. rewrite ChatFacts.postMessage_run.
  apply Z.eqb_neq in Hne. rewrite Hne.
  apply matched_pair_matches in Hm. rewrite Hm. reflexivity.
Qed.

(** The messages that survive the deletion of the Matches of a pair. *)
Lemma cascade_pair (s : Store) (u v : Z) (db' : Db) :
  Chat.reachable s ->
  matches db' = filter (fun m => negb (prisma.is_match_of u v m)) (matches (base s)) ->
  Chat.cascade (base s) db' (messages s)
  = filter (fun msg => negb (Chat.between u v msg)) (messages s).
Proof.
  intros Hr Hdb. unfold Chat.cascade. apply filter_ext_in. intros msg Hmsg.
  destruct (ChatInvariant.reachable_messages_wf s Hr) as (_ & _ & Hw).
  rewrite Forall_forall in Hw. destruct (Hw msg Hmsg) as (m & Hin & Hid & Hp).
  assert (Hb : Chat.has_match_id (base s) (Message.matchId msg) = true).
  { rewrite <- Hid. apply ChatFacts.has_match_id_In, Hin. }
  rewrite Hb. cbn [negb orb].
  destruct (prisma.is_match_of u v m) eqn:Huv.
  - rewrite (Conversations.between_is_match_of u v msg m Huv), Hp. cbn [negb].
    apply not_true_is_false. intros H. unfold Chat.has_match_id in H.
    apply existsb_exists in H as (m' & Hin' & E). apply Z.eqb_eq in E.
    rewrite Hdb in Hin'. apply filter_In in Hin' as [Hin' Hn].
    destruct (reachable_wf _ (ChatInvariant.reachable_base s Hr)) as (ND & _).
    rewrite (NoDup_map_eq Match.id _ m' m ND Hin' Hin) in Hn by congruence.
    rewrite Huv in Hn. discriminate Hn.
  - assert (Hbt : Chat.between u v msg = false).
    { apply not_true_is_false. intros H. unfold Chat.between in H.
      assert (Hq : prisma.is_match_of u v m = true).
      { apply is_match_of_iff. apply is_match_of_iff in Hp.
        apply orb_true_iff in H as [H | H]; apply andb_true_iff in H as [H1 H2];
          apply Z.eqb_eq in H1, H2; intuition congruence. }
      congruence. }
    rewrite Hbt. cbn [negb]. unfold Chat.has_match_id. apply existsb_exists.
    exists m. split; [ | apply Z.eqb_eq; exact Hid].
    rewrite Hdb. apply filter_In. split; [exact Hin | rewrite Huv; reflexivity].
Qed.

(** The Match table after DELETE /like/:userId, in a well-formed
    store. *)
Lemma matches_deleteLike_pair (db : Db) (user : AuthUser) (v : Z) :
  matches_wf db -> has_like db (auth_id user) v = true ->
  deleteLike user (Some v) db
  = (Resolved (mkReply 200 (LikeDeletedBody true (matched db (auth_id user) v))),
     snd (deleteLike user (Some v) db))
  /\ matches (snd (deleteLike user (Some v) db))
     = filter (fun m => negb (prisma.is_match_of (auth_id user) v m)) (matches db)
  /\ has_like (snd (deleteLike user (Some v) db)) (auth_id user) v = false.
Proof.
  intros Hwf Hlike. rewrite deleteLike_run, Hlike.
  assert (Hun : has_like (unliked db (auth_id user) v) (auth_id user) v = false).
  { apply not_true_is_false. intros H. apply has_like_unliked in H. tauto. }
  destruct (pair_matches db (auth_id user) v) as [ | m r] eqn:E; cbn [hd_error fst snd].
  - pose proof E as E'. apply matched_pair_matches in E'. rewrite E'.
    split; [reflexivity | split; [ | exact Hun]].
    cbn [unliked matches]. symmetry. apply filter_negb_id. exact E.
  - assert (Hin : In m (pair_matches db (auth_id user) v)) by (rewrite E; left; reflexivity).
    apply filter_In in Hin as [Hin Hp].
    assert (Hm : matched db (auth_id user) v = true) by (apply matched_iff; eauto).
    rewrite Hm. split; [reflexivity | split; [ | exact Hun]].
    cbn [unmatched unliked matches].
    apply (delete_by_id_is_delete_pair db (auth_id user) v m Hwf Hin Hp).
Qed.

End Dissolve.

(** X18: unliking deletes the conversation.  In every reachable
    store (requests taken one at a time), when a user withdraws a Like, DELETE /like/:userId answers
    200 with [matchDeleted] true exactly when the Like was mutual; the
    messages the two users exchanged are deleted with the Match
    ([onDelete: Cascade]) and no other message is; the two are no
    longer matched, and a message from either to the other is answered
    403. *)
Theorem unlike_deletes_conversation
    (s : Store) (user : AuthUser) (toUserId : Z)
    (Hreach : Chat.reachable s)
    (Hlike : has_like (base s) (auth_id user) toUserId = true) :
  let u := auth_id user in
  let r := Chat.deleteLike user (Some toUserId) s in
  fst r = Resolved (mkReply 200 (LikeDeletedBody true (mutual_like (base s) u toUserId)))
  /\ messages (snd r) = filter (fun msg => negb (Chat.between u toUserId msg)) (messages s)
  /\ Chat.conversation u toUserId (snd r) = []
  /\ matched (base (snd r)) u toUserId = false
  /\ (forall now text,
         fst (Chat.postMessage now user toUserId text (snd r))
         = Resolved (Chat.mkReply 403
                       (Chat.Error "You must match with a user before sending messages")))
  /\ (forall now communityId text,
         fst (Chat.postMessage now (mkAuth toUserId communityId) u text (snd r))
         = Resolved (Chat.mkReply 403
                       (Chat.Error "You must match with a user before sending messages"))).
Proof.
  intros u r.
  pose proof (ChatInvariant.reachable_base s Hreach) as Hb.
  pose proof (Invariant.reachable_wf _ Hb) as Hwf.
  destruct (Dissolve.matches_deleteLike_pair (base s) user toUserId Hwf Hlike)
    as (Hrun & Hmatches & Hunliked).
  fold u in Hrun, Hmatches, Hunliked.
  assert (Hr' : Chat.reachable (snd r)) by (apply Chat.reach_deleteLike, Hreach).
  pose proof (ChatInvariant.reachable_base _ Hr') as Hb'.
  assert (Hbase : base (snd r) = snd (deleteLike user (Some toUserId) (base s))).
  { unfold r, Chat.deleteLike. apply ChatInvariant.base_lift. }
  assert (Hne : u <> toUserId).
  { intros E. destruct (Liking.reachable_likes_wf _ Hb) as (_ & Hself & _).
    unfold u in E. rewrite <- E, Hself in Hlike. discriminate Hlike. }
  assert (Hnot : matched (base (snd r)) u toUserId = false).
  { rewrite (ChatUsers.matched_mutual _ _ _ Hb'), Hbase. unfold mutual_like.
    rewrite Hunliked. reflexivity. }
  assert (Hmsgs : messages (snd r)
                  = filter (fun msg => negb (Chat.between u toUserId msg)) (messages s)).
  { unfold r, Chat.deleteLike. rewrite ChatInvariant.messages_lift.
    apply Dissolve.cascade_pair; [exact Hreach | exact Hmatches]. }
  split; [ | split; [exact Hmsgs | split; [ | split; [exact Hnot | split]]]].
  - unfold r, Chat.deleteLike, Chat.lift. rewrite Hrun. cbn [fst].
    rewrite (ChatUsers.matched_mutual _ _ _ Hb). reflexivity.
  - unfold Chat.conversation. rewrite Hmsgs. apply Unlike.filter_negb_nil.
  - intros now text. rewrite Dissolve.postMessage_unmatched; [reflexivity | exact Hne | exact Hnot].
  - intros now communityId text.
    rewrite Dissolve.postMessage_unmatched; [reflexivity | cbn; congruence | ].
    cbn [auth_id]. apply Liking.matched_pair_matches.
    rewrite Resolver.pair_matches_sym. apply Liking.matched_pair_matches, Hnot.
Qed.

(** ** Two matched users exchanging messages *)

Lemma chat_matched_reachable : Chat.reachable chat_matched.
Proof.
  unfold chat_matched, chat_init, db_pair.
  apply Chat.reach_postLike, Chat.reach_postLike, Chat.reach_init.
Qed.

Lemma chat_talking_reachable : Chat.reachable chat_talking.
Proof.
  unfold chat_talking.
  apply Chat.reach_postMessage, Chat.reach_postMessage, chat_matched_reachable.
Qed.

Lemma postMessage_needs_match_witness :
  Chat.postMessage 10 (mkAuth 1 1) 2 "hi" chat_matched
  = (Resolved (Chat.mkReply 201 (Chat.Sent (Message.mk 1 "hi" false 10 1 2 1))),
     mkStore (base chat_matched) [Message.mk 1 "hi" false 10 1 2 1] 2).
Proof.
  destruct (postMessage_needs_match chat_matched 10 (mkAuth 1 1) 2 "hi" chat_matched_reachable)
    as (_ & H & _).
  destruct (H eq_refl) as (m & Hm & Hr).
  injection Hm as <-. exact Hr.
Defined.

Lemma messages_belong_to_matches_witness :
  Chat.messages_wf chat_talking
  /\ reachable (base chat_talking)
  /\ forall msg, In msg (messages chat_talking) ->
       Message.senderId msg <> Message.receiverId msg
       /\ mutual_like (base chat_talking) (Message.senderId msg) (Message.receiverId msg) = true
       /\ exists m, pair_matches (base chat_talking)
                      (Message.senderId msg) (Message.receiverId msg) = [m]
                    /\ Match.id m = Message.matchId msg.
Proof.
  exact (messages_belong_to_matches chat_talking chat_talking_reachable).
Defined.

Lemma unread_total_is_sum_witness :
  Chat.getUnread (mkAuth 1 1) chat_talking
  = (Resolved (Chat.mkReply 200 (Chat.Unread 1 [Chat.UnreadEntry.mk 1 2 1])), chat_talking)
  /\ exists entries,
       Chat.getUnread (mkAuth 1 1) chat_talking
       = (Resolved (Chat.mkReply 200 (Chat.Unread 1 entries)), chat_talking)
       /\ fold_right Z.add 0%Z (map Chat.UnreadEntry.unreadCount entries) = 1%Z.
Proof.
  split; [reflexivity | ].
  destruct (unread_total_is_sum chat_talking (mkAuth 1 1) chat_talking_reachable)
    as (entries & Hrun & Hsum & _).
  exists entries. split; [exact Hrun | exact Hsum].
Defined.

Lemma getMatchMessages_marks_read_witness :
  fst (Chat.getMatchMessages (mkAuth 1 1) (Some 1%Z) chat_talking)
  = Resolved (Chat.mkReply 200
                (Chat.Messages [Chat.View.mk 1 "hi" false 10 1 2;
                                Chat.View.mk 2 "hello" false 20 2 1]))
  /\ (forall reply,
         fst (Chat.getMatchMessages (mkAuth 2 1) (Some 7%Z) chat_talking) = Resolved reply ->
         (400 <= Chat.code reply < 500)%Z ->
         snd (Chat.getMatchMessages (mkAuth 2 1) (Some 7%Z) chat_talking) = chat_talking).
Proof.
  split; [reflexivity | ].
  exact (proj1 (proj2 (getMatchMessages_marks_read chat_talking (mkAuth 2 1) 7
                         (ChatInvariant.reachable_messages_wf _ chat_talking_reachable)))).
Defined.

Lemma putMessageRead_receiver_only_witness :
  Chat.putMessageRead (mkAuth 1 1) (Some 2%Z) chat_talking
  = (Resolved (Chat.mkReply 200 (Chat.Marked (Chat.View.mk 2 "hello" true 20 2 1))),
     mkStore (base chat_talking)
             [Message.mk 1 "hi" false 10 1 2 1; Message.mk 2 "hello" true 20 2 1 1] 3)
  /\ Chat.putMessageRead (mkAuth 2 1) (Some 2%Z) chat_talking
     = (Resolved (Chat.mkReply 403 (Chat.Error "Not authorized to mark this message as read")),
        chat_talking).
Proof.
  pose proof (putMessageRead_receiver_only chat_talking (mkAuth 1 1) 2
                (ChatInvariant.reachable_messages_wf _ chat_talking_reachable)) as (_ & H).
  pose proof (putMessageRead_receiver_only chat_talking (mkAuth 2 1) 2
                (ChatInvariant.reachable_messages_wf _ chat_talking_reachable)) as (_ & H').
  split.
  - exact (proj1 (proj2 (H (Message.mk 2 "hello" false 20 2 1 1) eq_refl) eq_refl)).
  - apply (proj1 (H' (Message.mk 2 "hello" false 20 2 1 1) eq_refl)). cbn. discriminate.
Defined.

Lemma unlike_deletes_conversation_witness :
  fst (Chat.deleteLike (mkAuth 1 1) (Some 2%Z) chat_talking)
  = Resolved (mkReply 200 (LikeDeletedBody true true))
  /\ messages (snd (Chat.deleteLike (mkAuth 1 1) (Some 2%Z) chat_talking)) = []
  /\ fst (Chat.postMessage 30 (mkAuth 2 1) 1 "still there?"
            (snd (Chat.deleteLike (mkAuth 1 1) (Some 2%Z) chat_talking)))
     = Resolved (Chat.mkReply 403
                   (Chat.Error "You must match with a user before sending messages")).
Proof.
  destruct (unlike_deletes_conversation chat_talking (mkAuth 1 1) 2
              chat_talking_reachable eq_refl) as (H1 & H2 & _ & _ & _ & H6).
  split; [exact H1 | split; [exact H2 | exact (H6 30%Z 1%Z "still there?"%string)]].
Defined.
